(** * RejseplanenAPI: the response decoder of [main.py], embedded and verified

    The development follows the layout of [main.py]:
    - the polyline codec ([decode_polyline]);
    - the JSON values the decoder consumes and the Python operations the
      source applies to them ([in], [.get], subscripting, truthiness,
      iteration), with the exceptions they raise;
    - the data classes and their [from_api] constructors;
    - the shared-table resolver ([_parse_common_data]);
    - the trip assembler ([_parse_trip]) and the batch loops of
      [scroll_trips] and [plan_trip];
    - the walking-route cache filled inside [plan_trip], over an explicit
      store of [Polyline] objects so that sharing by reference is visible.

    Modelling choices.
    - A Python [float] is an IEEE 754 binary64 number, as [SpecFloat]
      defines them: [lat / 1e5] converts the [int] to the nearest double
      (ties to even), raising [OverflowError] when it is beyond the largest
      double, and divides with one more rounding.
    - The codec is defined on lists of code points, so its theorems hold for
      every Python string; a JSON string is a Rocq [string], whose characters
      have the codes 0..255.
    - Code that can raise returns a [result]; [_parse_trip] turns every
      exception of its body into [None], as its [except Exception] does.
    - The walking-route cache holds addresses into a store of [Polyline]
      objects; two sections share an object when they hold the same address.
    - The transport is a parameter [send]; the log of the requests it
      received is kept next to the store. *)

From Stdlib Require Import ZArith QArith String Ascii List Lia Bool SpecFloat.
From stdpp Require Import base option list gmap strings.
Import ListNotations.

Set Warnings "-register-all".

Local Open Scope string_scope.
Local Open Scope list_scope.
Local Open Scope Z_scope.

(* ===================================================================== *)
(** * Part I. Definitions *)
(* ===================================================================== *)

(** ** Exceptions and loops *)

(** The exceptions the decoder can raise.  [FuelExhausted] is not a Python
    exception: it marks a loop model that ran out of fuel, and
    [decode_polyline_ref] shows that it never occurs. *)
Inductive exn : Type :=
  | KeyError | TypeError | AttributeError | ValueError | OverflowError | FuelExhausted.

Inductive result (A : Type) : Type :=
  | Ok (a : A)
  | Raise (e : exn).
Arguments Ok {A} a.
Arguments Raise {A} e.

Definition bind {A B : Type} (m : result A) (k : A -> result B) : result B :=
  match m with
  | Ok a => k a
  | Raise e => Raise e
  end.

Notation "'do' x <- m ; k" := (bind m (fun x => k))
  (at level 10, x pattern, m at level 100, k at level 200).

(** A [for] loop whose body may raise: the body runs on each element in
    order, threading the loop state. *)
Fixpoint for_each {A S : Type} (body : S -> A -> result S) (items : list A) (st : S)
  : result S :=
  match items with
  | [] => Ok st
  | x :: rest => do st' <- body st x; for_each body rest st'
  end.

(** A loop that appends one parsed element per iteration. *)
Fixpoint map_result {A B : Type} (f : A -> result B) (items : list A) : result (list B) :=
  match items with
  | [] => Ok []
  | x :: rest => do y <- f x; do ys <- map_result f rest; Ok (y :: ys)
  end.

(** ** Python floats *)

(** A Python [float] is an IEEE 754 binary64 number: 53 bits of precision,
    exponents up to 1024, every operation rounded to nearest, ties to
    even. *)
Definition float : Type := spec_float.

(** The conversion of an [int] operand of [int / float]: the nearest double,
    [OverflowError] ("int too large to convert to float") when that is
    beyond the largest double. *)
Definition float_of_int (n : Z) : result float :=
  match binary_normalize 53 1024 n 0 false with
  | S754_infinity _ => Raise OverflowError
  | x => Ok x
  end.

(** The magnitude from which an [int] no longer converts: halfway between
    the largest double and 2^1024. *)
Definition float_limit : Z := 2 ^ 1024 - 2 ^ 970.

(** The double nearest to a rational: the double itself when the rational
    is the value of one. *)
Definition float_of_Q (q : Q) : float :=
  match Qnum q with
  | Z0 => S754_zero false
  | Zpos a =>
      let '(m, e, l) := SFdiv_core_binary 53 1024 (Zpos a) 0 (Zpos (Qden q)) 0 in
      binary_round_aux 53 1024 false m e l
  | Zneg a =>
      let '(m, e, l) := SFdiv_core_binary 53 1024 (Zpos a) 0 (Zpos (Qden q)) 0 in
      binary_round_aux 53 1024 true m e l
  end.

(** The literals [1e5] and [1e6]. *)
Definition float_1e5 : float := binary_normalize 53 1024 100000 0 false.
Definition float_1e6 : float := binary_normalize 53 1024 1000000 0 false.

(** [x / y] for floats, [y] not zero. *)
Definition float_div (x y : float) : float := SFdiv 53 1024 x y.

(** The number a field holds: [Coordinate(0, 0)] holds the [int] 0, a
    decoded coordinate holds a [float]. *)
Inductive number : Type :=
  | NInt (n : Z)
  | NFloat (x : float).

(** ** Polyline codec ([decode_polyline], main.py 985-1035) *)

(** A Python [str] is read through [ord]: the codec sees the list of the
    code points of its characters. *)
Definition ord (c : ascii) : Z := Z.of_N (N_of_ascii c).

Definition code_points (s : string) : list Z := map ord (list_ascii_of_string s).

(** [(~(result >> 1)) if (result & 1) else (result >> 1)] *)
Definition zigzag_decode (result : Z) : Z :=
  if Z.land result 1 =? 0 then Z.shiftr result 1 else Z.lnot (Z.shiftr result 1).

(** The inner [while index < len(encoded)] loop that assembles one delta
    (lines 1004-1010 for the latitude, 1021-1027 for the longitude).  The
    loop state is [(index, shift, result)]; it returns the final [index] and
    [result].  [None] means that the fuel ran out before the loop exited. *)
Fixpoint read_delta (fuel : nat) (encoded : list Z) (index : nat) (shift result : Z)
  : option (nat * Z) :=
  match fuel with
  | O => None
  | S fuel' =>
      if (index <? length encoded)%nat then
        let b := nth index encoded 0 - 63 in
        let index := S index in
        let result := Z.lor result (Z.shiftl (Z.land b 31) shift) in
        let shift := shift + 5 in
        if b <? 32 then Some (index, result)
        else read_delta fuel' encoded index shift result
      else Some (index, result)
  end.

(** [lat / 1e5] for an [int]: the conversion, then the division. *)
Definition div_1e5 (n : Z) : result float :=
  do x <- float_of_int n; Ok (float_div x float_1e5).

(** The tuple [(lat / 1e5, lon / 1e5)] of line 1033, latitude first. *)
Definition degrees (lat lon : Z) : result (float * float) :=
  do y <- div_1e5 lat; do x <- div_1e5 lon; Ok (y, x).

(** The outer [while index < len(encoded)] loop (lines 1000-1033), with the
    loop state [(index, lat, lon, coordinates)].  [None] means that the fuel
    ran out; [Some (Raise e)] that line 1033 raised. *)
Fixpoint decode_loop (fuel : nat) (encoded : list Z) (index : nat) (lat lon : Z)
    (coordinates : list (float * float)) : option (result (list (float * float))) :=
  match fuel with
  | O => None
  | S fuel' =>
      if (index <? length encoded)%nat then
        match read_delta (S (length encoded)) encoded index 0 0 with
        | None => None
        | Some (index, result) =>
            let lat_delta := zigzag_decode result in
            let lat := lat + lat_delta in
            if (length encoded <=? index)%nat then Some (Ok coordinates)
            else
              match read_delta (S (length encoded)) encoded index 0 0 with
              | None => None
              | Some (index, result) =>
                  let lon_delta := zigzag_decode result in
                  let lon := lon + lon_delta in
                  match degrees lat lon with
                  | Ok point =>
                      decode_loop fuel' encoded index lat lon (coordinates ++ [point])
                  | Raise e => Some (Raise e)
                  end
              end
        end
      else Some (Ok coordinates)
  end.

(** [decode_polyline]: [if not encoded: return []], then the loop from
    [index = 0], [lat = 0], [lon = 0]. *)
Definition decode_polyline (encoded : list Z)
  : option (result (list (float * float))) :=
  match encoded with
  | [] => Some (Ok [])
  | _ => decode_loop (S (length encoded)) encoded 0 0 0 []
  end.

Definition decode_polyline_str (encoded : string)
  : option (result (list (float * float))) :=
  decode_polyline (code_points encoded).

(** *** The reference algorithm of the specification

    Written from the specification's description, independently of the
    index-and-loop shape of the source: the input is cut into variable-length
    integers, each is sign-decoded, consecutive integers are paired as
    (latitude, longitude) deltas, a lone trailing latitude is dropped, and
    the deltas are summed from the origin. *)

(** "continuation flag = bit 0x20 of (char_code - 63)" *)
Definition spec_continuation (v : Z) : bool := Z.testbit v 5.

(** What the source tests instead: [b < 0x20] ends the integer. *)
Definition code_continuation (v : Z) : bool := 32 <=? v.

(** "little-endian 5-bit groups": the magnitudes of the integers of the
    input, in order.  An integer ends at the first group without the
    continuation flag, or where the input ends. *)
Fixpoint ref_varints (continues : Z -> bool) (input : list Z) : list Z :=
  match input with
  | [] => []
  | c :: rest =>
      let v := c - 63 in
      let group := v mod 32 in
      if continues v then
        match ref_varints continues rest with
        | [] => [group]
        | high :: others => (group + 32 * high) :: others
        end
      else group :: ref_varints continues rest
  end.

(** "if the low bit is set, the value is the one's complement of the
    right-shifted magnitude, else it is the right-shifted magnitude" *)
Definition ref_zigzag (magnitude : Z) : Z :=
  if Z.odd magnitude then - (magnitude / 2) - 1 else magnitude / 2.

(** "latitude is decoded first, then longitude"; a latitude without a
    longitude is dropped. *)
Fixpoint ref_pairs (deltas : list Z) : list (Z * Z) :=
  match deltas with
  | dlat :: dlon :: rest => (dlat, dlon) :: ref_pairs rest
  | _ => []
  end.

(** "accumulated as running deltas against the previous point" *)
Fixpoint ref_accumulate (lat lon : Z) (deltas : list (Z * Z)) : list (Z * Z) :=
  match deltas with
  | [] => []
  | (dlat, dlon) :: rest =>
      (lat + dlat, lon + dlon) :: ref_accumulate (lat + dlat) (lon + dlon) rest
  end.

(** The accumulated integers, in units of 1e-5 degree. *)
Definition ref_path (continues : Z -> bool) (input : list Z) : list (Z * Z) :=
  ref_accumulate 0 0 (ref_pairs (map ref_zigzag (ref_varints continues input))).

(** "Final coordinates are the accumulated integer divided by 1e5", in the
    arithmetic of the source. *)
Definition ref_degrees (p : Z * Z) : result (float * float) :=
  do lat <- div_1e5 (fst p); do lon <- div_1e5 (snd p); Ok (lat, lon).

Definition ref_decode (continues : Z -> bool) (input : list Z)
  : result (list (float * float)) :=
  map_result ref_degrees (ref_path continues input).

Definition spec_decode (input : list Z) : result (list (float * float)) :=
  ref_decode spec_continuation input.

(** The alphabet of the encoding: [char_code - 63] is a 6-bit value. *)
Definition in_alphabet (c : Z) : Prop := 63 <= c <= 126.

(** Shapes of input, in the terms of the source's own test ([b < 0x20]
    ends a delta): one delta is a run of continuing characters and one more
    character; it is terminated when that last character ends it. *)
Definition continuing (c : Z) : Prop := 32 <= c - 63.

Definition one_delta (d : list Z) : Prop :=
  exists pre c, d = pre ++ [c] /\ Forall continuing pre.

Definition terminated_delta (d : list Z) : Prop :=
  exists pre c, d = pre ++ [c] /\ Forall continuing pre /\ c - 63 < 32.

(** An input made of complete (latitude, longitude) pairs. *)
Inductive complete_pairs : list Z -> Prop :=
  | complete_nil : complete_pairs []
  | complete_pair dlat dlon rest :
      terminated_delta dlat -> terminated_delta dlon -> complete_pairs rest ->
      complete_pairs (dlat ++ dlon ++ rest).

(** ** JSON values and the Python operations applied to them *)

(** A deserialized response fragment.  A JSON object is an association list
    (Python dicts iterate in insertion order); [dict_lookup] reads the first
    binding of a key.  [JFloat q] is a number that parsed to a Python
    [float], given by the value [q] of that double. *)
Inductive json : Type :=
  | JNull
  | JBool (b : bool)
  | JInt (n : Z)
  | JFloat (q : Q)
  | JStr (s : string)
  | JArr (items : list json)
  | JObj (fields : list (string * json)).

Fixpoint dict_lookup (k : string) (d : list (string * json)) : option json :=
  match d with
  | [] => None
  | (k', v) :: rest => if String.eqb k k' then Some v else dict_lookup k rest
  end.

(** [d.get(k, default)] on a dict [d]. *)
Definition dict_get (d : list (string * json)) (k : string) (default : json) : json :=
  match dict_lookup k d with
  | Some v => v
  | None => default
  end.

(** Truth value of a JSON value ([if v:], [not v], [v or w]). *)
Definition py_truthy (v : json) : bool :=
  match v with
  | JNull => false
  | JBool b => b
  | JInt n => negb (n =? 0)
  | JFloat q => negb (Qnum q =? 0)
  | JStr s => negb (String.eqb s "")
  | JArr items => match items with [] => false | _ => true end
  | JObj fields => match fields with [] => false | _ => true end
  end.

(** [a or b] *)
Definition py_or (a b : json) : json := if py_truthy a then a else b.

(** [k in s] for strings: substring test. *)
Fixpoint is_substring (k s : string) : bool :=
  String.prefix k s ||
  match s with
  | EmptyString => false
  | String _ s' => is_substring k s'
  end.

Definition is_str (k : string) (v : json) : bool :=
  match v with
  | JStr s => String.eqb k s
  | _ => false
  end.

(** [k in v] for a string [k]: key membership in a dict, element membership
    in a list, substring test in a string, [TypeError] otherwise. *)
Definition py_contains (k : string) (v : json) : result bool :=
  match v with
  | JObj d => Ok (bool_decide (is_Some (dict_lookup k d)))
  | JArr items => Ok (existsb (is_str k) items)
  | JStr s => Ok (is_substring k s)
  | _ => Raise TypeError
  end.

(** [v.get(k, default)]: only dicts have [.get]. *)
Definition py_get (v : json) (k : string) (default : json) : result json :=
  match v with
  | JObj d => Ok (dict_get d k default)
  | _ => Raise AttributeError
  end.

(** [v[k]] for a string [k]. *)
Definition py_getitem (v : json) (k : string) : result json :=
  match v with
  | JObj d => match dict_lookup k d with
              | Some x => Ok x
              | None => Raise KeyError
              end
  | _ => Raise TypeError
  end.

Fixpoint chars (s : string) : list json :=
  match s with
  | EmptyString => []
  | String c s' => JStr (String c EmptyString) :: chars s'
  end.

(** [for x in v]: the elements of a list, the keys of a dict, the characters
    of a string; [TypeError] otherwise. *)
Definition py_iter (v : json) : result (list json) :=
  match v with
  | JArr items => Ok items
  | JObj d => Ok (map (fun kv => JStr (fst kv)) d)
  | JStr s => Ok (chars s)
  | _ => Raise TypeError
  end.

(** [ord(x)] for an element [x] of a list: a one-character string. *)
Definition char_code (v : json) : result Z :=
  match v with
  | JStr (String c EmptyString) => Ok (ord c)
  | _ => Raise TypeError
  end.

Definition run_decode (codes : list Z) : result (list (float * float)) :=
  match decode_polyline codes with
  | Some outcome => outcome
  | None => Raise FuelExhausted
  end.

(** [decode_polyline] as the callers invoke it, on whatever value sits under
    [crdEncYX]: a falsy value returns [[]] at once; a string is decoded; a
    list is indexed like a string, so it decodes when each element is a
    one-character string; [len] or [encoded[0]] raise on anything else. *)
Definition decode_polyline_value (encoded : json) : result (list (float * float)) :=
  if negb (py_truthy encoded) then Ok []
  else
    match encoded with
    | JStr s => run_decode (code_points s)
    | JArr items => do codes <- map_result char_code items; run_decode codes
    | JObj _ => Raise KeyError
    | _ => Raise TypeError
    end.

(** [v / 1e6] for the value of a coordinate field: an [int] (a [bool] is
    one) is converted to a float first, which can raise [OverflowError]; a
    JSON float [q] is the double of that value. *)
Definition div_1e6 (v : json) : result float :=
  match v with
  | JInt n => do x <- float_of_int n; Ok (float_div x float_1e6)
  | JBool b => do x <- float_of_int (if b then 1 else 0); Ok (float_div x float_1e6)
  | JFloat q => Ok (float_div (float_of_Q q) float_1e6)
  | _ => Raise TypeError
  end.

(** ** Enums and data classes (main.py 20-502)

    A field copied from the wire with [data.get(...)] holds whatever JSON
    value the response carried, so such fields have type [json]; a default
    is the JSON value of the Python default ([None] is [JNull]).  Every
    [from_api] reads its argument with [.get] only, which raises
    [AttributeError] unless the argument is a dict. *)

Inductive TransportMode : Type :=
  | WALK | JNY | BIKE | CAR | TAXI | KISS | PARK | TETA.

Definition TransportMode_eqb (a b : TransportMode) : bool :=
  match a, b with
  | WALK, WALK | JNY, JNY | BIKE, BIKE | CAR, CAR
  | TAXI, TAXI | KISS, KISS | PARK, PARK | TETA, TETA => true
  | _, _ => false
  end.

(** [TransportMode(value)]: lookup of an enum member by value. *)
Definition TransportMode_of_value (v : json) : result TransportMode :=
  match v with
  | JStr s =>
      if String.eqb s "WALK" then Ok WALK
      else if String.eqb s "JNY" then Ok JNY
      else if String.eqb s "BIKE" then Ok BIKE
      else if String.eqb s "CAR" then Ok CAR
      else if String.eqb s "TAXI" then Ok TAXI
      else if String.eqb s "KISS" then Ok KISS
      else if String.eqb s "PARK" then Ok PARK
      else if String.eqb s "TETA" then Ok TETA
      else Raise ValueError
  | _ => Raise ValueError
  end.

Module Coordinate.
Record t : Type := mk {
  lat : number;
  lon : number;
  layer_index : json;
  crd_sys_index : json
}.

(** [Coordinate(lat, lon)] for two floats, with the default indices. *)
Definition of_lat_lon (lat lon : float) : t :=
  mk (NFloat lat) (NFloat lon) (JInt 0) (JInt 0).

(** [Coordinate(0, 0)]: the two fields hold the [int] 0. *)
Definition origin : t := mk (NInt 0) (NInt 0) (JInt 0) (JInt 0).

Definition from_api (crd : json) : result t :=
  do y <- py_get crd "y" (JInt 0);
  do lat <- div_1e6 y;
  do x <- py_get crd "x" (JInt 0);
  do lon <- div_1e6 x;
  do layer <- py_get crd "layerX" (JInt 0);
  do sys <- py_get crd "crdSysX" (JInt 0);
  Ok (mk (NFloat lat) (NFloat lon) layer sys).
End Coordinate.

Module Color.
Record t : Type := mk { r : json; g : json; b : json }.

(** [Color] called with the entries of [v] as keyword arguments ([** v]):
    [v] must be a mapping whose keys are exactly the three required
    arguments. *)
Definition from_kwargs (v : json) : result t :=
  match v with
  | JObj d =>
      if forallb (fun kv => String.eqb (fst kv) "r" || String.eqb (fst kv) "g"
                            || String.eqb (fst kv) "b") d
      then match dict_lookup "r" d, dict_lookup "g" d, dict_lookup "b" d with
           | Some r, Some g, Some b => Ok (mk r g b)
           | _, _, _ => Raise TypeError
           end
      else Raise TypeError
  | _ => Raise TypeError
  end.

(** The colour under [data[k]] [if k in data else None] *)
Definition optional (data : json) (k : string) : result (option t) :=
  do present <- py_contains k data;
  if present then
    do v <- py_getitem data k;
    do c <- from_kwargs v;
    Ok (Some c)
  else Ok None.
End Color.

Module Icon.
Record t : Type := mk {
  resource : json;
  text : json;
  foreground : option Color.t;
  background : option Color.t
}.

Definition from_api (data : json) : result t :=
  do fg <- Color.optional data "fg";
  do bg <- Color.optional data "bg";
  do res <- py_get data "res" (JStr "");
  do txt <- py_get data "txt" JNull;
  Ok (mk res txt fg bg).
End Icon.

Module DrawStyle.
Record t : Type := mk {
  type : json;
  icon_index : json;
  background : option Color.t
}.

Definition from_api (data : json) : result t :=
  do bg <- Color.optional data "bg";
  do ty <- py_get data "type" (JStr "SOLID");
  do ico <- py_get data "sIcoX" JNull;
  Ok (mk ty ico bg).
End DrawStyle.

Module Location.
Record t : Type := mk {
  lid : json;
  name : json;
  type : json;
  coordinate : Coordinate.t;
  ext_id : json;
  state : json;
  weight : json;
  is_main_mast : json;
  product_classes : json;
  product_refs : json;
  icon_index : json;
  house_number : json
}.

Definition from_api (data : json) : result t :=
  do has_crd <- py_contains "crd" data;
  do coord <- (if has_crd
               then do crd <- py_getitem data "crd"; Coordinate.from_api crd
               else Ok Coordinate.origin);
  match data with
  | JObj d =>
      Ok (mk (dict_get d "lid" (JStr "")) (dict_get d "name" (JStr ""))
            (dict_get d "type" (JStr "")) coord
            (dict_get d "extId" JNull) (dict_get d "state" (JStr "F"))
            (dict_get d "wt" (JInt 0)) (dict_get d "isMainMast" (JBool false))
            (dict_get d "pCls" (JInt 0)) (dict_get d "pRefL" (JArr []))
            (dict_get d "icoX" JNull) (dict_get d "H" JNull))
  | _ => Raise AttributeError
  end.
End Location.

Module Product.
Record t : Type := mk {
  pid : json;
  name : json;
  name_short : json;
  number : json;
  line : json;
  line_id : json;
  category : json;
  category_out : json;
  category_code : json;
  cls : json;
  operator_index : json;
  admin : json;
  match_id : json;
  icon_index : json;
  him_ids : json
}.

Definition from_api (data : json) : result t :=
  match data with
  | JObj d =>
      match dict_get d "prodCtx" (JObj []) with
      | JObj ctx =>
          Ok (mk (dict_get d "pid" JNull) (dict_get d "name" (JStr ""))
                (dict_get d "nameS" JNull)
                (py_or (dict_get d "number" JNull) (dict_get ctx "num" JNull))
                (dict_get ctx "line" JNull) (dict_get ctx "lineId" JNull)
                (dict_get ctx "catIn" JNull) (dict_get ctx "catOut" JNull)
                (dict_get ctx "catCode" JNull) (dict_get d "cls" (JInt 0))
                (dict_get d "oprX" JNull) (dict_get ctx "admin" JNull)
                (dict_get ctx "matchId" JNull) (dict_get d "icoX" JNull)
                (dict_get d "himIdL" (JArr [])))
      | _ => Raise AttributeError
      end
  | _ => Raise AttributeError
  end.
End Product.

Module Operator.
Record t : Type := mk { name : json; icon_index : json }.

(** [Operator(name=op_data.get('name', ''), icon_index=op_data.get('icoX'))] *)
Definition from_api (op_data : json) : result t :=
  match op_data with
  | JObj d => Ok (mk (dict_get d "name" (JStr "")) (dict_get d "icoX" JNull))
  | _ => Raise AttributeError
  end.
End Operator.

Module ServiceDays.
Record t : Type := mk { regular : json; irregular : json; bitmask : json }.

Definition from_api (data : json) : result t :=
  match data with
  | JObj d =>
      Ok (mk (dict_get d "sDaysR" JNull) (dict_get d "sDaysI" JNull)
            (dict_get d "sDaysB" JNull))
  | _ => Raise AttributeError
  end.
End ServiceDays.

Module ServiceMessage.
Record t : Type := mk {
  type : json;
  code : json;
  priority : json;
  text : json;
  text_normal : json;
  icon_index : json;
  style : json;
  from_location_index : json;
  to_location_index : json;
  tags : json;
  sort_order : json;
  rem_index : json
}.

Definition from_api (data : json) : result t :=
  match data with
  | JObj d =>
      Ok (mk (dict_get d "type" (JStr "")) (dict_get d "code" JNull)
            (dict_get d "prio" (JInt 0)) (dict_get d "txtN" JNull)
            (dict_get d "txtS" JNull) (dict_get d "icoX" JNull)
            (dict_get d "sty" JNull) (dict_get d "fLocX" JNull)
            (dict_get d "tLocX" JNull) (dict_get d "tagL" (JArr []))
            (dict_get d "sort" (JInt 0)) (dict_get d "remX" JNull))
  | _ => Raise AttributeError
  end.
End ServiceMessage.

Module WalkingSegment.
Record t : Type := mk {
  name : json;
  instruction : json;
  orientation : json;
  route_type : json;
  distance : json;
  poly_start : json;
  poly_end : json;
  icon_index : json
}.

Definition from_api (data : json) : result t :=
  match data with
  | JObj d =>
      Ok (mk (dict_get d "name" JNull) (dict_get d "manTx" JNull)
            (dict_get d "ori" JNull) (dict_get d "rType" JNull)
            (dict_get d "dist" (JInt 0)) (dict_get d "polyS" (JInt 0))
            (dict_get d "polyE" (JInt 0)) (dict_get d "icoX" JNull))
  | _ => Raise AttributeError
  end.
End WalkingSegment.

Module Polyline.
Record t : Type := mk {
  encoded : json;
  coordinates : list Coordinate.t;
  location_refs : json;
  draw_style_index : json;
  delta : json;
  dimension : json;
  encoding_start : json;
  encoding_format : json
}.

(** The construction shared by [_parse_common_data] (lines 1076-1086) and
    [get_walking_details] (lines 896-907) for an entry that carries
    [crdEncYX]: decode the geometry, then build the object. *)
Definition of_poly_data (poly_data : json) : result (list Coordinate.t * t) :=
  do enc <- py_getitem poly_data "crdEncYX";
  do coords <- decode_polyline_value enc;
  let coordinates := map (fun p => Coordinate.of_lat_lon (fst p) (snd p)) coords in
  do refs <- py_get poly_data "ppLocRefL" (JArr []);
  do style <- py_get poly_data "lDrawStyleX" JNull;
  do delta <- py_get poly_data "delta" (JBool true);
  do dim <- py_get poly_data "dim" (JInt 2);
  do start <- py_get poly_data "crdEncS" JNull;
  do format <- py_get poly_data "crdEncF" JNull;
  Ok (coordinates, mk enc coordinates refs style delta dim start format).
End Polyline.

Module Stop.
Record t : Type := mk {
  location_index : json;
  arrival_time : json;
  departure_time : json;
  arrival_platform : json;
  departure_platform : json;
  arrival_delay : json;
  departure_delay : json;
  cancelled : json;
  additional : json
}.

Definition from_api (data : json) : result t :=
  match data with
  | JObj d =>
      Ok (mk (dict_get d "locX" (JInt (-1))) (dict_get d "aTimeS" JNull)
            (dict_get d "dTimeS" JNull) (dict_get d "aPlatfS" JNull)
            (dict_get d "dPlatfS" JNull) (dict_get d "aDelayS" JNull)
            (dict_get d "dDelayS" JNull) (dict_get d "cancelled" (JBool false))
            (dict_get d "additional" (JBool false)))
  | _ => Raise AttributeError
  end.
End Stop.

Module Journey.
Record t : Type := mk {
  jid : json;
  date : json;
  product_index : json;
  direction_text : json;
  direction_flag : json;
  status : json;
  is_reachable : json;
  stops : list Stop.t;
  polyline_indices : json;
  messages : list ServiceMessage.t;
  subscription : json;
  ctx_recon : json
}.

(** The constructor call of lines 1153-1163 and 1177-1187: the nine keyword
    arguments read from [jny_data], the other fields at their defaults. *)
Definition of_jny_data (jny_data : json) : result t :=
  match jny_data with
  | JObj d =>
      Ok (mk (dict_get d "jid" (JStr "")) (dict_get d "date" (JStr ""))
            (dict_get d "prodX" JNull) (dict_get d "dirTxt" JNull)
            (dict_get d "dirFlg" JNull) (dict_get d "status" JNull)
            (dict_get d "isRchbl" (JBool true)) [] (JArr []) []
            (dict_get d "subscr" (JStr "N")) (dict_get d "ctxRecon" JNull))
  | _ => Raise AttributeError
  end.

Definition set_stops (j : t) (v : list Stop.t) : t :=
  mk (jid j) (date j) (product_index j) (direction_text j) (direction_flag j)
     (status j) (is_reachable j) v (polyline_indices j) (messages j)
     (subscription j) (ctx_recon j).

Definition set_polyline_indices (j : t) (v : json) : t :=
  mk (jid j) (date j) (product_index j) (direction_text j) (direction_flag j)
     (status j) (is_reachable j) (stops j) v (messages j)
     (subscription j) (ctx_recon j).

Definition set_messages (j : t) (v : list ServiceMessage.t) : t :=
  mk (jid j) (date j) (product_index j) (direction_text j) (direction_flag j)
     (status j) (is_reachable j) (stops j) (polyline_indices j) v
     (subscription j) (ctx_recon j).
End Journey.

(** A reference to a [Polyline] object of the store: its address. *)
Definition polyline_ref : Type := nat.

Module GisInfo.
Record t : Type := mk {
  distance : json;
  duration_seconds : json;
  ctx : json;
  provider : json;
  segments : list WalkingSegment.t;
  polyline : option polyline_ref
}.

Definition set_polyline (g : t) (v : option polyline_ref) : t :=
  mk (distance g) (duration_seconds g) (ctx g) (provider g) (segments g) v.

Definition set_segments (g : t) (v : list WalkingSegment.t) : t :=
  mk (distance g) (duration_seconds g) (ctx g) (provider g) v (polyline g).
End GisInfo.

Module TripSection.
Record t : Type := mk {
  type : TransportMode;
  departure : json;
  arrival : json;
  journey : option Journey.t;
  gis : option GisInfo.t;
  polyline_indices : json;
  messages : list ServiceMessage.t;
  call_ahead_service : json;
  booking_required : bool;
  booking_deadline_minutes : option Z
}.

(** [TripSection(type=..., departure=..., arrival=...)] *)
Definition create (ty : TransportMode) (dep arr : json) : t :=
  mk ty dep arr None None (JArr []) [] (JBool false) false None.

Definition set_journey (s : t) (v : option Journey.t) : t :=
  mk (type s) (departure s) (arrival s) v (gis s) (polyline_indices s)
     (messages s) (call_ahead_service s) (booking_required s)
     (booking_deadline_minutes s).

Definition set_gis (s : t) (v : option GisInfo.t) : t :=
  mk (type s) (departure s) (arrival s) (journey s) v (polyline_indices s)
     (messages s) (call_ahead_service s) (booking_required s)
     (booking_deadline_minutes s).

Definition set_messages (s : t) (v : list ServiceMessage.t) : t :=
  mk (type s) (departure s) (arrival s) (journey s) (gis s) (polyline_indices s)
     v (call_ahead_service s) (booking_required s) (booking_deadline_minutes s).

(** The three assignments of lines 1136-1138. *)
Definition set_booking (s : t) (flag : json) : t :=
  mk (type s) (departure s) (arrival s) (journey s) (gis s) (polyline_indices s)
     (messages s) flag true (Some 120).
End TripSection.

Module TariffResult.
Record t : Type := mk {
  status_code : json;
  fare_sets : list json;
  external_content : json;
  messages : json
}.
End TariffResult.

Module Trip.
Record t : Type := mk {
  id : json;
  date : json;
  duration : json;
  changes : json;
  departure_time : json;
  arrival_time : json;
  sections : list TripSection.t;
  service_days : option ServiceDays.t;
  tariff_result : option TariffResult.t;
  messages : list ServiceMessage.t;
  subscription : json;
  checksum : json;
  checksum_dti : json;
  ctx_recon : json;
  rec_state : json
}.

Definition set_sections (trip : t) (v : list TripSection.t) : t :=
  mk (id trip) (date trip) (duration trip) (changes trip) (departure_time trip)
     (arrival_time trip) v (service_days trip) (tariff_result trip)
     (messages trip) (subscription trip) (checksum trip) (checksum_dti trip)
     (ctx_recon trip) (rec_state trip).
End Trip.

(** ** Shared-table resolver ([_parse_common_data], main.py 1058-1119) *)

Module CommonData.
Record t : Type := mk {
  locations : gmap nat Location.t;
  products : gmap nat Product.t;
  polylines : gmap nat Polyline.t;
  operators : list Operator.t;
  remarks : list ServiceMessage.t;
  him_messages : gmap string ServiceMessage.t;
  icons : list Icon.t;
  directions : json;
  draw_styles : list DrawStyle.t;
  layers : json;
  coordinate_systems : json;
  (** The walking-route cache: a dict from route-context token to a
      [Polyline] object, in insertion order. *)
  walking_polylines : list (json * polyline_ref)
}.

(** [CommonData()] *)
Definition empty : t := mk ∅ ∅ ∅ [] [] ∅ [] (JArr []) [] (JArr []) (JArr []) [].

Definition set_walking_polylines (data : t) (v : list (json * polyline_ref)) : t :=
  mk (locations data) (products data) (polylines data) (operators data)
     (remarks data) (him_messages data) (icons data) (directions data)
     (draw_styles data) (layers data) (coordinate_systems data) v.
End CommonData.

(** [enumerate(items)], counting from [i]. *)
Fixpoint enumerate_from {A : Type} (i : nat) (items : list A) : list (nat * A) :=
  match items with
  | [] => []
  | x :: rest => (i, x) :: enumerate_from (S i) rest
  end.

Definition enumerate {A : Type} (items : list A) : list (nat * A) :=
  enumerate_from 0 items.

(** Lines 1063-1065:
    [for i, loc_data in enumerate(common['locL']): data.locations[i] = ...] *)
Definition parse_locations (common : json) : result (gmap nat Location.t) :=
  do present <- py_contains "locL" common;
  if present then
    do locL <- py_getitem common "locL";
    do items <- py_iter locL;
    for_each (fun table ix =>
                do loc <- Location.from_api (snd ix);
                Ok (<[fst ix := loc]> table))
             (enumerate items) ∅
  else Ok ∅.

(** Lines 1068-1070. *)
Definition parse_products (common : json) : result (gmap nat Product.t) :=
  do present <- py_contains "prodL" common;
  if present then
    do prodL <- py_getitem common "prodL";
    do items <- py_iter prodL;
    for_each (fun table ix =>
                do prod <- Product.from_api (snd ix);
                Ok (<[fst ix := prod]> table))
             (enumerate items) ∅
  else Ok ∅.

(** Lines 1073-1086: an entry is stored only [if 'crdEncYX' in poly_data]. *)
Definition parse_polyline_entry (table : gmap nat Polyline.t) (ix : nat * json)
  : result (gmap nat Polyline.t) :=
  do has_geometry <- py_contains "crdEncYX" (snd ix);
  if has_geometry then
    do built <- Polyline.of_poly_data (snd ix);
    Ok (<[fst ix := snd built]> table)
  else Ok table.

Definition parse_polylines (common : json) : result (gmap nat Polyline.t) :=
  do present <- py_contains "polyL" common;
  if present then
    do polyL <- py_getitem common "polyL";
    do items <- py_iter polyL;
    for_each parse_polyline_entry (enumerate items) ∅
  else Ok ∅.

(** The loops that append to a list (operators, remarks, icons, draw
    styles): [if field in common: for x in common[field]: append(parse(x))]. *)
Definition parse_list {A : Type} (parse : json -> result A) (common : json)
    (field : string) : result (list A) :=
  do present <- py_contains field common;
  if present then
    do l <- py_getitem common field;
    do items <- py_iter l;
    map_result parse items
  else Ok [].

Definition _parse_common_data (common : json) : result CommonData.t :=
  do locations <- parse_locations common;
  do products <- parse_products common;
  do polylines <- parse_polylines common;
  do operators <- parse_list Operator.from_api common "opL";
  do remarks <- parse_list ServiceMessage.from_api common "remL";
  do icons <- parse_list Icon.from_api common "icoL";
  do has_dirs <- py_contains "dirL" common;
  do directions <- (if has_dirs then py_getitem common "dirL" else Ok (JArr []));
  do draw_styles <- parse_list DrawStyle.from_api common "lDrawStyleL";
  do layers <- py_get common "layerL" (JArr []);
  do coordinate_systems <- py_get common "crdSysL" (JArr []);
  Ok (CommonData.mk locations products polylines operators remarks ∅ icons
        directions draw_styles layers coordinate_systems []).

(** ** Trip assembler ([_parse_trip], main.py 1121-1253) *)

(** [if 'msgL' in x: for msg_data in x['msgL']: ....append(ServiceMessage.from_api(msg_data))] *)
Definition parse_messages (container : json) : result (list ServiceMessage.t) :=
  parse_list ServiceMessage.from_api container "msgL".

(** Lines 1143-1148. *)
Definition parse_gis (gis_data : json) : result GisInfo.t :=
  match gis_data with
  | JObj d =>
      Ok (GisInfo.mk (dict_get d "dist" (JInt 0)) (dict_get d "durS" (JStr ""))
            (dict_get d "ctx" (JStr "")) (dict_get d "gisPrvr" (JStr "E")) [] None)
  | _ => Raise AttributeError
  end.

(** Lines 1166-1167 and 1195-1196:
    [if 'polyG' in jny_data and 'polyXL' in jny_data['polyG']: ...] *)
Definition parse_polyline_indices (jny_data : json) (j : Journey.t) : result Journey.t :=
  do has_group <- py_contains "polyG" jny_data;
  do has_list <- (if has_group
                  then do polyG <- py_getitem jny_data "polyG"; py_contains "polyXL" polyG
                  else Ok false);
  if has_list then
    do polyG <- py_getitem jny_data "polyG";
    do polyXL <- py_getitem polyG "polyXL";
    Ok (Journey.set_polyline_indices j polyXL)
  else Ok j.

(** The TETA branch, lines 1152-1172: no stop list is read. *)
Definition parse_teta_journey (jny_data : json) : result Journey.t :=
  do j <- Journey.of_jny_data jny_data;
  do j <- parse_polyline_indices jny_data j;
  do msgs <- parse_messages jny_data;
  Ok (Journey.set_messages j msgs).

(** The JNY branch, lines 1176-1201. *)
Definition parse_jny_journey (jny_data : json) : result Journey.t :=
  do j <- Journey.of_jny_data jny_data;
  do stops <- parse_list Stop.from_api jny_data "stopL";
  let j := Journey.set_stops j stops in
  do j <- parse_polyline_indices jny_data j;
  do msgs <- parse_messages jny_data;
  Ok (Journey.set_messages j msgs).

(** Lines 1135-1138:
    [if section.departure and 'dCaS' in section.departure: ...] *)
Definition parse_call_ahead (section : TripSection.t) : result TripSection.t :=
  let departure := TripSection.departure section in
  do has_flag <- (if py_truthy departure then py_contains "dCaS" departure else Ok false);
  if has_flag then
    do flag <- py_getitem departure "dCaS";
    Ok (TripSection.set_booking section flag)
  else Ok section.

(** Lines 1141-1201: the [if / elif / elif] chain on the mode. *)
Definition parse_mode_payload (sec_data : json) (section : TripSection.t)
  : result TripSection.t :=
  let ty := TripSection.type section in
  do is_walk <- (if TransportMode_eqb ty WALK then py_contains "gis" sec_data else Ok false);
  if is_walk then
    do gis_data <- py_getitem sec_data "gis";
    do g <- parse_gis gis_data;
    Ok (TripSection.set_gis section (Some g))
  else
    do is_teta <- (if TransportMode_eqb ty TETA then py_contains "jny" sec_data else Ok false);
    if is_teta then
      do jny_data <- py_getitem sec_data "jny";
      do j <- parse_teta_journey jny_data;
      Ok (TripSection.set_journey section (Some j))
    else
      do is_jny <- (if TransportMode_eqb ty JNY then py_contains "jny" sec_data else Ok false);
      if is_jny then
        do jny_data <- py_getitem sec_data "jny";
        do j <- parse_jny_journey jny_data;
        Ok (TripSection.set_journey section (Some j))
      else Ok section.

(** The body of [for sec_data in conn.get('secL', [])], lines 1128-1208. *)
Definition parse_section (sec_data : json) : result TripSection.t :=
  do raw_type <- py_getitem sec_data "type";
  do ty <- TransportMode_of_value raw_type;
  do dep <- py_get sec_data "dep" JNull;
  do arr <- py_get sec_data "arr" JNull;
  do section <- parse_call_ahead (TripSection.create ty dep arr);
  do section <- parse_mode_payload sec_data section;
  do msgs <- parse_messages sec_data;
  Ok (TripSection.set_messages section msgs).

(** Lines 1211-1213. *)
Definition parse_service_days (conn : json) : result (option ServiceDays.t) :=
  do present <- py_contains "sDays" conn;
  if present then
    do raw <- py_getitem conn "sDays";
    do days <- ServiceDays.from_api raw;
    Ok (Some days)
  else Ok None.

(** Lines 1216-1224: the fare sets of the wire are not expanded. *)
Definition parse_tariff_result (conn : json) : result (option TariffResult.t) :=
  do present <- py_contains "trfRes" conn;
  if present then
    do trf <- py_getitem conn "trfRes";
    do status <- py_get trf "statusCode" (JStr "");
    do ext <- py_get trf "extCont" JNull;
    do msgs <- py_get trf "msgL" (JArr []);
    Ok (Some (TariffResult.mk status [] ext msgs))
  else Ok None.

(** The body of the [try] block, lines 1124-1248. *)
Definition _parse_trip_try (conn : json) : result Trip.t :=
  do secL <- py_get conn "secL" (JArr []);
  do sec_items <- py_iter secL;
  do sections <- map_result parse_section sec_items;
  do service_days <- parse_service_days conn;
  do tariff_result <- parse_tariff_result conn;
  do messages <- parse_messages conn;
  do cid <- py_get conn "cid" (JStr "");
  do date <- py_get conn "date" (JStr "");
  do dur <- py_get conn "dur" (JStr "");
  do chg <- py_get conn "chg" (JInt 0);
  do dep <- py_get conn "dep" (JObj []);
  do departure_time <- py_get dep "dTimeS" (JStr "");
  do arr <- py_get conn "arr" (JObj []);
  do arrival_time <- py_get arr "aTimeS" (JStr "");
  do subscr <- py_get conn "conSubscr" (JStr "N");
  do cksum <- py_get conn "cksum" JNull;
  do cksum_dti <- py_get conn "cksumDti" JNull;
  do ctx_recon <- py_get conn "ctxRecon" JNull;
  do rec_state <- py_get conn "recState" (JStr "U");
  Ok (Trip.mk cid date dur chg departure_time arrival_time sections service_days
        tariff_result messages subscr cksum cksum_dti ctx_recon rec_state).

(** [_parse_trip]: [except Exception: return None].  The source never reads
    its [common_data] argument. *)
Definition _parse_trip (conn : json) (common_data : CommonData.t) : option Trip.t :=
  match _parse_trip_try conn with
  | Ok trip => Some trip
  | Raise _ => None
  end.

(** The batch loop of [scroll_trips] (lines 978-981), which is also the loop
    of [plan_trip] (lines 801-804) without the walking fetch:
    [trip = self._parse_trip(conn, common_data)], then [if trip:
    trips.append(trip)].  A [Trip] object is always truthy. *)
Fixpoint parse_connections (conns : list json) (common_data : CommonData.t)
    (trips : list Trip.t) : list Trip.t :=
  match conns with
  | [] => trips
  | conn :: rest =>
      match _parse_trip conn common_data with
      | Some trip => parse_connections rest common_data (trips ++ [trip])
      | None => parse_connections rest common_data trips
      end
  end.

(** ** Walking-route details ([get_walking_details], main.py 862-917) *)

(** The loop state of [get_walking_details]:
    [(coordinates, segments, polyline)]. *)
Definition walking_details : Type :=
  (list Coordinate.t * list WalkingSegment.t * option Polyline.t)%type.

(** Lines 894-907: the body of [for poly_data in res['common']['polyL']]. *)
Definition walking_polyline_entry (st : walking_details) (poly_data : json)
  : result walking_details :=
  let '(coordinates, segments, polyline) := st in
  do has_geometry <- py_contains "crdEncYX" poly_data;
  if has_geometry then
    do built <- Polyline.of_poly_data poly_data;
    Ok (coordinates ++ fst built, segments, Some (snd built))
  else Ok st.

(** Lines 912-915: the body of [for sec in con.get('secL', [])]. *)
Definition walking_section_segments (st : walking_details) (sec : json)
  : result walking_details :=
  let '(coordinates, segments, polyline) := st in
  do has_gis <- py_contains "gis" sec;
  do has_segments <- (if has_gis
                      then do gis <- py_getitem sec "gis"; py_contains "segL" gis
                      else Ok false);
  if has_segments then
    do gis <- py_getitem sec "gis";
    do segL <- py_getitem gis "segL";
    do items <- py_iter segL;
    do parsed <- map_result WalkingSegment.from_api items;
    Ok (coordinates, segments ++ parsed, polyline)
  else Ok st.

(** Lines 911-915: the body of [for con in res['conL']]. *)
Definition walking_connection (st : walking_details) (con : json)
  : result walking_details :=
  do secL <- py_get con "secL" (JArr []);
  do secs <- py_iter secL;
  for_each walking_section_segments secs st.

(** Lines 889-915: the body of [for svc in response['svcResL']]. *)
Definition walking_service (st : walking_details) (svc : json) : result walking_details :=
  do meth <- py_get svc "meth" JNull;
  do selected <- (if is_str "GisRoute" meth then py_contains "res" svc else Ok false);
  if selected then
    do res <- py_getitem svc "res";
    do has_common <- py_contains "common" res;
    do has_polyL <- (if has_common
                     then do common <- py_getitem res "common"; py_contains "polyL" common
                     else Ok false);
    do st <- (if has_polyL then
                do common <- py_getitem res "common";
                do polyL <- py_getitem common "polyL";
                do items <- py_iter polyL;
                for_each walking_polyline_entry items st
              else Ok st);
    do has_conL <- py_contains "conL" res;
    if has_conL then
      do conL <- py_getitem res "conL";
      do connections <- py_iter conL;
      for_each walking_connection connections st
    else Ok st
  else Ok st.

(** Lines 881-917, on the value [_make_request] returned ([None] after a
    transport or JSON failure). *)
Definition walking_details_of_response (response : option json) : result walking_details :=
  match response with
  | None => Ok ([], [], None)
  | Some r =>
      if negb (py_truthy r) then Ok ([], [], None)
      else
        do has_services <- py_contains "svcResL" r;
        if negb has_services then Ok ([], [], None)
        else
          do svcResL <- py_getitem r "svcResL";
          do svcs <- py_iter svcResL;
          for_each walking_service svcs ([], [], None)
  end.

(** ** The walking-route cache and the store of [Polyline] objects *)

(** Python dict keys: lists and dicts are unhashable; numbers and booleans
    compare by value, strings by content. *)
Definition hashable (k : json) : bool :=
  match k with
  | JArr _ | JObj _ => false
  | _ => true
  end.

Definition key_number (k : json) : option Q :=
  match k with
  | JBool b => Some (inject_Z (if b then 1 else 0))
  | JInt n => Some (inject_Z n)
  | JFloat q => Some q
  | _ => None
  end.

Definition py_key_eq (a b : json) : bool :=
  match a, b with
  | JStr s, JStr t => String.eqb s t
  | JNull, JNull => true
  | _, _ =>
      match key_number a, key_number b with
      | Some x, Some y => Qeq_bool x y
      | _, _ => false
      end
  end.

Fixpoint cache_lookup (k : json) (cache : list (json * polyline_ref)) : option polyline_ref :=
  match cache with
  | [] => None
  | (k', p) :: rest => if py_key_eq k k' then Some p else cache_lookup k rest
  end.

(** [cache[k] = p]: replaces the value of an existing key, appends a new one. *)
Fixpoint cache_store (k : json) (p : polyline_ref) (cache : list (json * polyline_ref))
  : list (json * polyline_ref) :=
  match cache with
  | [] => [(k, p)]
  | (k', p') :: rest =>
      if py_key_eq k k' then (k', p) :: rest else (k', p') :: cache_store k p rest
  end.

(** What the client has done to the outside and to the object store:
    [request_counter] is [self._request_counter]; [gis_requests] records, in
    order, the [gisCtx] of every GisRoute request sent (the log of fetches);
    [heap] holds the [Polyline] objects returned by [get_walking_details],
    an object's address being its position. *)
Record world : Type := mk_world {
  request_counter : nat;
  gis_requests : list json;
  heap : list Polyline.t
}.

Section Transport.

(** The transport collaborator: [send n gis_ctx] is what [_make_request]
    returns for the client's [n]-th request, a GisRoute request for
    [gis_ctx]; [None] is a transport or JSON failure. *)
Variable send : nat -> json -> option json.

(** [get_walking_details]: one request, then the parse of its response.  The
    returned [Polyline] is a new object; it is given the next free address
    of the store. *)
Definition get_walking_details (gis_ctx : json) (w : world)
  : result (list Coordinate.t * list WalkingSegment.t * option polyline_ref * world) :=
  let counter := S (request_counter w) in
  let response := send counter gis_ctx in
  let requests := gis_requests w ++ [gis_ctx] in
  do details <- walking_details_of_response response;
  let '(coordinates, segments, polyline) := details in
  match polyline with
  | Some p =>
      Ok (coordinates, segments, Some (length (heap w)),
          mk_world counter requests (heap w ++ [p]))
  | None => Ok (coordinates, segments, None, mk_world counter requests (heap w))
  end.

(** ** The walking fill of [plan_trip] (main.py 806-820) *)

(** The body of [for section in trip.sections], lines 809-820.  A [GisInfo]
    and a [Polyline] object are always truthy, so [section.gis] and
    [if polyline:] test for [None]. *)
Definition fetch_walking_section (section : TripSection.t)
    (common_data : CommonData.t) (w : world)
  : result (TripSection.t * CommonData.t * world) :=
  if TransportMode_eqb (TripSection.type section) WALK then
    match TripSection.gis section with
    | Some g =>
        let ctx := GisInfo.ctx g in
        if py_truthy ctx then
          if hashable ctx then
            match cache_lookup ctx (CommonData.walking_polylines common_data) with
            | None =>
                do fetched <- get_walking_details ctx w;
                let '(coords, segments, polyline, w') := fetched in
                match polyline with
                | Some p =>
                    let cache := cache_store ctx p (CommonData.walking_polylines common_data) in
                    let g' := GisInfo.set_segments (GisInfo.set_polyline g (Some p)) segments in
                    Ok (TripSection.set_gis section (Some g'),
                        CommonData.set_walking_polylines common_data cache, w')
                | None => Ok (section, common_data, w')
                end
            | Some p =>
                Ok (TripSection.set_gis section (Some (GisInfo.set_polyline g (Some p))),
                    common_data, w)
            end
          else Raise TypeError
        else Ok (section, common_data, w)
    | None => Ok (section, common_data, w)
    end
  else Ok (section, common_data, w).

(** [for section in trip.sections], line 808. *)
Fixpoint fetch_walking_sections (sections : list TripSection.t)
    (common_data : CommonData.t) (w : world)
  : result (list TripSection.t * CommonData.t * world) :=
  match sections with
  | [] => Ok ([], common_data, w)
  | section :: rest =>
      do first <- fetch_walking_section section common_data w;
      let '(section', common_data', w') := first in
      do others <- fetch_walking_sections rest common_data' w';
      let '(rest', common_data'', w'') := others in
      Ok (section' :: rest', common_data'', w'')
  end.

(** The fill of one trip (what the specification calls
    [ensureWalkingGeometry]): lines 807-820. *)
Definition fetch_walking_trip (trip : Trip.t) (common_data : CommonData.t) (w : world)
  : result (Trip.t * CommonData.t * world) :=
  do filled <- fetch_walking_sections (Trip.sections trip) common_data w;
  let '(sections, common_data', w') := filled in
  Ok (Trip.set_sections trip sections, common_data', w').

(** [for conn in res.get('outConL', [])], lines 801-820, with
    [fetching = self.auto_fetch_walking and get_polylines]. *)
Fixpoint plan_trip_connections (fetching : bool) (conns : list json)
    (trips : list Trip.t) (common_data : CommonData.t) (w : world)
  : result (list Trip.t * CommonData.t * world) :=
  match conns with
  | [] => Ok (trips, common_data, w)
  | conn :: rest =>
      match _parse_trip conn common_data with
      | Some trip =>
          do filled <- (if fetching then fetch_walking_trip trip common_data w
                        else Ok (trip, common_data, w));
          let '(trip', common_data', w') := filled in
          plan_trip_connections fetching rest (trips ++ [trip']) common_data' w'
      | None => plan_trip_connections fetching rest trips common_data w
      end
  end.

(** The body of [for svc in response['svcResL']], lines 792-820.  The
    bookkeeping of [full_response] (lines 794, 823-828) cannot raise and is
    not modelled. *)
Definition plan_trip_service (fetching : bool)
    (st : list Trip.t * CommonData.t * world) (svc : json)
  : result (list Trip.t * CommonData.t * world) :=
  let '(trips, common_data, w) := st in
  do meth <- py_get svc "meth" JNull;
  do selected <- (if is_str "TripSearch" meth then py_contains "res" svc else Ok false);
  if selected then
    do res <- py_getitem svc "res";
    do has_common <- py_contains "common" res;
    do common_data <- (if has_common
                       then do common <- py_getitem res "common"; _parse_common_data common
                       else Ok common_data);
    do outConL <- py_get res "outConL" (JArr []);
    do conns <- py_iter outConL;
    plan_trip_connections fetching conns trips common_data w
  else Ok st.

(** [plan_trip] from the arrival of the TripSearch response on (lines
    784-830): the trips and the common data it returns. *)
Definition plan_trip (auto_fetch_walking get_polylines : bool)
    (response : option json) (w : world)
  : result (list Trip.t * CommonData.t * world) :=
  match response with
  | None => Ok ([], CommonData.empty, w)
  | Some r =>
      if negb (py_truthy r) then Ok ([], CommonData.empty, w)
      else
        do has_services <- py_contains "svcResL" r;
        if negb has_services then Ok ([], CommonData.empty, w)
        else
          do svcResL <- py_getitem r "svcResL";
          do svcs <- py_iter svcResL;
          for_each (plan_trip_service (auto_fetch_walking && get_polylines)) svcs
            ([], CommonData.empty, w)
  end.

End Transport.

(** ** Predicates used in the statements *)

(** The mode payload and the section messages leave the booking fields, the
    mode and the endpoint records as they are. *)
Definition same_booking (s s' : TripSection.t) : Prop :=
  TripSection.type s' = TripSection.type s /\
  TripSection.departure s' = TripSection.departure s /\
  TripSection.call_ahead_service s' = TripSection.call_ahead_service s /\
  TripSection.booking_required s' = TripSection.booking_required s /\
  TripSection.booking_deadline_minutes s' = TripSection.booking_deadline_minutes s.

(** The connection assembles to a trip. *)
Definition assembles (conn : json) : bool :=
  match _parse_trip conn CommonData.empty with
  | Some _ => true
  | None => false
  end.

(** The guard of line 809: a WALK section with a [GisInfo] and a truthy
    route-context token. *)
Definition has_token (s : TripSection.t) : bool :=
  TransportMode_eqb (TripSection.type s) WALK &&
  match TripSection.gis s with
  | Some g => py_truthy (GisInfo.ctx g)
  | None => false
  end.

(** The four ways the body of the fill loop ends without raising, as a step
    relation on (section, common data, world). *)
Inductive fill_step (send : nat -> json -> option json)
    (s : TripSection.t) (common_data : CommonData.t) (w : world)
  : TripSection.t -> CommonData.t -> world -> Prop :=
  | fill_skip :
      has_token s = false ->
      fill_step send s common_data w s common_data w
  | fill_hit (g : GisInfo.t) (p : polyline_ref) :
      has_token s = true ->
      TripSection.gis s = Some g ->
      cache_lookup (GisInfo.ctx g) (CommonData.walking_polylines common_data) = Some p ->
      fill_step send s common_data w
        (TripSection.set_gis s (Some (GisInfo.set_polyline g (Some p))))
        common_data w
  | fill_failed (g : GisInfo.t) (coords : list Coordinate.t)
      (segs : list WalkingSegment.t) :
      has_token s = true ->
      TripSection.gis s = Some g ->
      cache_lookup (GisInfo.ctx g) (CommonData.walking_polylines common_data) = None ->
      walking_details_of_response (send (S (request_counter w)) (GisInfo.ctx g))
      = Ok (coords, segs, None) ->
      fill_step send s common_data w s common_data
        (mk_world (S (request_counter w)) (gis_requests w ++ [GisInfo.ctx g]) (heap w))
  | fill_fetched (g : GisInfo.t) (coords : list Coordinate.t)
      (segs : list WalkingSegment.t) (pl : Polyline.t) :
      has_token s = true ->
      TripSection.gis s = Some g ->
      cache_lookup (GisInfo.ctx g) (CommonData.walking_polylines common_data) = None ->
      walking_details_of_response (send (S (request_counter w)) (GisInfo.ctx g))
      = Ok (coords, segs, Some pl) ->
      fill_step send s common_data w
        (TripSection.set_gis s
           (Some (GisInfo.set_segments
                    (GisInfo.set_polyline g (Some (length (heap w)))) segs)))
        (CommonData.set_walking_polylines common_data
           (cache_store (GisInfo.ctx g) (length (heap w))
              (CommonData.walking_polylines common_data)))
        (mk_world (S (request_counter w)) (gis_requests w ++ [GisInfo.ctx g])
           (heap w ++ [pl])).

(** [s'] is [s] up to what the walking fill may change: the attached
    polyline and segments of its [GisInfo]. *)
Definition same_but_walking (s s' : TripSection.t) : Prop :=
  s' = s \/
  exists g g',
    TripSection.gis s = Some g /\
    s' = TripSection.set_gis s (Some g') /\
    GisInfo.distance g' = GisInfo.distance g /\
    GisInfo.duration_seconds g' = GisInfo.duration_seconds g /\
    GisInfo.ctx g' = GisInfo.ctx g /\
    GisInfo.provider g' = GisInfo.provider g.

(** [filled] is the trip [parsed] after the walking fill. *)
Definition filled_from (parsed filled : Trip.t) : Prop :=
  filled = Trip.set_sections parsed (Trip.sections filled) /\
  Forall2 same_but_walking (Trip.sections parsed) (Trip.sections filled).

(** [walks tok s]: [s] is a WALK section whose [GisInfo] carries the
    route-context token [tok]. *)
Definition walks (tok : string) (s : TripSection.t) : bool :=
  TransportMode_eqb (TripSection.type s) WALK &&
  match TripSection.gis s with
  | Some g => is_str tok (GisInfo.ctx g)
  | None => false
  end.

(** The [Polyline] object attached to a section, if any. *)
Definition attached (s : TripSection.t) : option polyline_ref :=
  match TripSection.gis s with
  | Some g => GisInfo.polyline g
  | None => None
  end.

(** Every WALK section carrying [tok] among [sections] is attached to the
    object at address [r]. *)
Definition all_attached (tok : string) (r : polyline_ref) (sections : list TripSection.t)
  : Prop :=
  Forall (fun s => walks tok s = true -> attached s = Some r) sections.

(** The number of walking-details fetches issued for the token [tok]. *)
Fixpoint count_fetches (tok : string) (log : list json) : nat :=
  match log with
  | [] => O
  | k :: rest => ((if is_str tok k then 1 else 0) + count_fetches tok rest)%nat
  end.

(** The connection assembles to a trip with a WALK section carrying [tok]. *)
Definition conn_walks (tok : string) (conn : json) : bool :=
  match _parse_trip conn CommonData.empty with
  | Some trip => existsb (walks tok) (Trip.sections trip)
  | None => false
  end.

(** The store only grows: addresses stay valid. *)
Definition heap_grows (w w' : world) : Prop :=
  exists extra, heap w' = heap w ++ extra.

(** [p] is a polyline that a walking-details fetch for [tok] returns. *)
Definition fetched (send : nat -> json -> option json) (tok : string) (p : Polyline.t)
  : Prop :=
  exists n coords segs,
    walking_details_of_response (send n (JStr tok)) = Ok (coords, segs, Some p).

(** Every walking-details fetch for [tok] returns a polyline. *)
Definition token_served (send : nat -> json -> option json) (tok : string) : Prop :=
  forall n, exists coords segs p,
    walking_details_of_response (send n (JStr tok)) = Ok (coords, segs, Some p).

(** What a stretch of the fill does about one token [tok], from
    [(common_data, w)] to [(common_data', w')]: [walked] tells whether a WALK
    section carrying [tok] was met, and [attached_to r] says that the sections
    met that carry [tok] are attached to address [r].
    - If [tok] was cached at [r], it still is, no fetch for [tok] was issued,
      and the sections are attached to [r].
    - If it was not and a section carrying it was met, exactly one fetch for
      [tok] was issued, its polyline sits at a fresh address [r] of the store,
      the cache maps [tok] to [r], and the sections are attached to [r].
    - Otherwise nothing changed for [tok]. *)
Definition token_outcome (send : nat -> json -> option json) (tok : string)
    (walked : bool) (attached_to : polyline_ref -> Prop)
    (common_data : CommonData.t) (w : world)
    (common_data' : CommonData.t) (w' : world) : Prop :=
  (walked = false -> forall r, attached_to r) /\
  match cache_lookup (JStr tok) (CommonData.walking_polylines common_data) with
  | Some r =>
      cache_lookup (JStr tok) (CommonData.walking_polylines common_data') = Some r /\
      count_fetches tok (gis_requests w') = count_fetches tok (gis_requests w) /\
      attached_to r
  | None =>
      if walked then
        exists r p,
          cache_lookup (JStr tok) (CommonData.walking_polylines common_data') = Some r /\
          count_fetches tok (gis_requests w') = S (count_fetches tok (gis_requests w)) /\
          attached_to r /\
          heap w' !! r = Some p /\
          fetched send tok p
      else
        cache_lookup (JStr tok) (CommonData.walking_polylines common_data') = None /\
        count_fetches tok (gis_requests w') = count_fetches tok (gis_requests w)
  end.

(** ** Sample wire fragments *)

(** A dial-a-ride section whose departure record carries the call-ahead
    flag and whose journey payload carries a stop list. *)
Definition sample_teta_section : json :=
  JObj [("type", JStr "TETA");
        ("dep", JObj [("locX", JInt 0); ("dTimeS", JStr "081500"); ("dCaS", JBool true)]);
        ("arr", JObj [("locX", JInt 1); ("aTimeS", JStr "084000")]);
        ("jny", JObj [("jid", JStr "1|77|0"); ("prodX", JInt 0);
                      ("stopL", JArr [JObj [("locX", JInt 0)]; JObj [("locX", JInt 1)]])])].

(** A scheduled section whose departure record has the key [dCaS] with the
    value [false]. *)
Definition sample_jny_section : json :=
  JObj [("type", JStr "JNY");
        ("dep", JObj [("locX", JInt 1); ("dCaS", JBool false)]);
        ("arr", JObj [("locX", JInt 2)]);
        ("jny", JObj [("jid", JStr "1|12|0");
                      ("stopL", JArr [JObj [("locX", JInt 1)]; JObj [("locX", JInt 2)]])])].

Definition sample_walk_section (ctx : string) : json :=
  JObj [("type", JStr "WALK");
        ("dep", JObj [("locX", JInt 2)]);
        ("arr", JObj [("locX", JInt 3)]);
        ("gis", JObj [("dist", JInt 250); ("durS", JStr "000400"); ("ctx", JStr ctx)])].

(** A section record without the key [type]. *)
Definition sample_untyped_section : json :=
  JObj [("dep", JObj [("locX", JInt 0)]); ("arr", JObj [("locX", JInt 1)])].

Definition sample_connection (cid : string) (sections : list json) : json :=
  JObj [("cid", JStr cid); ("dur", JStr "003000"); ("chg", JInt 1);
        ("secL", JArr sections)].

(** A common block whose second polyline entry carries only drawing-style
    metadata. *)
Definition sample_common : json :=
  JObj [("locL", JArr [JObj [("lid", JStr "A=1@L=8600626@"); ("name", JStr "Kobenhavn H");
                             ("type", JStr "S");
                             ("crd", JObj [("x", JInt 12564562); ("y", JInt 55672738)])];
                       JObj [("lid", JStr "A=1@L=8600646@"); ("name", JStr "Norreport St.");
                             ("type", JStr "S")]]);
        ("prodL", JArr [JObj [("name", JStr "Bus 5C"); ("cls", JInt 32);
                              ("prodCtx", JObj [("line", JStr "5C")])]]);
        ("polyL", JArr [JObj [("crdEncYX", JStr "kuzrIqyjkA"); ("lDrawStyleX", JInt 0)];
                        JObj [("lDrawStyleX", JInt 1)];
                        JObj [("crdEncYX", JStr "??")]])].

(** A common block with a single polyline entry, which has no geometry. *)
Definition sample_style_only_common : json :=
  JObj [("polyL", JArr [JObj [("lDrawStyleX", JInt 1)]])].

(** A common block whose first polyline entry has no geometry and whose
    second has one. *)
Definition sample_gap_common : json :=
  JObj [("polyL", JArr [JObj []; JObj [("crdEncYX", JStr "??")]])].

(** A transport that is down: every request fails. *)
Definition offline (n : nat) (gis_ctx : json) : option json := None.

(** A GisRoute response with one polyline and two turn-by-turn segments. *)
Definition sample_gis_response : json :=
  JObj [("svcResL", JArr [JObj [
    ("meth", JStr "GisRoute");
    ("res", JObj [
      ("common", JObj [("polyL", JArr [JObj [("crdEncYX", JStr "kuzrIqyjkAmCzW")]])]);
      ("conL", JArr [JObj [("secL", JArr [JObj [("gis", JObj [("segL", JArr [
         JObj [("manTx", JStr "Ga mod nord"); ("dist", JInt 120)];
         JObj [("manTx", JStr "Drej til hojre"); ("dist", JInt 130)]])])]])]])])]])].

(** A transport that answers every GisRoute request with the sample. *)
Definition online (n : nat) (gis_ctx : json) : option json := Some sample_gis_response.

Definition initial_world : world := mk_world 1 [] [].

(** Two connections whose WALK sections share the token ["ctx-a"]. *)
Definition sample_shared_walks : list json :=
  [sample_connection "C-0" [sample_walk_section "ctx-a"; sample_jny_section];
   sample_connection "C-1" [sample_jny_section; sample_walk_section "ctx-a"]].

(* ===================================================================== *)
(** * Part I, continued. The rest of [main.py] *)
(* ===================================================================== *)

(** ** The codec: encoding, for the round trip *)

(** Modelled from the spec: the encoder, which the repository does not
    contain ("delta, zig-zag encode, emit 5-bit groups with continuation
    bit, offset by +63").  It serves to show which outputs the decoder of
    the source reaches. *)
Definition zigzag_encode (d : Z) : Z := if d <? 0 then - 2 * d - 1 else 2 * d.

(** The groups of a magnitude, low group first, each but the last with the
    continuation bit. *)
Fixpoint encode_groups (fuel : nat) (m : Z) : list Z :=
  match fuel with
  | O => [m + 63]
  | S fuel' =>
      if m <? 32 then [m + 63]
      else (m mod 32 + 32 + 63) :: encode_groups fuel' (m / 32)
  end.

Definition encode_delta (d : Z) : list Z :=
  encode_groups (Z.to_nat (zigzag_encode d)) (zigzag_encode d).

(** The points are integers in units of 1e-5 degree. *)
Fixpoint encode_from (lat lon : Z) (points : list (Z * Z)) : list Z :=
  match points with
  | [] => []
  | (lat', lon') :: rest =>
      encode_delta (lat' - lat) ++ encode_delta (lon' - lon) ++ encode_from lat' lon' rest
  end.

Definition encode_polyline (points : list (Z * Z)) : list Z := encode_from 0 0 points.

(** A point of a path moved by [origin], in units of 1e-5 degree. *)
Definition translate (origin p : Z * Z) : Z * Z :=
  (fst p + fst origin, snd p + snd origin).

(** The last point of a path; the origin when there is none. *)
Definition last_point (path : list (Z * Z)) : Z * Z := List.last path (0, 0).

(** The sum of the magnitudes of a list of deltas. *)
Definition magnitude (deltas : list Z) : Z :=
  fold_right (fun d total => Z.abs d + total) 0 deltas.

(** Both coordinates of the point are below [bound] in magnitude. *)
Definition within (bound : Z) (p : Z * Z) : Prop :=
  Z.abs (fst p) < bound /\ Z.abs (snd p) < bound.

(** ** Predicates for the further statements *)

(** The value is a JSON object. *)
Definition is_dict (v : json) : bool :=
  match v with
  | JObj _ => true
  | _ => false
  end.

(** A common block whose location list has an entry that is not an object. *)
Definition sample_broken_common : json :=
  JObj [("locL", JArr [JObj [("lid", JStr "A=1@L=8600626@")]; JStr "8600646"]);
        ("polyL", JArr [JObj [("crdEncYX", JStr "kuzrIqyjkA")]])].

(** A connection with a section of a mode the client does not know. *)
Definition sample_unknown_mode_connection : json :=
  sample_connection "C-9"
    [sample_jny_section;
     JObj [("type", JStr "FERRY"); ("dep", JObj [("locX", JInt 2)]);
           ("arr", JObj [("locX", JInt 3)])]].

(** The polyline attached to a section, when there is one, is the cache's
    object for the section's token. *)
Definition attached_from_cache (common_data : CommonData.t) (s : TripSection.t) : Prop :=
  forall g r,
    TripSection.gis s = Some g -> GisInfo.polyline g = Some r ->
    cache_lookup (GisInfo.ctx g) (CommonData.walking_polylines common_data) = Some r.

(** Every cached address is an object of the store, and no two cache entries
    share an address. *)
Definition cache_valid (common_data : CommonData.t) (w : world) : Prop :=
  Forall (fun kr => (snd kr < length (heap w))%nat)
    (CommonData.walking_polylines common_data) /\
  NoDup (map snd (CommonData.walking_polylines common_data)).

(** A GisRoute response with two polyline entries. *)
Definition sample_two_polylines_response : json :=
  JObj [("svcResL", JArr [JObj [
    ("meth", JStr "GisRoute");
    ("res", JObj [
      ("common", JObj [("polyL", JArr [JObj [("crdEncYX", JStr "kuzrIqyjkA")];
                                       JObj [("crdEncYX", JStr "mCzWoD`Y")]])])])]])].

(** The loop state of [get_walking_details] after the polylines [built]
    were built, in this order: the coordinates are theirs, concatenated, and
    the polyline is the last of them. *)
Definition walking_trace (st : walking_details) (built : list Polyline.t) : Prop :=
  fst (fst st) = concat (map Polyline.coordinates built) /\
  snd st = last built.

(** The number of sections that pass the guard of the walking fill. *)
Definition token_sections (trips : list Trip.t) : nat :=
  length (List.filter has_token (concat (map Trip.sections trips))).

(** Where a stretch of the fill leaves the outside, for the sections it
    went through: the requests sent are appended to the log, the request
    counter advances by one per request, there are no more requests than
    sections passing the guard of line 809, and each request carries the
    token of such a section. *)
Definition requests_for (sections : list TripSection.t) (w w' : world) : Prop :=
  exists sent,
    gis_requests w' = gis_requests w ++ sent /\
    request_counter w' = (request_counter w + length sent)%nat /\
    (length sent <= length (List.filter has_token sections))%nat /\
    Forall (fun k => exists s g,
              In s sections /\ has_token s = true /\
              TripSection.gis s = Some g /\ GisInfo.ctx g = k) sent.

(** The sections of all the trips, in order. *)
Definition all_sections (trips : list Trip.t) : list TripSection.t :=
  concat (map Trip.sections trips).

(** The two common data differ at most in the walking-route cache. *)
Definition same_tables (c c' : CommonData.t) : Prop :=
  c' = CommonData.set_walking_polylines c (CommonData.walking_polylines c').

(** ** [scroll_trips] (main.py 950-983) *)

(** The body of [for svc in response['svcResL']], lines 972-981. *)
Definition scroll_trips_service (st : list Trip.t * CommonData.t) (svc : json)
  : result (list Trip.t * CommonData.t) :=
  let '(trips, common_data) := st in
  do meth <- py_get svc "meth" JNull;
  do selected <- (if is_str "TripSearch" meth then py_contains "res" svc else Ok false);
  if selected then
    do res <- py_getitem svc "res";
    do has_common <- py_contains "common" res;
    do common_data <- (if has_common
                       then do common <- py_getitem res "common"; _parse_common_data common
                       else Ok common_data);
    do outConL <- py_get res "outConL" (JArr []);
    do conns <- py_iter outConL;
    Ok (parse_connections conns common_data trips, common_data)
  else Ok st.

(** [scroll_trips] from the arrival of the response on (lines 965-983): the
    trips and the common data it returns. *)
Definition scroll_trips (response : option json) : result (list Trip.t * CommonData.t) :=
  match response with
  | None => Ok ([], CommonData.empty)
  | Some r =>
      if negb (py_truthy r) then Ok ([], CommonData.empty)
      else
        do has_services <- py_contains "svcResL" r;
        if negb has_services then Ok ([], CommonData.empty)
        else
          do svcResL <- py_getitem r "svcResL";
          do svcs <- py_iter svcResL;
          for_each scroll_trips_service svcs ([], CommonData.empty)
  end.

(** A TripSearch response with a common block and two connections whose
    WALK sections share a token. *)
Definition sample_trip_search_response : json :=
  JObj [("svcResL", JArr [JObj [
    ("meth", JStr "TripSearch");
    ("res", JObj [("common", sample_common); ("outConL", JArr sample_shared_walks)])]])].

(** ** Predicates and samples for the batch under the walking fetch *)

(** The token of the section, when it has one, can be a dictionary key. *)
Definition section_hashable (s : TripSection.t) : bool :=
  match TripSection.gis s with
  | Some g => hashable (GisInfo.ctx g)
  | None => true
  end.

(** Every section of the trip the connection assembles to has a token that
    can be a dictionary key. *)
Definition conn_hashable (conn : json) : bool :=
  match _parse_trip conn CommonData.empty with
  | Some trip => forallb section_hashable (Trip.sections trip)
  | None => true
  end.

(** [get_walking_details] parses every answer of the transport without
    raising. *)
Definition transport_parses (send : nat -> json -> option json) : Prop :=
  forall n gis_ctx, exists details,
    walking_details_of_response (send n gis_ctx) = Ok details.

(** A WALK section whose route-context token is a list. *)
Definition sample_unhashable_walk_section : json :=
  JObj [("type", JStr "WALK");
        ("dep", JObj [("locX", JInt 2)]);
        ("arr", JObj [("locX", JInt 3)]);
        ("gis", JObj [("dist", JInt 250); ("ctx", JArr [JStr "ctx-a"])])].

(** A connection without section type, a dial-a-ride connection, and a
    connection whose WALK section has a list as token. *)
Definition sample_batch_with_list_token : list json :=
  [sample_connection "C-1" [sample_jny_section; sample_untyped_section];
   sample_connection "C-0" [sample_teta_section];
   sample_connection "C-3" [sample_unhashable_walk_section]].

(** A GisRoute response without geometry, whose polyline list holds a
    [null]. *)
Definition sample_null_polyline_response : json :=
  JObj [("svcResL", JArr [JObj [
    ("meth", JStr "GisRoute");
    ("res", JObj [("common", JObj [("polyL", JArr [JNull])])])]])].

(** A transport that answers every GisRoute request with it. *)
Definition malformed (n : nat) (gis_ctx : json) : option json :=
  Some sample_null_polyline_response.

(** ** The polyline entries [get_walking_details] visits *)

(** The entries of [res['common']['polyL']] of one service, under the guards
    of lines 889 and 893; none when a guard is false. *)
Definition service_polyline_entries (svc : json) : result (list json) :=
  do meth <- py_get svc "meth" JNull;
  do selected <- (if is_str "GisRoute" meth then py_contains "res" svc else Ok false);
  if selected then
    do res <- py_getitem svc "res";
    do has_common <- py_contains "common" res;
    do has_polyL <- (if has_common
                     then do common <- py_getitem res "common"; py_contains "polyL" common
                     else Ok false);
    if has_polyL then
      do common <- py_getitem res "common";
      do polyL <- py_getitem common "polyL";
      py_iter polyL
    else Ok []
  else Ok [].

(** The guard of line 895. *)
Definition has_geometry (poly_data : json) : bool :=
  match py_contains "crdEncYX" poly_data with
  | Ok present => present
  | Raise _ => false
  end.

(** The services of a response, as line 888 iterates them; none when the
    early return of line 881 is taken. *)
Definition response_services (response : option json) : result (list json) :=
  match response with
  | None => Ok []
  | Some r =>
      if negb (py_truthy r) then Ok []
      else
        do has_services <- py_contains "svcResL" r;
        if negb has_services then Ok []
        else do svcResL <- py_getitem r "svcResL"; py_iter svcResL
  end.

(** [p] is the [Polyline] built from the entry [poly_data]. *)
Definition built_from (poly_data : json) (p : Polyline.t) : Prop :=
  exists coordinates, Polyline.of_poly_data poly_data = Ok (coordinates, p).

(* ===================================================================== *)
(** * Part II. Theorems *)
(* ===================================================================== *)

(** ** Python floats: the integers that convert *)

Lemma digits2_pos_log2 (p : positive) : Zpos (digits2_pos p) = Z.log2 (Zpos p) + 1.
Proof.
  induction p as [p IH | p IH |]; [| | reflexivity].
  - cbn [digits2_pos]. rewrite Pos2Z.inj_succ, IH.
    change (Z.log2 (Zpos p~1)) with (Zpos (Pos.size p)).
    destruct p; simpl in *; lia.
  - cbn [digits2_pos]. rewrite Pos2Z.inj_succ, IH.
    change (Z.log2 (Zpos p~0)) with (Zpos (Pos.size p)).
    destruct p; simpl in *; lia.
Qed.

Lemma Zdigits2_bound (m d : Z) : 0 <= d -> 0 <= m < 2 ^ d -> Zdigits2 m <= d.
Proof.
  intros Hd Hm. destruct m as [|p|p]; [simpl; lia | | lia].
  cbn [Zdigits2]. rewrite digits2_pos_log2.
  assert (Z.log2 (Zpos p) < d) by (apply Z.log2_lt_pow2; lia). lia.
Qed.

Lemma Zdigits2_lt (p : positive) : Zpos p < 2 ^ Zdigits2 (Zpos p).
Proof.
  cbn [Zdigits2]. rewrite digits2_pos_log2.
  replace (Z.log2 (Zpos p) + 1) with (Z.succ (Z.log2 (Zpos p))) by lia.
  apply Z.log2_spec. lia.
Qed.

Lemma shr_1_half (mrs : shr_record) :
  0 <= shr_m mrs -> shr_m (shr_1 mrs) = shr_m mrs / 2.
Proof.
  destruct mrs as [m r s]. cbn [shr_m]. intros Hm.
  destruct m as [|[p|p|]|p]; cbn [shr_1 shr_m]; try lia; try reflexivity.
  - rewrite Pos2Z.inj_xI. Z.div_mod_to_equations. lia.
  - rewrite Pos2Z.inj_xO. Z.div_mod_to_equations. lia.
Qed.

Lemma pow2_xO (p : positive) : 2 ^ Zpos p~0 = 2 ^ Zpos p * 2 ^ Zpos p.
Proof. rewrite <- Z.pow_add_r by lia. f_equal. lia. Qed.

Lemma pow2_xI (p : positive) : 2 ^ Zpos p~1 = 2 * (2 ^ Zpos p * 2 ^ Zpos p).
Proof.
  rewrite <- Z.pow_add_r by lia. rewrite <- Z.pow_succ_r by lia. f_equal. lia.
Qed.

Lemma iter_shr_1 (p : positive) :
  forall mrs, 0 <= shr_m mrs ->
    shr_m (SpecFloat.iter_pos shr_1 p mrs) = shr_m mrs / 2 ^ Zpos p.
Proof.
  induction p as [p IH | p IH |]; intros mrs Hm; cbn [SpecFloat.iter_pos].
  - assert (H1 : 0 <= shr_m (shr_1 mrs))
      by (rewrite shr_1_half by exact Hm; apply Z.div_pos; lia).
    assert (H2 : 0 <= shr_m (SpecFloat.iter_pos shr_1 p (shr_1 mrs)))
      by (rewrite IH by exact H1; apply Z.div_pos; lia).
    rewrite IH, IH, shr_1_half by assumption.
    rewrite !Z.div_div by lia. rewrite pow2_xI. reflexivity.
  - assert (H2 : 0 <= shr_m (SpecFloat.iter_pos shr_1 p mrs))
      by (rewrite IH by exact Hm; apply Z.div_pos; lia).
    rewrite IH, IH by assumption.
    rewrite !Z.div_div by lia. rewrite pow2_xO. reflexivity.
  - rewrite shr_1_half by exact Hm. reflexivity.
Qed.

Lemma shr_record_of_loc_m m l : shr_m (shr_record_of_loc m l) = m.
Proof. destruct l as [|[| |]]; reflexivity. Qed.

(** After the first shift the mantissa has at most 53 bits and the exponent
    is the larger of the two. *)
Lemma shr_fexp_bound (m : positive) (e : Z) (l : location) :
  let '(mrs, e') := shr_fexp 53 1024 (Zpos m) e l in
  0 <= shr_m mrs < 2 ^ 53 /\ e' = Z.max e (fexp 53 1024 (Zdigits2 (Zpos m) + e)).
Proof.
  unfold shr_fexp, shr.
  pose proof (Zdigits2_lt m) as Hlt.
  set (d := Zdigits2 (Zpos m)) in *.
  assert (Hd : 0 < d) by (unfold d; simpl; lia).
  assert (Hfexp : d + e - 53 <= fexp 53 1024 (d + e)) by (unfold fexp; lia).
  destruct (fexp 53 1024 (d + e) - e) as [|n|n] eqn:Hn.
  - rewrite shr_record_of_loc_m. split; [| lia].
    split; [lia |]. apply Z.lt_le_trans with (2 ^ d); [exact Hlt |].
    apply Z.pow_le_mono_r; lia.
  - rewrite iter_shr_1 by (rewrite shr_record_of_loc_m; lia).
    rewrite shr_record_of_loc_m. split; [| lia].
    split; [apply Z.div_pos; lia |].
    apply Z.div_lt_upper_bound; [lia |].
    rewrite <- Z.pow_add_r by lia.
    apply Z.lt_le_trans with (2 ^ d); [exact Hlt |].
    apply Z.pow_le_mono_r; lia.
  - rewrite shr_record_of_loc_m. split; [| lia].
    split; [lia |]. apply Z.lt_le_trans with (2 ^ d); [exact Hlt |].
    apply Z.pow_le_mono_r; lia.
Qed.

Lemma round_nearest_even_bound m l :
  0 <= m -> m <= round_nearest_even m l <= m + 1.
Proof.
  intros Hm. unfold round_nearest_even.
  destruct l as [|[| |]]; try lia. destruct (Z.even m); lia.
Qed.

Lemma binary_round_aux_finite (sx : bool) (m : positive) (e : Z) (l : location) :
  Z.max e (fexp 53 1024 (Zdigits2 (Zpos m) + e)) <= 970 ->
  forall s, binary_round_aux 53 1024 sx (Zpos m) e l <> S754_infinity s.
Proof.
  intros Hexp s. unfold binary_round_aux.
  pose proof (shr_fexp_bound m e l) as H1.
  destruct (shr_fexp 53 1024 (Zpos m) e l) as [mrs1 e1].
  destruct H1 as (Hm1 & He1).
  pose proof (round_nearest_even_bound (shr_m mrs1) (loc_of_shr_record mrs1)
                ltac:(lia)) as Hm2.
  set (m2 := round_nearest_even (shr_m mrs1) (loc_of_shr_record mrs1)) in *.
  assert (He1' : -1074 <= e1) by (unfold fexp, emin in He1; lia).
  assert (Hd2 : Zdigits2 m2 <= 54)
    by (apply Zdigits2_bound; [lia |]; change (2 ^ 54) with (2 * 2 ^ 53); lia).
  assert (He2 : snd (shr_fexp 53 1024 m2 e1 loc_Exact) <= 971).
  { unfold shr_fexp, shr.
    assert (Hf : fexp 53 1024 (Zdigits2 m2 + e1) <= e1 + 1)
      by (unfold fexp, emin; lia).
    destruct (fexp 53 1024 (Zdigits2 m2 + e1) - e1) eqn:Hn; cbn [snd]; lia. }
  destruct (shr_fexp 53 1024 m2 e1 loc_Exact) as [mrs2 e2]. cbn [snd] in He2.
  destruct (shr_m mrs2); try discriminate.
  change (1024 - 53) with 971.
  destruct (Z.leb_spec e2 971); [discriminate | lia].
Qed.

Lemma digits2_pos_shift (p k : positive) :
  Zpos (digits2_pos (Pos.iter xO p k)) = Zpos (digits2_pos p) + Zpos k.
Proof.
  revert p. induction k as [|k IH] using Pos.peano_ind; intros p.
  - cbn [Pos.iter digits2_pos]. lia.
  - rewrite Pos.iter_succ. cbn [digits2_pos]. rewrite Pos2Z.inj_succ, IH. lia.
Qed.

Lemma binary_round_finite (sx : bool) (p : positive) :
  Zpos p < 2 ^ 1023 ->
  forall s, binary_round 53 1024 sx p 0 <> S754_infinity s.
Proof.
  intros Hp s. unfold binary_round, shl_align.
  assert (Hd : Zpos (digits2_pos p) <= 1023)
    by (apply (Zdigits2_bound (Zpos p) 1023); lia).
  destruct (fexp 53 1024 (Zpos (digits2_pos p) + 0) - 0) as [|k|k] eqn:Hk.
  - apply binary_round_aux_finite. cbn [Zdigits2]. unfold fexp, emin in *. lia.
  - apply binary_round_aux_finite. cbn [Zdigits2]. unfold fexp, emin in *. lia.
  - apply binary_round_aux_finite. cbn [Zdigits2]. rewrite digits2_pos_shift.
    unfold fexp, emin in *. lia.
Qed.

Lemma shr_1_round (mrs : shr_record) :
  0 <= shr_m mrs -> shr_r (shr_1 mrs) = Z.odd (shr_m mrs).
Proof.
  destruct mrs as [m r s]. cbn [shr_m]. intros Hm.
  destruct m as [|[p|p|]|p]; cbn [shr_1 shr_r]; try lia; reflexivity.
Qed.

Lemma testbit_div_pow2 (m a b : Z) :
  0 <= a -> 0 <= b -> Z.testbit (m / 2 ^ a) b = Z.testbit m (b + a).
Proof. intros Ha Hb. rewrite <- Z.shiftr_div_pow2 by lia. apply Z.shiftr_spec. lia. Qed.

(** The round bit after a shift by [k] is bit [k - 1] of the mantissa. *)
Lemma iter_shr_1_round (k : positive) :
  forall mrs, 0 <= shr_m mrs ->
    shr_r (SpecFloat.iter_pos shr_1 k mrs) = Z.testbit (shr_m mrs) (Zpos k - 1).
Proof.
  induction k as [k IH | k IH |]; intros mrs Hm; cbn [SpecFloat.iter_pos].
  - assert (H1 : 0 <= shr_m (shr_1 mrs))
      by (rewrite shr_1_half by exact Hm; apply Z.div_pos; lia).
    assert (H2 : 0 <= shr_m (SpecFloat.iter_pos shr_1 k (shr_1 mrs)))
      by (rewrite iter_shr_1 by exact H1; apply Z.div_pos; lia).
    rewrite IH by exact H2. rewrite iter_shr_1, shr_1_half by assumption.
    rewrite testbit_div_pow2 by lia.
    change (shr_m mrs / 2) with (shr_m mrs / 2 ^ 1).
    rewrite testbit_div_pow2 by lia. f_equal. lia.
  - assert (H2 : 0 <= shr_m (SpecFloat.iter_pos shr_1 k mrs))
      by (rewrite iter_shr_1 by exact Hm; apply Z.div_pos; lia).
    rewrite IH by exact H2. rewrite iter_shr_1 by assumption.
    rewrite testbit_div_pow2 by lia. f_equal. lia.
  - rewrite shr_1_round by exact Hm. symmetry. apply Z.bit0_odd.
Qed.

Lemma round_down (mrs : shr_record) :
  shr_r mrs = false ->
  round_nearest_even (shr_m mrs) (loc_of_shr_record mrs) = shr_m mrs.
Proof. destruct mrs as [m [|] [|]]; cbn; intros H; try discriminate; reflexivity. Qed.

Lemma round_up (mrs : shr_record) :
  shr_r mrs = true -> Z.odd (shr_m mrs) = true ->
  round_nearest_even (shr_m mrs) (loc_of_shr_record mrs) = shr_m mrs + 1.
Proof.
  destruct mrs as [m [|] [|]]; cbn; intros H Hodd; try discriminate; [reflexivity |].
  rewrite <- Z.negb_odd, Hodd. reflexivity.
Qed.

Lemma Zdigits2_ge (m d : Z) : 0 < d -> 2 ^ (d - 1) <= m -> d <= Zdigits2 m.
Proof.
  intros Hd Hm.
  assert (0 < 2 ^ (d - 1)) by (apply Z.pow_pos_nonneg; lia).
  destruct m as [|p|p]; try lia.
  cbn [Zdigits2]. rewrite digits2_pos_log2.
  assert (d - 1 <= Z.log2 (Zpos p)) by (apply Z.log2_le_pow2; lia). lia.
Qed.

Lemma Zdigits2_ge_lt (p : positive) : 2 ^ (Zdigits2 (Zpos p) - 1) <= Zpos p.
Proof.
  cbn [Zdigits2]. rewrite digits2_pos_log2.
  replace (Z.log2 (Zpos p) + 1 - 1) with (Z.log2 (Zpos p)) by lia.
  apply Z.log2_spec. lia.
Qed.

(** The second normalisation of a mantissa of 53 or 54 bits at a large
    exponent. *)
Lemma shr_fexp_second (m e : Z) :
  2 ^ 52 <= m <= 2 ^ 53 -> 0 <= e ->
  let '(mrs, e') := shr_fexp 53 1024 m e loc_Exact in
  0 < shr_m mrs /\ e' = (if m =? 2 ^ 53 then e + 1 else e).
Proof.
  intros Hm He. unfold shr_fexp, shr.
  destruct (Z.eqb_spec m (2 ^ 53)) as [-> | Hne].
  - replace (fexp 53 1024 (Zdigits2 (2 ^ 53) + e) - e) with 1
      by (change (Zdigits2 (2 ^ 53)) with 54; unfold fexp, emin; lia).
    cbn [SpecFloat.iter_pos shr_record_of_loc]. split; [reflexivity | lia].
  - assert (Hd : Zdigits2 m = 53).
    { apply Z.le_antisymm; [apply Zdigits2_bound; lia | apply Zdigits2_ge; lia]. }
    replace (fexp 53 1024 (Zdigits2 m + e) - e) with 0
      by (rewrite Hd; unfold fexp, emin; lia).
    cbn [shr_record_of_loc shr_m].
    assert (0 < 2 ^ 52) by (apply Z.pow_pos_nonneg; lia). split; lia.
Qed.

(** The first normalisation of a large integer: a shift by its number of
    digits less 53. *)
Lemma shr_fexp_first (p : positive) :
  2 ^ 1023 <= Zpos p ->
  let d := Zdigits2 (Zpos p) in
  exists mrs,
    shr_fexp 53 1024 (Zpos p) 0 loc_Exact = (mrs, d - 53) /\
    1024 <= d /\
    shr_m mrs = Zpos p / 2 ^ (d - 53) /\
    shr_r mrs = Z.testbit (Zpos p) (d - 54) /\
    2 ^ 52 <= shr_m mrs < 2 ^ 53.
Proof.
  intros Hp d.
  assert (Hd : 1024 <= d) by (apply Zdigits2_ge; [lia | exact Hp]).
  pose proof (Zdigits2_lt p) as Hlt. pose proof (Zdigits2_ge_lt p) as Hge. fold d in Hlt, Hge.
  unfold shr_fexp, shr. fold d.
  replace (fexp 53 1024 (d + 0) - 0) with (d - 53) by (unfold fexp, emin; lia).
  destruct (d - 53) as [|k|k] eqn:Hk; try lia.
  eexists. split; [reflexivity |]. split; [exact Hd |].
  rewrite iter_shr_1, iter_shr_1_round by (cbn; lia). cbn [shr_record_of_loc shr_m].
  split; [reflexivity |]. split; [f_equal; lia |].
  assert (Hpow : 2 ^ d = 2 ^ 53 * 2 ^ Zpos k)
    by (rewrite <- Z.pow_add_r by lia; f_equal; lia).
  assert (Hpow' : 2 ^ (d - 1) = 2 ^ 52 * 2 ^ Zpos k)
    by (rewrite <- Z.pow_add_r by lia; f_equal; lia).
  assert (0 < 2 ^ Zpos k) by (apply Z.pow_pos_nonneg; lia).
  split.
  - apply Z.div_le_lower_bound; [lia |]. rewrite Z.mul_comm, <- Hpow'. exact Hge.
  - apply Z.div_lt_upper_bound; [lia |]. rewrite Z.mul_comm, <- Hpow. exact Hlt.
Qed.

(** The conversion of a large integer is infinite exactly from
    2^1024 - 2^970 on. *)
Lemma binary_round_large (sx : bool) (p : positive) :
  2 ^ 1023 <= Zpos p ->
  (exists s, binary_round 53 1024 sx p 0 = S754_infinity s) <->
  2 ^ 1024 - 2 ^ 970 <= Zpos p.
Proof.
  intros Hp.
  destruct (shr_fexp_first p Hp) as (mrs1 & Hfirst & Hd & Hm1 & Hr1 & Hbound1).
  set (d := Zdigits2 (Zpos p)) in *.
  pose proof (Zdigits2_lt p) as Hlt. fold d in Hlt.
  pose proof (Zdigits2_ge_lt p) as Hge. fold d in Hge.
  unfold binary_round, shl_align.
  replace (fexp 53 1024 (Zpos (digits2_pos p) + 0) - 0) with (d - 53)
    by (unfold d, fexp, emin; cbn [Zdigits2]; unfold d in Hd; cbn [Zdigits2] in Hd; lia).
  destruct (d - 53) as [|k|k] eqn:Hk; try lia.
  unfold binary_round_aux. rewrite Hfirst.
  pose proof (round_nearest_even_bound (shr_m mrs1) (loc_of_shr_record mrs1)
                ltac:(lia)) as Hm2.
  assert (Hup : shr_r mrs1 = true -> shr_m mrs1 = 2 ^ 53 - 1 ->
                round_nearest_even (shr_m mrs1) (loc_of_shr_record mrs1) = 2 ^ 53).
  { intros Hr Hfull. rewrite round_up; [rewrite Hfull; reflexivity | exact Hr |].
    rewrite Hfull. reflexivity. }
  pose proof (round_down mrs1) as Hdown.
  set (m2 := round_nearest_even (shr_m mrs1) (loc_of_shr_record mrs1)) in *.
  clearbody m2 d.
  pose proof (shr_fexp_second m2 (Zpos k) ltac:(lia) ltac:(lia)) as Hsecond.
  destruct (shr_fexp 53 1024 m2 (Zpos k) loc_Exact) as [mrs2 e2].
  destruct Hsecond as (Hm3 & He2).
  destruct (shr_m mrs2) as [|m3|m3]; try lia.
  change (1024 - 53) with 971.
  (* the threshold, in terms of the shifted mantissa and the round bit *)
  assert (Hthreshold :
            2 ^ 1024 - 2 ^ 970 <= Zpos p <->
            1025 <= d \/ (shr_m mrs1 = 2 ^ 53 - 1 /\ shr_r mrs1 = true)).
  { destruct (Z.le_gt_cases 1025 d) as [Hbig | Hsmall].
    - split; [auto |]. intros _.
      assert (2 ^ 1024 <= 2 ^ (d - 1)) by (apply Z.pow_le_mono_r; lia).
      assert (0 < 2 ^ 970) by (apply Z.pow_pos_nonneg; lia). lia.
    - assert (Hd' : d = 1024) by lia.
      assert (Hk' : Zpos k = 971) by lia.
      rewrite Hd' in Hlt, Hr1. rewrite Hk' in Hm1.
      change (1024 - 54) with 970 in Hr1.
      set (q := Zpos p / 2 ^ 970).
      assert (Hpos : 0 < 2 ^ 970) by (apply Z.pow_pos_nonneg; lia).
      assert (Hm1q : shr_m mrs1 = q / 2).
      { rewrite Hm1. unfold q. rewrite Z.div_div by lia. reflexivity. }
      assert (Hr1q : shr_r mrs1 = Z.odd q).
      { rewrite Hr1. unfold q. rewrite Z.testbit_odd, Z.shiftr_div_pow2 by lia.
        reflexivity. }
      assert (Hq : q <= 2 ^ 54 - 1).
      { assert (q < 2 ^ 54); [| lia]. apply Z.div_lt_upper_bound; [lia |].
        rewrite <- Z.pow_add_r by lia. exact Hlt. }
      assert (HT : 2 ^ 1024 - 2 ^ 970 = 2 ^ 970 * (2 ^ 54 - 1)).
      { rewrite Z.mul_sub_distr_l, <- Z.pow_add_r by lia. reflexivity. }
      rewrite HT, Hm1q, Hr1q. split.
      + intros Hreach. right.
        assert (2 ^ 54 - 1 <= q) by (apply Z.div_le_lower_bound; lia).
        assert (q = 2 ^ 54 - 1) as -> by lia. split; reflexivity.
      + intros [? | (Hhalf & Hodd)]; [lia |].
        pose proof (Zmod_odd q) as Hmod. rewrite Hodd in Hmod.
        assert (q = 2 ^ 54 - 1) as Hq' by (Z.div_mod_to_equations; lia).
        pose proof (Z.mul_div_le (Zpos p) (2 ^ 970) Hpos) as Hle. fold q in Hle.
        rewrite Hq' in Hle. exact Hle. }
  rewrite Hthreshold, He2.
  destruct (Z.le_gt_cases 1025 d) as [Hbig | Hsmall].
  - assert (971 < (if m2 =? 2 ^ 53 then Zpos k + 1 else Zpos k))
      by (destruct (m2 =? 2 ^ 53); lia).
    destruct (Z.leb_spec (if m2 =? 2 ^ 53 then Zpos k + 1 else Zpos k) 971); [lia |].
    split; [auto | eauto].
  - assert (Hk' : Zpos k = 971) by lia. rewrite Hk'.
    destruct (shr_r mrs1) eqn:Hr.
    + destruct (Z.eq_dec (shr_m mrs1) (2 ^ 53 - 1)) as [Hfull | Hnot].
      * rewrite (Hup eq_refl Hfull). cbn. split; [auto | eauto].
      * assert (m2 <> 2 ^ 53) by lia.
        destruct (Z.eqb_spec m2 (2 ^ 53)); [contradiction |]. cbn.
        split; [intros (s & Hs); discriminate | intros [? | (? & _)]; [lia | contradiction]].
    + specialize (Hdown eq_refl).
      assert (m2 <> 2 ^ 53) by lia.
      destruct (Z.eqb_spec m2 (2 ^ 53)); [contradiction |]. cbn.
      split; [intros (s & Hs); discriminate | intros [? | (_ & ?)]; [lia | discriminate]].
Qed.

(** [float(n)] raises exactly from [float_limit] on, in magnitude: the
    largest double is 2^1024 - 2^971, and the integers up to halfway to
    2^1024 round to it. *)
Lemma float_of_int_overflow (n : Z) :
  float_of_int n = Raise OverflowError <-> float_limit <= Z.abs n.
Proof.
  assert (Hlimit : 2 ^ 1023 < float_limit) by (vm_compute; reflexivity).
  assert (Hcase : forall sx p,
            (match binary_round 53 1024 sx p 0 with
             | S754_infinity _ => Raise OverflowError
             | x => Ok x
             end = Raise OverflowError) <-> float_limit <= Zpos p).
  { intros sx p. destruct (Z.lt_ge_cases (Zpos p) (2 ^ 1023)) as [Hsmall | Hlarge].
    - pose proof (binary_round_finite sx p Hsmall) as Hfinite.
      destruct (binary_round 53 1024 sx p 0) as [s | s | | s m e];
        (split; [discriminate || (intros _; destruct (Hfinite s eq_refl)) | lia]).
    - unfold float_limit. rewrite <- (binary_round_large sx p Hlarge).
      destruct (binary_round 53 1024 sx p 0) as [s | s | | s m e];
        (split; [discriminate || eauto | intros (s' & Hs'); discriminate || reflexivity]). }
  unfold float_of_int, binary_normalize. destruct n as [|p|p].
  - split; [discriminate | cbn [Z.abs]; lia].
  - apply Hcase.
  - apply Hcase.
Qed.

Lemma float_of_int_returns (n : Z) :
  Z.abs n < float_limit -> exists x, float_of_int n = Ok x.
Proof.
  intros Hn. destruct (float_of_int n) as [x | e] eqn:Hx; [eauto |].
  assert (e = OverflowError) as ->.
  { unfold float_of_int in Hx.
    destruct (binary_normalize 53 1024 n 0 false); congruence. }
  apply float_of_int_overflow in Hx. lia.
Qed.

(** ** The codec against the reference algorithm *)

Section CodecRefinement.

Local Abbreviation varints := (ref_varints code_continuation).

Lemma drop_cons_inv {A} (l : list A) (i : nat) (c d : A) (rest : list A) :
  drop i l = c :: rest ->
  (i < length l)%nat /\ nth i l d = c /\ drop (S i) l = rest.
Proof.
  revert i. induction l as [|x l IH]; intros [|i] H; simpl in *; try discriminate.
  - injection H as -> ->. split; [lia | split; reflexivity].
  - destruct (IH i H) as (Hlt & Hnth & Hdrop). split; [lia | split; assumption].
Qed.

Lemma group_is_mod (b : Z) : Z.land b 31 = b mod 32.
Proof. change 31 with (Z.ones 5). rewrite Z.land_ones by lia. reflexivity. Qed.

Lemma group_low_bits (g m : Z) :
  0 <= g < 32 -> Z.lor g (Z.shiftl m 5) = g + 32 * m.
Proof.
  intros Hg.
  assert (Hdisj : Z.land g (Z.shiftl m 5) = 0).
  { apply Z.bits_inj'. intros n Hn. rewrite Z.land_spec, Z.bits_0.
    destruct (Z.lt_ge_cases n 5) as [Hlow | Hhigh].
    - rewrite (Z.shiftl_spec_low m 5 n) by lia. apply andb_false_r.
    - assert (Hbit : Z.testbit g n = false).
      { destruct (Z.eq_dec g 0) as [-> | Hnz]; [apply Z.bits_0 |].
        apply Z.bits_above_log2; [lia |].
        apply Z.lt_le_trans with 5; [| lia].
        apply Z.log2_lt_pow2; [lia | simpl; lia]. }
      rewrite Hbit. reflexivity. }
  rewrite <- Z.lxor_lor by exact Hdisj.
  rewrite <- Z.add_nocarry_lxor by exact Hdisj.
  rewrite Z.shiftl_mul_pow2 by lia. change (2 ^ 5) with 32. lia.
Qed.

Lemma zigzag_decode_ref (m : Z) : zigzag_decode m = ref_zigzag m.
Proof.
  unfold zigzag_decode, ref_zigzag.
  change 1 with (Z.ones 1) at 1. rewrite Z.land_ones by lia.
  rewrite Z.shiftr_div_pow2 by lia. change (2 ^ 1) with 2.
  rewrite Zmod_odd. unfold Z.lnot.
  destruct (Z.odd m); simpl; lia.
Qed.

(** One run of the inner loop reads exactly the first integer of the rest of
    the input, whatever the shift and the partial result it starts from. *)
Lemma read_delta_varint (suffix : list Z) :
  suffix <> [] ->
  exists (k : nat) (m : Z),
    (1 <= k <= length suffix)%nat /\
    varints suffix = m :: varints (drop k suffix) /\
    forall fuel encoded index shift result,
      drop index encoded = suffix ->
      (length suffix < fuel)%nat ->
      0 <= shift ->
      read_delta fuel encoded index shift result
      = Some ((index + k)%nat, Z.lor result (Z.shiftl m shift)).
Proof.
  induction suffix as [|c rest IH]; [done | intros _].
  set (b := c - 63).
  assert (Hgroup : 0 <= b mod 32 < 32) by (apply Z.mod_pos_bound; lia).
  destruct (Z.ltb_spec b 32) as [Hend | Hcont].
  - (* the group ends the integer *)
    exists 1%nat, (b mod 32). split; [simpl; lia |]. split.
    + simpl. fold b. unfold code_continuation.
      destruct (Z.leb_spec 32 b); [lia | reflexivity].
    + intros fuel encoded index shift result Hdrop Hfuel Hshift.
      destruct fuel as [|fuel]; [simpl in Hfuel; lia |].
      destruct (drop_cons_inv encoded index c 0 rest Hdrop) as (Hlt & Hnth & _).
      simpl. destruct (Nat.ltb_spec index (length encoded)); [| lia].
      rewrite Hnth. fold b. destruct (Z.ltb_spec b 32); [| lia].
      rewrite group_is_mod. f_equal. f_equal. lia.
  - destruct rest as [|c' rest'].
    + (* the input ends inside the integer *)
      exists 1%nat, (b mod 32). split; [simpl; lia |]. split.
      * simpl. fold b. unfold code_continuation.
        destruct (Z.leb_spec 32 b); [reflexivity | lia].
      * intros fuel encoded index shift result Hdrop Hfuel Hshift.
        destruct fuel as [|[|fuel]]; simpl in Hfuel; try lia.
        destruct (drop_cons_inv encoded index c 0 [] Hdrop) as (Hlt & Hnth & Hnext).
        cbn [read_delta]. destruct (Nat.ltb_spec index (length encoded)); [| lia].
        rewrite Hnth. fold b. destruct (Z.ltb_spec b 32); [lia |].
        assert (Hlen : length (drop (S index) encoded) = 0%nat) by (rewrite Hnext; done).
        rewrite length_drop in Hlen.
        destruct (Nat.ltb_spec (S index) (length encoded)); [lia |].
        rewrite group_is_mod. f_equal. f_equal. lia.
    + destruct IH as (k & m & Hk & Hvar & Hread); [done |].
      exists (S k), (b mod 32 + 32 * m). split; [simpl in *; lia |]. split.
      * change (varints (c :: c' :: rest'))
          with (if code_continuation b
                then match varints (c' :: rest') with
                     | [] => [b mod 32]
                     | high :: others => (b mod 32 + 32 * high) :: others
                     end
                else b mod 32 :: varints (c' :: rest')).
        unfold code_continuation at 1.
        destruct (Z.leb_spec 32 b); [| lia].
        rewrite Hvar. reflexivity.
      * intros fuel encoded index shift result Hdrop Hfuel Hshift.
        destruct fuel as [|fuel]; [simpl in Hfuel; lia |].
        destruct (drop_cons_inv encoded index c 0 _ Hdrop) as (Hlt & Hnth & Hnext).
        cbn [read_delta]. destruct (Nat.ltb_spec index (length encoded)); [| lia].
        rewrite Hnth. fold b. destruct (Z.ltb_spec b 32); [lia |].
        rewrite (Hread fuel encoded (S index) (shift + 5) _ Hnext)
          by (simpl in *; lia).
        f_equal. f_equal; [lia |].
        rewrite group_is_mod, <- group_low_bits by exact Hgroup.
        rewrite Z.shiftl_lor, Z.shiftl_shiftl by lia.
        rewrite Z.lor_assoc. do 2 f_equal. lia.
Qed.

(** The outer loop, from any index and any running position, appends the
    reference decoding of the rest of the input. *)
Lemma decode_loop_ref (n : nat) :
  forall fuel encoded index lat lon coordinates,
    (length (drop index encoded) <= n)%nat ->
    (length (drop index encoded) < fuel)%nat ->
    decode_loop fuel encoded index lat lon coordinates
    = Some (do rest <- map_result ref_degrees
                         (ref_accumulate lat lon
                            (ref_pairs (map ref_zigzag (varints (drop index encoded)))));
            Ok (coordinates ++ rest)).
Proof.
  induction n as [n IH] using lt_wf_ind.
  intros fuel encoded index lat lon coordinates Hn Hfuel.
  destruct fuel as [|fuel]; [lia |].
  cbn [decode_loop].
  destruct (drop index encoded) as [|c rest] eqn:Hsuffix.
  { (* input exhausted *)
    assert (Hlen : length (drop index encoded) = 0%nat) by (rewrite Hsuffix; done).
    rewrite length_drop in Hlen.
    destruct (Nat.ltb_spec index (length encoded)); [lia |].
    simpl. rewrite app_nil_r. reflexivity. }
  assert (Hindex : (index < length encoded)%nat)
    by (apply (drop_cons_inv encoded index c 0 rest Hsuffix)).
  destruct (Nat.ltb_spec index (length encoded)); [| lia].
  destruct (read_delta_varint (c :: rest)) as (k & m & Hk & Hvar & Hread); [done |].
  assert (Hsize : (length (c :: rest) = length encoded - index)%nat)
    by (rewrite <- Hsuffix; apply length_drop).
  rewrite (Hread _ encoded index 0 0 Hsuffix) by (rewrite ?Hsize; lia).
  rewrite Z.lor_0_l, Z.shiftl_0_r, zigzag_decode_ref.
  assert (Hrest : drop (index + k) encoded = drop k (c :: rest))
    by (rewrite <- Hsuffix, drop_drop; reflexivity).
  rewrite Hvar.
  destruct (drop k (c :: rest)) as [|c2 rest2] eqn:Hsuffix2.
  { (* a latitude with nothing after it *)
    assert (Hlen : length (drop (index + k) encoded) = 0%nat) by (rewrite Hrest; done).
    rewrite length_drop in Hlen.
    destruct (Nat.leb_spec (length encoded) (index + k)); [| lia].
    simpl. rewrite app_nil_r. reflexivity. }
  assert (Hindex2 : (index + k < length encoded)%nat)
    by (apply (drop_cons_inv encoded (index + k) c2 0 rest2 Hrest)).
  destruct (Nat.leb_spec (length encoded) (index + k)); [lia |].
  destruct (read_delta_varint (c2 :: rest2)) as (k2 & m2 & Hk2 & Hvar2 & Hread2); [done |].
  assert (Hsize2 : (length (c2 :: rest2) = length encoded - (index + k))%nat)
    by (rewrite <- Hrest; apply length_drop).
  rewrite (Hread2 _ encoded (index + k)%nat 0 0 Hrest) by (rewrite ?Hsize2; lia).
  rewrite Z.lor_0_l, Z.shiftl_0_r, zigzag_decode_ref.
  assert (Hrest2 : drop (index + k + k2) encoded = drop k2 (c2 :: rest2))
    by (rewrite <- Hrest, drop_drop; reflexivity).
  assert (Hshorter : (length (drop (index + k + k2) encoded) < length (c :: rest))%nat)
    by (rewrite length_drop, Hsize; lia).
  rewrite Hvar2. cbn [map ref_pairs ref_accumulate map_result].
  change (degrees (lat + ref_zigzag m) (lon + ref_zigzag m2))
    with (ref_degrees (lat + ref_zigzag m, lon + ref_zigzag m2)).
  destruct (ref_degrees (lat + ref_zigzag m, lon + ref_zigzag m2)) as [point | e];
    [| reflexivity].
  rewrite (IH (length (drop (index + k + k2) encoded))); [| lia | lia | lia].
  rewrite Hrest2. cbn [bind].
  destruct (map_result ref_degrees _) as [points | e]; cbn [bind]; [| reflexivity].
  rewrite <- app_assoc. reflexivity.
Qed.

(** [decode_polyline] never runs out of fuel, and its outcome is the
    reference decoding with the continuation test of the source. *)
Lemma decode_polyline_ref (encoded : list Z) :
  decode_polyline encoded = Some (ref_decode code_continuation encoded).
Proof.
  destruct encoded as [|c rest]; [reflexivity |].
  unfold decode_polyline.
  rewrite (decode_loop_ref (length (c :: rest))); [| rewrite drop_0; simpl; lia ..].
  rewrite drop_0. unfold ref_decode, ref_path.
  destruct (map_result ref_degrees _); reflexivity.
Qed.

End CodecRefinement.

Lemma alphabet_continuation (c : Z) :
  in_alphabet c -> spec_continuation (c - 63) = code_continuation (c - 63).
Proof.
  unfold in_alphabet, spec_continuation, code_continuation. intros Hc.
  destruct (Z.leb_spec 32 (c - 63)) as [Hhigh | Hlow].
  - apply Z.testbit_true; [lia |]. change (2 ^ 5) with 32.
    assert ((c - 63) / 32 = 1) as -> by (Z.div_mod_to_equations; lia).
    reflexivity.
  - apply Z.testbit_false; [lia |]. change (2 ^ 5) with 32.
    rewrite Z.div_small by lia. reflexivity.
Qed.

Lemma ref_varints_alphabet (encoded : list Z) :
  Forall in_alphabet encoded ->
  ref_varints spec_continuation encoded = ref_varints code_continuation encoded.
Proof.
  induction 1 as [|c rest Hc _ IH]; [reflexivity |].
  simpl. rewrite IH, (alphabet_continuation c Hc). reflexivity.
Qed.

Section Truncation.

Local Abbreviation varints := (ref_varints code_continuation).

Lemma varints_terminated (d : list Z) :
  terminated_delta d -> exists m, forall rest, varints (d ++ rest) = m :: varints rest.
Proof.
  intros (pre & c & -> & Hpre & Hc).
  induction Hpre as [|x pre Hx _ IH].
  - exists ((c - 63) mod 32). intros rest. simpl. unfold code_continuation.
    destruct (Z.leb_spec 32 (c - 63)); [lia | reflexivity].
  - destruct IH as (m & IH). exists ((x - 63) mod 32 + 32 * m). intros rest.
    simpl. rewrite (IH rest). unfold code_continuation.
    unfold continuing in Hx. destruct (Z.leb_spec 32 (x - 63)); [reflexivity | lia].
Qed.

Lemma varints_one_delta (d : list Z) : one_delta d -> exists m, varints d = [m].
Proof.
  intros (pre & c & -> & Hpre).
  induction Hpre as [|x pre Hx _ IH].
  - simpl. destruct (code_continuation (c - 63)); eauto.
  - destruct IH as (m & IH). simpl. rewrite IH. unfold code_continuation.
    unfold continuing in Hx. destruct (Z.leb_spec 32 (x - 63)); [eauto | lia].
Qed.

Lemma ref_pairs_truncated (body lat_part : list Z) :
  complete_pairs body -> one_delta lat_part ->
  ref_pairs (map ref_zigzag (varints (body ++ lat_part)))
  = ref_pairs (map ref_zigzag (varints body)).
Proof.
  intros Hbody Hlat. induction Hbody as [|dlat dlon rest Hdlat Hdlon _ IH].
  - rewrite app_nil_l. destruct (varints_one_delta _ Hlat) as (m & ->). reflexivity.
  - destruct (varints_terminated dlat Hdlat) as (m1 & H1).
    destruct (varints_terminated dlon Hdlon) as (m2 & H2).
    rewrite <- !app_assoc, !H1, !H2. simpl. rewrite IH. reflexivity.
Qed.

Lemma decode_polyline_truncated (body lat_part : list Z) :
  complete_pairs body -> one_delta lat_part ->
  decode_polyline (body ++ lat_part) = decode_polyline body.
Proof.
  intros Hbody Hlat. rewrite !decode_polyline_ref. unfold ref_decode, ref_path.
  rewrite (ref_pairs_truncated body lat_part Hbody Hlat). reflexivity.
Qed.

End Truncation.

(** The conversion of a point to degrees returns when both coordinates are
    below [float_limit] in magnitude, and raises [OverflowError]
    otherwise. *)
Lemma ref_degrees_spec (p : Z * Z) :
  (within float_limit p /\ exists point, ref_degrees p = Ok point) \/
  (~ within float_limit p /\ ref_degrees p = Raise OverflowError).
Proof.
  unfold within, ref_degrees, div_1e5.
  destruct (Z.lt_ge_cases (Z.abs (fst p)) float_limit) as [Hlat | Hlat].
  - destruct (float_of_int_returns _ Hlat) as (y & ->). cbn [bind].
    destruct (Z.lt_ge_cases (Z.abs (snd p)) float_limit) as [Hlon | Hlon].
    + destruct (float_of_int_returns _ Hlon) as (x & ->). cbn [bind].
      left. split; [split; assumption | eauto].
    + rewrite (proj2 (float_of_int_overflow _) Hlon). right. split; [lia | reflexivity].
  - rewrite (proj2 (float_of_int_overflow _) Hlat). right. split; [lia | reflexivity].
Qed.

Lemma map_degrees_spec (path : list (Z * Z)) :
  (Forall (within float_limit) path /\
   exists points,
     map_result ref_degrees path = Ok points /\ length points = length path) \/
  (Exists (fun p => ~ within float_limit p) path /\
   map_result ref_degrees path = Raise OverflowError).
Proof.
  induction path as [|p rest IH].
  - left. split; [constructor | exists []; split; reflexivity].
  - cbn [map_result].
    destruct (ref_degrees_spec p) as [(Hp & point & ->) | (Hp & ->)]; cbn [bind].
    + destruct IH as [(Hrest & points & -> & Hlen) | (Hrest & ->)]; cbn [bind].
      * left. split; [constructor; assumption |].
        exists (point :: points). split; [reflexivity | simpl; lia].
      * right. split; [apply Exists_cons_tl; exact Hrest | reflexivity].
    + right. split; [apply Exists_cons_hd; exact Hp | reflexivity].
Qed.

Lemma map_degrees_outcome (path : list (Z * Z)) :
  (exists points,
     map_result ref_degrees path = Ok points /\ length points = length path) \/
  map_result ref_degrees path = Raise OverflowError.
Proof. destruct (map_degrees_spec path) as [(_ & H) | (_ & H)]; auto. Qed.

(** A path whose points are all below [float_limit] converts to degrees. *)
Lemma map_degrees_returns (path : list (Z * Z)) :
  Forall (within float_limit) path ->
  exists points,
    map_result ref_degrees path = Ok points /\ length points = length path.
Proof.
  intros Hall. destruct (map_degrees_spec path) as [(_ & H) | (Hsome & _)]; [exact H |].
  apply Exists_exists in Hsome as (p & Hin & Hp).
  rewrite Forall_forall in Hall. destruct (Hp (Hall p Hin)).
Qed.

(** ** The codec: how large the accumulated integers get *)

Section CodecBounds.

Variable continues : Z -> bool.

(** The integers of an input of [n] characters sum to less than 32^n. *)
Lemma ref_varints_magnitude (input : list Z) :
  Forall (fun m => 0 <= m) (ref_varints continues input) /\
  magnitude (ref_varints continues input) < 32 ^ Z.of_nat (length input).
Proof.
  induction input as [|c rest (Hpos & Hsum)]; [split; [constructor | reflexivity] |].
  assert (Hgroup : 0 <= (c - 63) mod 32 < 32) by (apply Z.mod_pos_bound; lia).
  assert (Hpow : 32 ^ Z.of_nat (length (c :: rest)) = 32 * 32 ^ Z.of_nat (length rest)).
  { cbn [length]. rewrite Nat2Z.inj_succ, Z.pow_succ_r by lia. reflexivity. }
  assert (Hone : 0 < 32 ^ Z.of_nat (length rest)) by (apply Z.pow_pos_nonneg; lia).
  rewrite Hpow. cbn [ref_varints].
  destruct (continues (c - 63)).
  - destruct (ref_varints continues rest) as [|high others].
    + split; [constructor; [lia | constructor] |]. unfold magnitude. cbn [fold_right]. lia.
    + apply Forall_cons in Hpos as (Hhigh & Hothers).
      split; [constructor; [lia | exact Hothers] |].
      unfold magnitude in *. cbn [fold_right] in *.
      assert (0 <= fold_right (fun d total => Z.abs d + total) 0 others).
      { clear. induction others as [|d l IH]; simpl; lia. }
      lia.
  - split; [constructor; [lia | exact Hpos] |].
    unfold magnitude in *. cbn [fold_right]. lia.
Qed.

Lemma ref_zigzag_magnitude (deltas : list Z) :
  Forall (fun m => 0 <= m) deltas ->
  magnitude (map ref_zigzag deltas) <= magnitude deltas.
Proof.
  induction 1 as [|m rest Hm _ IH]; [reflexivity |].
  unfold magnitude in *. cbn [map fold_right].
  assert (Z.abs (ref_zigzag m) <= Z.abs m).
  { unfold ref_zigzag. pose proof (Zmod_odd m) as Hodd.
    destruct (Z.odd m); Z.div_mod_to_equations; lia. }
  lia.
Qed.

Lemma magnitude_nonneg (deltas : list Z) : 0 <= magnitude deltas.
Proof. unfold magnitude. induction deltas as [|d l IH]; cbn [fold_right]; lia. Qed.

(** A point of the accumulated path is within the magnitudes summed so
    far. *)
Lemma ref_accumulate_magnitude (deltas : list Z) :
  forall lat lon p,
    In p (ref_accumulate lat lon (ref_pairs deltas)) ->
    Z.abs (fst p) <= Z.abs lat + magnitude deltas /\
    Z.abs (snd p) <= Z.abs lon + magnitude deltas.
Proof.
  assert (H : forall n deltas, (length deltas <= n)%nat ->
            forall lat lon p,
              In p (ref_accumulate lat lon (ref_pairs deltas)) ->
              Z.abs (fst p) <= Z.abs lat + magnitude deltas /\
              Z.abs (snd p) <= Z.abs lon + magnitude deltas).
  { clear deltas. induction n as [|n IH]; intros deltas Hlen lat lon p Hin.
    - destruct deltas; [destruct Hin | simpl in Hlen; lia].
    - destruct deltas as [|a [|b rest]]; [destruct Hin | destruct Hin |].
      cbn [ref_pairs ref_accumulate] in Hin.
      pose proof (magnitude_nonneg rest) as Hrest.
      unfold magnitude in *. cbn [fold_right].
      destruct Hin as [<- | Hin]; [cbn [fst snd]; lia |].
      destruct (IH rest ltac:(simpl in Hlen; lia) _ _ p Hin) as (Hlat & Hlon).
      lia. }
  exact (H (length deltas) deltas (Nat.le_refl _)).
Qed.

(** Every point of the path of an input of [n] characters is below 32^n in
    both coordinates. *)
Lemma ref_path_within (input : list Z) :
  Forall (within (32 ^ Z.of_nat (length input))) (ref_path continues input).
Proof.
  apply Forall_forall. intros p Hp. apply list_elem_of_In in Hp.
  destruct (ref_varints_magnitude input) as (Hpos & Hsum).
  pose proof (ref_zigzag_magnitude _ Hpos) as Hzig.
  destruct (ref_accumulate_magnitude _ 0 0 p Hp) as (Hlat & Hlon).
  unfold within. simpl in Hlat, Hlon. lia.
Qed.

End CodecBounds.

(** No input of at most 204 characters reaches an integer that does not
    convert. *)
Lemma decode_polyline_short (encoded : list Z) :
  (length encoded <= 204)%nat ->
  exists points, decode_polyline encoded = Some (Ok points).
Proof.
  intros Hshort. rewrite decode_polyline_ref. unfold ref_decode.
  destruct (map_degrees_returns (ref_path code_continuation encoded))
    as (points & -> & _); [| eauto].
  eapply Forall_impl; [apply ref_path_within |].
  intros p (Hlat & Hlon).
  assert (Hpow : 32 ^ Z.of_nat (length encoded) <= 2 ^ 1023).
  { change 32 with (2 ^ 5). rewrite <- Z.pow_mul_r by lia.
    apply Z.pow_le_mono_r; lia. }
  assert (Hlimit : 2 ^ 1023 < float_limit) by (vm_compute; reflexivity).
  split; lia.
Qed.

(** C2 (amended). [decode_polyline] terminates on every input, and its
    outcome is that of the reference decoding in which a group continues the
    integer exactly when [char_code - 63 >= 0x20], each accumulated integer
    being divided by 1e5 as the source divides it: converted to a double,
    which raises [OverflowError] when the integer is 2^1024 - 2^970 or more
    in magnitude, then divided.
    On inputs whose characters all lie in the alphabet 63..126 this is the
    reference algorithm of the specification, which tests bit 0x20.  The
    empty input gives the empty sequence, and a latitude delta that follows
    complete pairs and ends the input is dropped: the outcome is that of the
    complete pairs alone.  The reference decoding returns one point per
    accumulated pair when every accumulated integer is below that limit, and
    raises [OverflowError] otherwise; on an input of at most 204 characters
    no integer is that large and [decode_polyline] returns. *)
Theorem decode_polyline_reference :
  (forall encoded,
     decode_polyline encoded = Some (ref_decode code_continuation encoded)) /\
  (forall encoded,
     Forall in_alphabet encoded ->
     decode_polyline encoded = Some (spec_decode encoded)) /\
  decode_polyline [] = Some (Ok []) /\
  (forall body lat_part,
     complete_pairs body -> one_delta lat_part ->
     decode_polyline (body ++ lat_part) = decode_polyline body) /\
  (forall continues input,
     (Forall (within float_limit) (ref_path continues input) /\
      exists points,
        ref_decode continues input = Ok points /\
        length points = length (ref_path continues input)) \/
     (Exists (fun p => ~ within float_limit p) (ref_path continues input) /\
      ref_decode continues input = Raise OverflowError)) /\
  (forall encoded,
     (length encoded <= 204)%nat ->
     exists points, decode_polyline encoded = Some (Ok points)).
Proof.
  split; [exact decode_polyline_ref |].
  split.
  { intros encoded Halpha. rewrite decode_polyline_ref.
    unfold spec_decode, ref_decode, ref_path.
    rewrite (ref_varints_alphabet encoded Halpha). reflexivity. }
  split; [reflexivity |].
  split; [exact decode_polyline_truncated |].
  split; [| exact decode_polyline_short].
  intros continues input. unfold ref_decode. apply map_degrees_spec.
Qed.

(** C2, as stated, fails outside the alphabet.  The character [À] (code 192,
    so [b = 129]: bit 0x20 clear, yet [b >= 0x20]) continues the integer in
    the source and ends it in the reference algorithm; a space (code 32,
    [b = -31]: bit 0x20 set, yet [b < 0x20]) does the opposite. *)
Lemma decode_polyline_not_spec_outside_alphabet :
  decode_polyline [192; 64; 63] = Some (map_result ref_degrees [(-17, 0)]) /\
  spec_decode [192; 64; 63] = map_result ref_degrees [(-1, -1)] /\
  decode_polyline [192; 64; 63] <> Some (spec_decode [192; 64; 63]) /\
  decode_polyline_str " ?" = Some (map_result ref_degrees [(-1, 0)]) /\
  spec_decode (code_points " ?") = Ok [] /\
  decode_polyline_str " ?" <> Some (spec_decode (code_points " ?")).
Proof.
  repeat split; try (vm_compute; reflexivity); vm_compute; discriminate.
Qed.

(** The four points of a route in Copenhagen, as doubles. *)
Example decode_golden :
  decode_polyline_str "kuzrIqyjkAmCzWoD`YqC`^"
  = Some (map_result ref_degrees
            [(5568358, 1251241); (5568429, 1250843);
             (5568517, 1250426); (5568590, 1249929)]) /\
  div_1e5 5568358 = Ok (S754_finite false 7836767191832975 (-47)).
Proof. split; vm_compute; reflexivity. Qed.

(** A latitude of magnitude 2^1024, which 204 continuing characters and one
    more reach, does not convert to a double: line 1033 raises. *)
Example decode_polyline_overflow :
  decode_polyline (repeat 126 204 ++ [94; 63]) = Some (Raise OverflowError) /\
  float_of_int float_limit = Raise OverflowError /\
  float_of_int (float_limit - 1) = Ok (S754_finite false 9007199254740991 971).
Proof. repeat split; vm_compute; reflexivity. Qed.

Lemma decode_polyline_reference_witness :
  Forall in_alphabet (code_points "kuzrIqyjkAmCzWoD`YqC`^") /\
  decode_polyline_str "kuzrIqyjkAmCzWoD`YqC`^"
  = Some (spec_decode (code_points "kuzrIqyjkAmCzWoD`YqC`^")) /\
  complete_pairs (code_points "kuzrIqyjkA") /\
  one_delta (code_points "mC") /\
  decode_polyline (code_points "kuzrIqyjkA" ++ code_points "mC")
  = decode_polyline (code_points "kuzrIqyjkA") /\
  (length (code_points "kuzrIqyjkAmCzWoD`YqC`^") <= 204)%nat /\
  exists points,
    decode_polyline (code_points "kuzrIqyjkAmCzWoD`YqC`^") = Some (Ok points).
Proof.
  assert (Halpha : Forall in_alphabet (code_points "kuzrIqyjkAmCzWoD`YqC`^")).
  { unfold in_alphabet. unfold code_points, ord; simpl; repeat (constructor; [lia |]); constructor. }
  assert (Hpairs : complete_pairs (code_points "kuzrIqyjkA")).
  { apply (complete_pair (code_points "kuzrI") (code_points "qyjkA") []).
    - exists (code_points "kuzr"), (ord "I"). unfold continuing.
      split; [reflexivity |]. split; [| unfold ord; simpl; lia].
      unfold code_points, ord; simpl; repeat (constructor; [lia |]); constructor.
    - exists (code_points "qyjk"), (ord "A"). unfold continuing.
      split; [reflexivity |]. split; [| unfold ord; simpl; lia].
      unfold code_points, ord; simpl; repeat (constructor; [lia |]); constructor.
    - apply complete_nil. }
  assert (Hlat : one_delta (code_points "mC")).
  { exists (code_points "m"), (ord "C"). unfold continuing.
    split; [reflexivity |].
    unfold code_points, ord; simpl; repeat (constructor; [lia |]); constructor. }
  destruct decode_polyline_reference as (_ & Hspec & _ & Htrunc & _ & Hshort).
  split; [exact Halpha |].
  split; [exact (Hspec _ Halpha) |].
  split; [exact Hpairs |].
  split; [exact Hlat |].
  split; [exact (Htrunc _ _ Hpairs Hlat) |].
  assert (Hlen : (length (code_points "kuzrIqyjkAmCzWoD`YqC`^") <= 204)%nat)
    by (vm_compute; lia).
  split; [exact Hlen | exact (Hshort _ Hlen)].
Defined.

(** ** The error monad and the loops *)

Lemma bind_Ok_inv {A B} (m : result A) (k : A -> result B) (b : B) :
  bind m k = Ok b -> exists a, m = Ok a /\ k a = Ok b.
Proof. destruct m as [a | e]; simpl; [eauto | discriminate]. Qed.

Tactic Notation "inv_bind" hyp(H) "as" ident(a) ident(Ha) :=
  apply bind_Ok_inv in H as (a & Ha & H).

Lemma map_result_Forall2 {A B} (f : A -> result B) (items : list A) (ys : list B) :
  map_result f items = Ok ys -> Forall2 (fun x y => f x = Ok y) items ys.
Proof.
  revert ys. induction items as [|x rest IH]; intros ys H; simpl in H.
  - injection H as <-. constructor.
  - inv_bind H as y Hy. inv_bind H as ys' Hys. injection H as <-.
    constructor; [assumption | auto].
Qed.

Lemma map_result_raises {A B} (f : A -> result B) (items : list A) (x : A) (e : exn) :
  In x items -> f x = Raise e -> exists e', map_result f items = Raise e'.
Proof.
  intros Hin Hx. induction items as [|y rest IH]; [destruct Hin |].
  simpl. destruct Hin as [-> | Hin].
  - rewrite Hx. simpl. eauto.
  - destruct (f y); simpl; [| eauto].
    destruct (IH Hin) as (e' & ->). simpl. eauto.
Qed.

(** ** The assembler *)

Lemma parse_trip_sections (conn : json) (common_data : CommonData.t) (trip : Trip.t) :
  _parse_trip conn common_data = Some trip ->
  exists secL items,
    py_get conn "secL" (JArr []) = Ok secL /\
    py_iter secL = Ok items /\
    Forall2 (fun sec_data section => parse_section sec_data = Ok section)
      items (Trip.sections trip).
Proof.
  unfold _parse_trip. destruct (_parse_trip_try conn) as [t | e] eqn:Htry; [| discriminate].
  intros [= ->]. unfold _parse_trip_try in Htry.
  inv_bind Htry as secL HsecL. inv_bind Htry as items Hitems.
  inv_bind Htry as sections Hsections.
  exists secL, items. split; [assumption |]. split; [assumption |].
  apply map_result_Forall2 in Hsections.
  inv_bind Htry as x1 H1. inv_bind Htry as x2 H2. inv_bind Htry as x3 H3.
  inv_bind Htry as x4 H4. inv_bind Htry as x5 H5. inv_bind Htry as x6 H6.
  inv_bind Htry as x7 H7. inv_bind Htry as x8 H8. inv_bind Htry as x9 H9.
  inv_bind Htry as x10 H10. inv_bind Htry as x11 H11. inv_bind Htry as x12 H12.
  inv_bind Htry as x13 H13. inv_bind Htry as x14 H14. inv_bind Htry as x15 H15.
  inv_bind Htry as x16 H16.
  injection Htry as <-. exact Hsections.
Qed.

Lemma parse_mode_payload_booking (sec_data : json) (s s' : TripSection.t) :
  parse_mode_payload sec_data s = Ok s' -> same_booking s s'.
Proof.
  unfold parse_mode_payload, same_booking. intros H.
  inv_bind H as is_walk Hwalk. destruct is_walk.
  { inv_bind H as gis_data Hg. inv_bind H as g Hgis. injection H as <-. simpl. tauto. }
  inv_bind H as is_teta Hteta. destruct is_teta.
  { inv_bind H as jny_data Hj. inv_bind H as j Hjny. injection H as <-. simpl. tauto. }
  inv_bind H as is_jny Hisjny. destruct is_jny.
  { inv_bind H as jny_data Hj. inv_bind H as j Hjny. injection H as <-. simpl. tauto. }
  injection H as <-. tauto.
Qed.

(** What the call-ahead check does to a freshly created section. *)
Lemma parse_call_ahead_flag (s s' : TripSection.t) (dep : list (string * json)) (flag : json) :
  parse_call_ahead s = Ok s' ->
  TripSection.departure s = JObj dep ->
  dict_lookup "dCaS" dep = Some flag ->
  s' = TripSection.set_booking s flag.
Proof.
  unfold parse_call_ahead. intros H Hdep Hflag. rewrite Hdep in H.
  destruct dep as [|kv dep']; [discriminate |].
  cbn [py_truthy py_contains py_getitem bind] in H. rewrite Hflag in H.
  rewrite bool_decide_eq_true_2 in H by eauto. simpl in H.
  injection H as <-. reflexivity.
Qed.

Lemma parse_call_ahead_frame (s s' : TripSection.t) :
  parse_call_ahead s = Ok s' ->
  TripSection.type s' = TripSection.type s /\
  TripSection.departure s' = TripSection.departure s /\
  TripSection.journey s' = TripSection.journey s /\
  TripSection.gis s' = TripSection.gis s.
Proof.
  unfold parse_call_ahead. intros H.
  inv_bind H as has_flag Hhas. destruct has_flag.
  - inv_bind H as flag Hflag. injection H as <-. simpl. tauto.
  - injection H as <-. tauto.
Qed.

Lemma parse_section_booking (sec_data : json) (section : TripSection.t)
    (dep : list (string * json)) (flag : json) :
  parse_section sec_data = Ok section ->
  TripSection.departure section = JObj dep ->
  dict_lookup "dCaS" dep = Some flag ->
  TripSection.call_ahead_service section = flag /\
  TripSection.booking_required section = true /\
  TripSection.booking_deadline_minutes section = Some 120.
Proof.
  unfold parse_section. intros H Hdep Hflag.
  inv_bind H as raw_type Hraw. inv_bind H as ty Hty.
  inv_bind H as dep0 Hdep0. inv_bind H as arr0 Harr0.
  inv_bind H as s1 Hs1. inv_bind H as s2 Hs2. inv_bind H as msgs Hmsgs.
  injection H as <-. simpl in Hdep |- *.
  destruct (parse_mode_payload_booking _ _ _ Hs2) as (_ & Hdep2 & -> & -> & ->).
  rewrite Hdep2 in Hdep.
  destruct (parse_call_ahead_frame _ _ Hs1) as (_ & Hdep1 & _).
  rewrite Hdep1 in Hdep.
  rewrite (parse_call_ahead_flag _ _ dep flag Hs1); [simpl; auto | exact Hdep | assumption].
Qed.

(** The departure record of an assembled section is the raw [dep] bundle. *)
Lemma parse_section_departure (sec_data : json) (section : TripSection.t) :
  parse_section sec_data = Ok section ->
  py_get sec_data "dep" JNull = Ok (TripSection.departure section).
Proof.
  unfold parse_section. intros H.
  inv_bind H as raw_type Hraw. inv_bind H as ty Hty.
  inv_bind H as dep0 Hdep0. inv_bind H as arr0 Harr0.
  inv_bind H as s1 Hs1. inv_bind H as s2 Hs2. inv_bind H as msgs Hmsgs.
  injection H as <-. simpl.
  destruct (parse_mode_payload_booking _ _ _ Hs2) as (_ & -> & _).
  destruct (parse_call_ahead_frame _ _ Hs1) as (_ & -> & _).
  exact Hdep0.
Qed.

Lemma Forall2_In_r {A B} (P : A -> B -> Prop) (l : list A) (k : list B) (y : B) :
  Forall2 P l k -> In y k -> exists x, In x l /\ P x y.
Proof.
  induction 1 as [|x y' l k Hxy _ IH]; intros Hin; [destruct Hin |].
  destruct Hin as [-> | Hin].
  - exists x. split; [left; reflexivity | assumption].
  - destruct (IH Hin) as (x' & Hx' & HP). exists x'. split; [right; assumption | assumption].
Qed.

Lemma parse_trip_section_parsed (conn : json) (common_data : CommonData.t)
    (trip : Trip.t) (section : TripSection.t) :
  _parse_trip conn common_data = Some trip ->
  In section (Trip.sections trip) ->
  exists sec_data, parse_section sec_data = Ok section.
Proof.
  intros Htrip Hin.
  destruct (parse_trip_sections conn common_data trip Htrip) as (secL & items & _ & _ & Hall).
  destruct (Forall2_In_r _ _ _ _ Hall Hin) as (sec_data & _ & Hsec). eauto.
Qed.

(** C8. Whatever the mode of a section, if its departure bundle has the key
    [dCaS] then the assembled section has [booking_required = true],
    [booking_deadline_minutes = 120] and [call_ahead_service] equal to the raw
    value under [dCaS], whatever that value is. *)
Theorem call_ahead_key_sets_booking (conn : json) (common_data : CommonData.t)
    (trip : Trip.t) (secs : list json) (i : nat) (sec_data : json)
    (dep : list (string * json)) (flag : json) :
  _parse_trip conn common_data = Some trip ->
  py_get conn "secL" (JArr []) = Ok (JArr secs) ->
  secs !! i = Some sec_data ->
  py_get sec_data "dep" JNull = Ok (JObj dep) ->
  dict_lookup "dCaS" dep = Some flag ->
  exists section,
    Trip.sections trip !! i = Some section /\
    TripSection.call_ahead_service section = flag /\
    TripSection.booking_required section = true /\
    TripSection.booking_deadline_minutes section = Some 120.
Proof.
  intros Htrip HsecL Hi Hdep Hflag.
  destruct (parse_trip_sections conn common_data trip Htrip)
    as (secL & items & HsecL' & Hitems & Hall).
  rewrite HsecL in HsecL'. injection HsecL' as <-.
  simpl in Hitems. injection Hitems as <-.
  destruct (Forall2_lookup_l _ _ _ _ _ Hall Hi) as (section & Hsection & Hparsed).
  exists section. split; [assumption |].
  apply (parse_section_booking sec_data section dep flag Hparsed); [| assumption].
  pose proof (parse_section_departure _ _ Hparsed) as Hraw.
  rewrite Hdep in Hraw. injection Hraw as <-. reflexivity.
Qed.

Lemma call_ahead_key_sets_booking_witness :
  exists trip section,
    _parse_trip (sample_connection "C-0" [sample_teta_section; sample_jny_section])
      CommonData.empty = Some trip /\
    Trip.sections trip !! 1%nat = Some section /\
    TripSection.type section = JNY /\
    TripSection.call_ahead_service section = JBool false /\
    TripSection.booking_required section = true /\
    TripSection.booking_deadline_minutes section = Some 120.
Proof.
  eexists.
  assert (Htrip : _parse_trip
                    (sample_connection "C-0" [sample_teta_section; sample_jny_section])
                    CommonData.empty = Some _) by reflexivity.
  destruct (call_ahead_key_sets_booking _ _ _
              [sample_teta_section; sample_jny_section] 1%nat sample_jny_section
              [("locX", JInt 1); ("dCaS", JBool false)] (JBool false)
              Htrip eq_refl eq_refl eq_refl eq_refl)
    as (section & Hsection & Hflag & Hreq & Hdeadline).
  exists section. split; [exact Htrip |]. split; [exact Hsection |].
  split; [| auto].
  simpl in Hsection. injection Hsection as <-. reflexivity.
Defined.

(** C5. A section of mode TETA whose departure record carries the call-ahead
    flag (the key [dCaS]) is assembled with [booking_required = true] and
    [booking_deadline_minutes = 120], whatever the other fields hold; the
    deadline is the constant of the source, not a value of the response. *)
Theorem teta_call_ahead_booking (conn : json) (common_data : CommonData.t)
    (trip : Trip.t) (section : TripSection.t) (dep : list (string * json)) (flag : json) :
  _parse_trip conn common_data = Some trip ->
  In section (Trip.sections trip) ->
  TripSection.type section = TETA ->
  TripSection.departure section = JObj dep ->
  dict_lookup "dCaS" dep = Some flag ->
  TripSection.booking_required section = true /\
  TripSection.booking_deadline_minutes section = Some 120.
Proof.
  intros Htrip Hin _ Hdep Hflag.
  destruct (parse_trip_section_parsed conn common_data trip section Htrip Hin)
    as (sec_data & Hparsed).
  apply (parse_section_booking sec_data section dep flag Hparsed Hdep Hflag).
Qed.

Lemma teta_call_ahead_booking_witness :
  exists trip section,
    _parse_trip (sample_connection "C-0" [sample_teta_section; sample_jny_section])
      CommonData.empty = Some trip /\
    In section (Trip.sections trip) /\
    TripSection.type section = TETA /\
    TripSection.booking_required section = true /\
    TripSection.booking_deadline_minutes section = Some 120.
Proof.
  eexists. eexists.
  assert (Htrip : _parse_trip
                    (sample_connection "C-0" [sample_teta_section; sample_jny_section])
                    CommonData.empty = Some _) by reflexivity.
  split; [exact Htrip |].
  split; [left; reflexivity |].
  split; [reflexivity |].
  apply (teta_call_ahead_booking _ _ _ _
           [("locX", JInt 0); ("dTimeS", JStr "081500"); ("dCaS", JBool true)]
           (JBool true) Htrip);
    [left; reflexivity | reflexivity | reflexivity | reflexivity].
Defined.

Lemma parse_polyline_indices_stops (jny_data : json) (j j' : Journey.t) :
  parse_polyline_indices jny_data j = Ok j' -> Journey.stops j' = Journey.stops j.
Proof.
  unfold parse_polyline_indices. intros H.
  inv_bind H as has_group Hgroup. inv_bind H as has_list Hlist.
  destruct has_list.
  - inv_bind H as polyG HpolyG. inv_bind H as polyXL HpolyXL.
    injection H as <-. reflexivity.
  - injection H as <-. reflexivity.
Qed.

Lemma parse_teta_journey_stops (jny_data : json) (j : Journey.t) :
  parse_teta_journey jny_data = Ok j -> Journey.stops j = [].
Proof.
  unfold parse_teta_journey. intros H.
  inv_bind H as j0 Hj0. inv_bind H as j1 Hj1. inv_bind H as msgs Hmsgs.
  injection H as <-. simpl.
  rewrite (parse_polyline_indices_stops _ _ _ Hj1).
  unfold Journey.of_jny_data in Hj0.
  destruct jny_data; try discriminate. injection Hj0 as <-. reflexivity.
Qed.

Lemma parse_section_teta_stops (sec_data : json) (section : TripSection.t) (j : Journey.t) :
  parse_section sec_data = Ok section ->
  TripSection.type section = TETA ->
  TripSection.journey section = Some j ->
  Journey.stops j = [].
Proof.
  unfold parse_section. intros H Hty Hj.
  inv_bind H as raw_type Hraw. inv_bind H as ty Htype.
  inv_bind H as dep0 Hdep0. inv_bind H as arr0 Harr0.
  inv_bind H as s1 Hs1. inv_bind H as s2 Hs2. inv_bind H as msgs Hmsgs.
  injection H as <-. simpl in Hty, Hj.
  destruct (parse_call_ahead_frame _ _ Hs1) as (Hty1 & _ & Hj1 & _).
  simpl in Hty1, Hj1.
  destruct (parse_mode_payload_booking _ _ _ Hs2) as (Hty2 & _).
  rewrite Hty2, Hty1 in Hty. subst ty.
  unfold parse_mode_payload in Hs2. rewrite Hty1 in Hs2. simpl in Hs2.
  inv_bind Hs2 as is_teta Hteta. destruct is_teta.
  - inv_bind Hs2 as jny_data Hjny. inv_bind Hs2 as j' Hj'.
    injection Hs2 as <-. simpl in Hj. injection Hj as <-.
    exact (parse_teta_journey_stops _ _ Hj').
  - injection Hs2 as <-. rewrite Hj1 in Hj. discriminate.
Qed.

(** C9. The journey attached to an assembled section of mode TETA has an
    empty stop list, whatever the raw journey payload carries: the stop list
    is read in the JNY branch only. *)
Theorem teta_journey_has_no_stops (conn : json) (common_data : CommonData.t)
    (trip : Trip.t) (section : TripSection.t) (j : Journey.t) :
  _parse_trip conn common_data = Some trip ->
  In section (Trip.sections trip) ->
  TripSection.type section = TETA ->
  TripSection.journey section = Some j ->
  Journey.stops j = [].
Proof.
  intros Htrip Hin Hty Hj.
  destruct (parse_trip_section_parsed conn common_data trip section Htrip Hin)
    as (sec_data & Hparsed).
  exact (parse_section_teta_stops sec_data section j Hparsed Hty Hj).
Qed.

(** The sample dial-a-ride section carries two raw stops; the scheduled
    section next to it keeps its two. *)
Lemma teta_journey_has_no_stops_witness :
  exists trip teta jny j j',
    py_getitem sample_teta_section "jny" = Ok (JObj
      [("jid", JStr "1|77|0"); ("prodX", JInt 0);
       ("stopL", JArr [JObj [("locX", JInt 0)]; JObj [("locX", JInt 1)]])]) /\
    _parse_trip (sample_connection "C-0" [sample_teta_section; sample_jny_section])
      CommonData.empty = Some trip /\
    Trip.sections trip = [teta; jny] /\
    TripSection.type teta = TETA /\
    TripSection.journey teta = Some j /\
    Journey.stops j = [] /\
    TripSection.journey jny = Some j' /\
    length (Journey.stops j') = 2%nat.
Proof.
  do 5 eexists.
  assert (Htrip : _parse_trip
                    (sample_connection "C-0" [sample_teta_section; sample_jny_section])
                    CommonData.empty = Some _) by reflexivity.
  split; [reflexivity |].
  split; [exact Htrip |].
  split; [reflexivity |].
  split; [reflexivity |].
  split; [reflexivity |].
  split; [| split; reflexivity].
  eapply (teta_journey_has_no_stops _ _ _ _ _ Htrip);
    [left; reflexivity | reflexivity | reflexivity].
Defined.

(** ** The batch loops *)

Lemma parse_connections_omap (conns : list json) (common_data : CommonData.t)
    (trips : list Trip.t) :
  parse_connections conns common_data trips
  = trips ++ omap (fun conn => _parse_trip conn common_data) conns.
Proof.
  revert trips. induction conns as [|conn rest IH]; intros trips; simpl.
  - rewrite app_nil_r. reflexivity.
  - destruct (_parse_trip conn common_data) as [trip |].
    + rewrite IH, <- app_assoc. reflexivity.
    + apply IH.
Qed.

Lemma parse_section_untyped (d : list (string * json)) :
  dict_lookup "type" d = None -> parse_section (JObj d) = Raise KeyError.
Proof. intros H. unfold parse_section. simpl. rewrite H. reflexivity. Qed.

Section BatchWithoutFetch.

Variable send : nat -> json -> option json.

Lemma plan_trip_connections_no_fetch (conns : list json) (trips : list Trip.t)
    (common_data : CommonData.t) (w : world) :
  plan_trip_connections send false conns trips common_data w
  = Ok (parse_connections conns common_data trips, common_data, w).
Proof.
  revert trips. induction conns as [|conn rest IH]; intros trips; simpl; [reflexivity |].
  destruct (_parse_trip conn common_data); simpl; apply IH.
Qed.

(** A connection that does not assemble is a no-op of the loop, with or
    without the walking fetch. *)
Lemma plan_trip_connections_filter (fetching : bool) (conns : list json) :
  forall trips common_data w,
    plan_trip_connections send fetching conns trips common_data w
    = plan_trip_connections send fetching (List.filter assembles conns) trips common_data w.
Proof.
  induction conns as [|conn rest IH]; intros trips common_data w; [reflexivity |].
  cbn [List.filter]. unfold assembles at 1.
  destruct (_parse_trip conn CommonData.empty) as [trip |] eqn:Htrip.
  - cbn [plan_trip_connections].
    change (_parse_trip conn common_data) with (_parse_trip conn CommonData.empty).
    rewrite Htrip.
    destruct (if fetching then fetch_walking_trip send trip common_data w
              else Ok (trip, common_data, w)) as [[[trip' c'] w'] | e]; simpl;
      [apply IH | reflexivity].
  - cbn [plan_trip_connections].
    change (_parse_trip conn common_data) with (_parse_trip conn CommonData.empty).
    rewrite Htrip. apply IH.
Qed.

End BatchWithoutFetch.

(** ** The resolver *)

Section Resolver.

Local Open Scope nat_scope.

(** The loop [for i, x in enumerate(items): table[i] = parse(x)]: every
    element lands at its own position, and nothing else changes. *)
Lemma indexed_loop {A} (parse : json -> result A) (items : list json) :
  forall (k : nat) (table table' : gmap nat A),
    for_each (fun table ix => do v <- parse (snd ix); Ok (<[fst ix := v]> table))
      (enumerate_from k items) table = Ok table' ->
    (forall j x, items !! j = Some x ->
       exists v, parse x = Ok v /\ table' !! (k + j) = Some v) /\
    (forall i, i < k \/ k + length items <= i -> table' !! i = table !! i).
Proof.
  induction items as [|x rest IH]; intros k table table' H; simpl in H.
  - injection H as <-. split; [intros j y Hj; discriminate | reflexivity].
  - inv_bind H as t1 Ht1. inv_bind Ht1 as v Hv. injection Ht1 as <-.
    destruct (IH (S k) _ _ H) as (Hin & Hout). split.
    + intros [|j] y Hj; simpl in Hj.
      * injection Hj as <-. exists v. split; [assumption |].
        rewrite Nat.add_0_r, Hout by lia. apply lookup_insert_eq.
      * destruct (Hin j y Hj) as (v' & Hv' & Hlook). exists v'.
        split; [assumption |]. rewrite <- Hlook. f_equal. lia.
    + intros i Hi. simpl in Hi. rewrite Hout by lia.
      apply lookup_insert_ne. lia.
Qed.

(** The polyline loop stores an entry at its own position when the entry
    carries [crdEncYX] and leaves that position alone otherwise. *)
Lemma polyline_loop (items : list json) :
  forall (k : nat) (table table' : gmap nat Polyline.t),
    for_each parse_polyline_entry (enumerate_from k items) table = Ok table' ->
    (forall j entry, items !! j = Some entry ->
       (py_contains "crdEncYX" entry = Ok true /\
        exists built, Polyline.of_poly_data entry = Ok built /\
                      table' !! (k + j) = Some (snd built)) \/
       (py_contains "crdEncYX" entry = Ok false /\
        table' !! (k + j) = table !! (k + j))) /\
    (forall i, i < k \/ k + length items <= i -> table' !! i = table !! i).
Proof.
  induction items as [|x rest IH]; intros k table table' H; simpl in H.
  - injection H as <-. split; [intros j y Hj; discriminate | reflexivity].
  - inv_bind H as t1 Ht1. unfold parse_polyline_entry in Ht1. simpl in Ht1.
    inv_bind Ht1 as has_geometry Hhas.
    destruct (IH (S k) _ _ H) as (Hin & Hout). split.
    + intros [|j] y Hj; simpl in Hj.
      * injection Hj as <-. rewrite Nat.add_0_r, Hout by lia.
        destruct has_geometry.
        -- inv_bind Ht1 as built Hbuilt. injection Ht1 as <-. left.
           split; [assumption |]. exists built. split; [assumption |].
           apply lookup_insert_eq.
        -- injection Ht1 as <-. right. split; [assumption | reflexivity].
      * replace (k + S j) with (S k + j) by lia.
        destruct (Hin j y Hj) as [Hstored | (Hskip & Hsame)]; [left; assumption |].
        right. split; [assumption |]. rewrite Hsame.
        destruct has_geometry.
        -- inv_bind Ht1 as built Hbuilt. injection Ht1 as <-.
           apply lookup_insert_ne. lia.
        -- injection Ht1 as <-. reflexivity.
    + intros i Hi. simpl in Hi. rewrite Hout by lia.
      destruct has_geometry.
      * inv_bind Ht1 as built Hbuilt. injection Ht1 as <-.
        apply lookup_insert_ne. lia.
      * injection Ht1 as <-. reflexivity.
Qed.

Lemma py_getitem_contains (v : json) (k : string) (x : json) :
  py_getitem v k = Ok x -> py_contains k v = Ok true.
Proof.
  destruct v; try discriminate. simpl.
  destruct (dict_lookup k fields) eqn:Hlook; [| discriminate].
  intros _. rewrite bool_decide_eq_true_2 by eauto. reflexivity.
Qed.

Lemma py_contains_missing (d : list (string * json)) (k : string) :
  dict_lookup k d = None -> py_contains k (JObj d) = Ok false.
Proof.
  intros H. simpl. rewrite H.
  rewrite bool_decide_eq_false_2; [reflexivity |]. intros [x Hx]. discriminate.
Qed.

Lemma parse_locations_positional (common : json) (items : list json)
    (table : gmap nat Location.t) :
  parse_locations common = Ok table ->
  py_getitem common "locL" = Ok (JArr items) ->
  (forall i x, items !! i = Some x ->
     exists loc, Location.from_api x = Ok loc /\ table !! i = Some loc) /\
  (forall i, length items <= i -> table !! i = None).
Proof.
  unfold parse_locations. intros H Hfield.
  rewrite (py_getitem_contains _ _ _ Hfield), Hfield in H. simpl in H.
  destruct (indexed_loop Location.from_api items 0 ∅ table H) as (Hin & Hout).
  split; [exact Hin |].
  intros i Hi. rewrite Hout by (right; simpl; lia). apply lookup_empty.
Qed.

Lemma parse_products_positional (common : json) (items : list json)
    (table : gmap nat Product.t) :
  parse_products common = Ok table ->
  py_getitem common "prodL" = Ok (JArr items) ->
  (forall i x, items !! i = Some x ->
     exists prod, Product.from_api x = Ok prod /\ table !! i = Some prod) /\
  (forall i, length items <= i -> table !! i = None).
Proof.
  unfold parse_products. intros H Hfield.
  rewrite (py_getitem_contains _ _ _ Hfield), Hfield in H. simpl in H.
  destruct (indexed_loop Product.from_api items 0 ∅ table H) as (Hin & Hout).
  split; [exact Hin |].
  intros i Hi. rewrite Hout by (right; simpl; lia). apply lookup_empty.
Qed.

Lemma parse_polylines_positional (common : json) (items : list json)
    (table : gmap nat Polyline.t) :
  parse_polylines common = Ok table ->
  py_getitem common "polyL" = Ok (JArr items) ->
  (forall i entry, items !! i = Some entry ->
     (py_contains "crdEncYX" entry = Ok true /\
      exists built, Polyline.of_poly_data entry = Ok built /\
                    table !! i = Some (snd built)) \/
     (py_contains "crdEncYX" entry = Ok false /\ table !! i = None)) /\
  (forall i, length items <= i -> table !! i = None).
Proof.
  unfold parse_polylines. intros H Hfield.
  rewrite (py_getitem_contains _ _ _ Hfield), Hfield in H. simpl in H.
  destruct (polyline_loop items 0 ∅ table H) as (Hin & Hout).
  split.
  - intros i entry Hi. destruct (Hin i entry Hi) as [Hstored | (Hskip & Hsame)].
    + left. exact Hstored.
    + right. split; [assumption |]. simpl in Hsame. rewrite Hsame. apply lookup_empty.
  - intros i Hi. rewrite Hout by (right; simpl; lia). apply lookup_empty.
Qed.

(** The tables of a resolved common block are the results of the stages. *)
Lemma parse_common_data_stages (common : json) (data : CommonData.t) :
  _parse_common_data common = Ok data ->
  parse_locations common = Ok (CommonData.locations data) /\
  parse_products common = Ok (CommonData.products data) /\
  parse_polylines common = Ok (CommonData.polylines data) /\
  CommonData.walking_polylines data = [].
Proof.
  unfold _parse_common_data. intros H.
  inv_bind H as locations Hloc. inv_bind H as products Hprod.
  inv_bind H as polylines Hpoly. inv_bind H as operators Hop.
  inv_bind H as remarks Hrem. inv_bind H as icons Hico.
  inv_bind H as has_dirs Hhas. inv_bind H as directions Hdir.
  inv_bind H as draw_styles Hsty. inv_bind H as layers Hlay.
  inv_bind H as coordinate_systems Hsys.
  injection H as <-. simpl. auto.
Qed.

End Resolver.

(** C4 (amended). A polyline entry without the key [crdEncYX] raises
    nothing and stores nothing: in the resolved common block its positional
    index is absent from the polyline table. *)
Theorem polyline_without_geometry_is_absent (common : json) (data : CommonData.t)
    (items : list json) (i : nat) (d : list (string * json)) :
  _parse_common_data common = Ok data ->
  py_getitem common "polyL" = Ok (JArr items) ->
  items !! i = Some (JObj d) ->
  dict_lookup "crdEncYX" d = None ->
  CommonData.polylines data !! i = None /\
  forall table, parse_polyline_entry table (i, JObj d) = Ok table.
Proof.
  intros Hdata Hfield Hi Hkey. split.
  - destruct (parse_common_data_stages common data Hdata) as (_ & _ & Hpoly & _).
    destruct (parse_polylines_positional common items _ Hpoly Hfield) as (Hin & _).
    destruct (Hin i (JObj d) Hi) as [(Hhas & _) | (_ & Hnone)]; [| exact Hnone].
    rewrite (py_contains_missing d "crdEncYX" Hkey) in Hhas. discriminate.
  - intros table. unfold parse_polyline_entry.
    cbn [snd]. rewrite (py_contains_missing d "crdEncYX" Hkey). reflexivity.
Qed.

Lemma polyline_without_geometry_is_absent_witness :
  exists data,
    _parse_common_data sample_common = Ok data /\
    CommonData.polylines data !! 1%nat = None /\
    forall table,
      parse_polyline_entry table (1%nat, JObj [("lDrawStyleX", JInt 1)]) = Ok table.
Proof.
  eexists.
  assert (Hdata : _parse_common_data sample_common = Ok _) by reflexivity.
  split; [exact Hdata |].
  eapply (polyline_without_geometry_is_absent sample_common _ _ 1%nat
            [("lDrawStyleX", JInt 1)] Hdata); reflexivity.
Defined.

(** C4, as stated, fails: the resolved table has no entry at the index of a
    geometry-less polyline, so in particular no empty-coordinate [Polyline]. *)
Lemma polyline_without_geometry_not_stored :
  exists data,
    _parse_common_data sample_style_only_common = Ok data /\
    CommonData.polylines data !! 0%nat = None /\
    ~ (exists p, CommonData.polylines data !! 0%nat = Some p /\
                 Polyline.coordinates p = []).
Proof.
  eexists. split; [reflexivity |].
  split; [vm_compute; reflexivity |].
  intros (p & Hp & _). vm_compute in Hp. discriminate.
Qed.

(** C6 (amended). Locations and products are stored at the indices 0..N-1
    of their list positions, each entry at its own position, nothing beyond;
    a polyline entry that carries [crdEncYX] is stored at its own position
    and one that does not leaves its index unassigned, without renumbering
    the others.  A missing list field gives an empty table and raises
    nothing.  Resolving is a function of the common block: two resolutions of
    one input give equal tables. *)
Theorem resolver_indices_positional :
  (forall common data items,
     _parse_common_data common = Ok data ->
     py_getitem common "locL" = Ok (JArr items) ->
     (forall (i : nat) x, items !! i = Some x ->
        exists loc, Location.from_api x = Ok loc /\
                    CommonData.locations data !! i = Some loc) /\
     (forall i : nat, (length items <= i)%nat -> CommonData.locations data !! i = None)) /\
  (forall common data items,
     _parse_common_data common = Ok data ->
     py_getitem common "prodL" = Ok (JArr items) ->
     (forall (i : nat) x, items !! i = Some x ->
        exists prod, Product.from_api x = Ok prod /\
                     CommonData.products data !! i = Some prod) /\
     (forall i : nat, (length items <= i)%nat -> CommonData.products data !! i = None)) /\
  (forall common data items,
     _parse_common_data common = Ok data ->
     py_getitem common "polyL" = Ok (JArr items) ->
     (forall (i : nat) entry, items !! i = Some entry ->
        (py_contains "crdEncYX" entry = Ok true /\
         exists built, Polyline.of_poly_data entry = Ok built /\
                       CommonData.polylines data !! i = Some (snd built)) \/
        (py_contains "crdEncYX" entry = Ok false /\
         CommonData.polylines data !! i = None)) /\
     (forall i : nat, (length items <= i)%nat -> CommonData.polylines data !! i = None)) /\
  (forall d data,
     _parse_common_data (JObj d) = Ok data ->
     (dict_lookup "locL" d = None -> CommonData.locations data = ∅) /\
     (dict_lookup "prodL" d = None -> CommonData.products data = ∅) /\
     (dict_lookup "polyL" d = None -> CommonData.polylines data = ∅)) /\
  (forall d,
     (dict_lookup "locL" d = None -> parse_locations (JObj d) = Ok ∅) /\
     (dict_lookup "prodL" d = None -> parse_products (JObj d) = Ok ∅) /\
     (dict_lookup "polyL" d = None -> parse_polylines (JObj d) = Ok ∅)) /\
  _parse_common_data (JObj []) = Ok CommonData.empty /\
  (forall common data data',
     _parse_common_data common = Ok data ->
     _parse_common_data common = Ok data' ->
     data' = data).
Proof.
  split.
  { intros common data items Hdata Hfield.
    destruct (parse_common_data_stages common data Hdata) as (Hloc & _).
    exact (parse_locations_positional common items _ Hloc Hfield). }
  split.
  { intros common data items Hdata Hfield.
    destruct (parse_common_data_stages common data Hdata) as (_ & Hprod & _).
    exact (parse_products_positional common items _ Hprod Hfield). }
  split.
  { intros common data items Hdata Hfield.
    destruct (parse_common_data_stages common data Hdata) as (_ & _ & Hpoly & _).
    exact (parse_polylines_positional common items _ Hpoly Hfield). }
  assert (Hstage : forall d,
            (dict_lookup "locL" d = None -> parse_locations (JObj d) = Ok ∅) /\
            (dict_lookup "prodL" d = None -> parse_products (JObj d) = Ok ∅) /\
            (dict_lookup "polyL" d = None -> parse_polylines (JObj d) = Ok ∅)).
  { intros d. repeat split; intros Hmissing.
    - unfold parse_locations. rewrite (py_contains_missing d _ Hmissing). reflexivity.
    - unfold parse_products. rewrite (py_contains_missing d _ Hmissing). reflexivity.
    - unfold parse_polylines. rewrite (py_contains_missing d _ Hmissing). reflexivity. }
  split.
  { intros d data Hdata.
    destruct (parse_common_data_stages (JObj d) data Hdata) as (Hloc & Hprod & Hpoly & _).
    destruct (Hstage d) as (Hl & Hp & Hy).
    repeat split; intros Hmissing.
    - rewrite (Hl Hmissing) in Hloc. injection Hloc as <-. reflexivity.
    - rewrite (Hp Hmissing) in Hprod. injection Hprod as <-. reflexivity.
    - rewrite (Hy Hmissing) in Hpoly. injection Hpoly as <-. reflexivity. }
  split; [exact Hstage |].
  split; [reflexivity |].
  intros common data data' H H'. rewrite H in H'. injection H' as <-. reflexivity.
Qed.

Lemma resolver_indices_positional_witness :
  exists data loc0 loc1 prod0 poly0 poly2,
    _parse_common_data sample_common = Ok data /\
    CommonData.locations data !! 0%nat = Some loc0 /\
    Location.name loc0 = JStr "Kobenhavn H" /\
    CommonData.locations data !! 1%nat = Some loc1 /\
    Location.name loc1 = JStr "Norreport St." /\
    CommonData.locations data !! 2%nat = None /\
    CommonData.products data !! 0%nat = Some prod0 /\
    Product.line prod0 = JStr "5C" /\
    CommonData.polylines data !! 0%nat = Some poly0 /\
    CommonData.polylines data !! 1%nat = None /\
    CommonData.polylines data !! 2%nat = Some poly2 /\
    Polyline.encoded poly2 = JStr "??".
Proof.
  destruct resolver_indices_positional as (Hloc & Hprod & Hpoly & _).
  assert (Hdata : exists data, _parse_common_data sample_common = Ok data)
    by (eexists; reflexivity).
  destruct Hdata as (data & Hdata).
  destruct (Hloc sample_common data _ Hdata eq_refl) as (Hloc_in & Hloc_out).
  destruct (Hprod sample_common data _ Hdata eq_refl) as (Hprod_in & _).
  destruct (Hpoly sample_common data _ Hdata eq_refl) as (Hpoly_in & _).
  destruct (Hloc_in 0%nat _ eq_refl) as (loc0 & Hparse0 & Hloc0).
  destruct (Hloc_in 1%nat _ eq_refl) as (loc1 & Hparse1 & Hloc1).
  destruct (Hprod_in 0%nat _ eq_refl) as (prod0 & Hparsep & Hprod0).
  destruct (Hpoly_in 0%nat _ eq_refl) as [(_ & built0 & Hbuilt0 & Hpoly0) | (Hno & _)];
    [| discriminate].
  destruct (Hpoly_in 1%nat _ eq_refl) as [(Hyes & _) | (_ & Hpoly1)]; [discriminate |].
  destruct (Hpoly_in 2%nat _ eq_refl) as [(_ & built2 & Hbuilt2 & Hpoly2) | (Hno & _)];
    [| discriminate].
  exists data, loc0, loc1, prod0, (snd built0), (snd built2).
  injection Hparse0 as <-. injection Hparse1 as <-. injection Hparsep as <-.
  injection Hbuilt2 as <-.
  repeat (split; [first [assumption | reflexivity | (apply Hloc_out; simpl; lia)] |]).
  reflexivity.
Defined.

(** C6, as stated, fails for the polyline table: of the N = 2 entries only
    the second is assigned, at index 1; index 0 is not in the table. *)
Lemma polyline_indices_have_gaps :
  exists data,
    _parse_common_data sample_gap_common = Ok data /\
    CommonData.polylines data !! 0%nat = None /\
    is_Some (CommonData.polylines data !! 1%nat) /\
    ~ (forall i : nat, (i < 2)%nat -> is_Some (CommonData.polylines data !! i)).
Proof.
  eexists. split; [reflexivity |].
  split; [vm_compute; reflexivity |].
  split; [vm_compute; eauto |].
  intros Hall. destruct (Hall 0%nat ltac:(lia)) as (p & Hp).
  vm_compute in Hp. discriminate.
Qed.

(** ** The walking-route cache *)

Lemma py_key_eq_str (tok : string) (k : json) :
  py_key_eq (JStr tok) k = is_str tok k.
Proof. destruct k; reflexivity. Qed.

Local Arguments py_key_eq : simpl never.

Lemma py_key_eq_str_r (tok : string) (k : json) :
  py_key_eq k (JStr tok) = true -> k = JStr tok.
Proof.
  destruct k; cbn; try discriminate; try (destruct b; discriminate).
  intros H. apply String.eqb_eq in H. congruence.
Qed.

Lemma is_str_eq (tok : string) (k : json) : is_str tok k = true -> k = JStr tok.
Proof.
  destruct k; simpl; try discriminate. intros H. apply String.eqb_eq in H. congruence.
Qed.

Lemma unhashable_not_cached (k : json) (cache : list (json * polyline_ref)) :
  hashable k = false -> cache_lookup k cache = None.
Proof.
  intros Hk. induction cache as [|[k' p] rest IH]; [reflexivity |]. simpl.
  destruct k; try discriminate; cbn; exact IH.
Qed.

Lemma cache_lookup_store (tok : string) (p : polyline_ref)
    (cache : list (json * polyline_ref)) :
  cache_lookup (JStr tok) (cache_store (JStr tok) p cache) = Some p.
Proof.
  induction cache as [|[k' p'] rest IH]; simpl.
  - rewrite py_key_eq_str. simpl. rewrite String.eqb_refl. reflexivity.
  - destruct (py_key_eq (JStr tok) k') eqn:Hk; simpl; rewrite Hk; [reflexivity | exact IH].
Qed.

Lemma cache_lookup_store_other (tok : string) (k : json) (p : polyline_ref)
    (cache : list (json * polyline_ref)) :
  is_str tok k = false ->
  cache_lookup (JStr tok) (cache_store k p cache) = cache_lookup (JStr tok) cache.
Proof.
  intros Hk. induction cache as [|[k' p'] rest IH]; simpl.
  - rewrite py_key_eq_str, Hk. reflexivity.
  - destruct (py_key_eq k k') eqn:Hkk'; simpl.
    + destruct (py_key_eq (JStr tok) k') eqn:Htok; [| reflexivity].
      rewrite py_key_eq_str in Htok. apply is_str_eq in Htok. subst k'.
      apply py_key_eq_str_r in Hkk'. subst k. simpl in Hk.
      rewrite String.eqb_refl in Hk. discriminate.
    + destruct (py_key_eq (JStr tok) k'); [reflexivity | exact IH].
Qed.

Lemma count_fetches_app (tok : string) (log : list json) (k : json) :
  count_fetches tok (log ++ [k])
  = (count_fetches tok log + (if is_str tok k then 1 else 0))%nat.
Proof. induction log as [|x rest IH]; simpl; [lia | rewrite IH; lia]. Qed.

(** A section fresh from the assembler has no polyline and no segments. *)
Lemma parse_section_gis_fresh (sec_data : json) (section : TripSection.t) (g : GisInfo.t) :
  parse_section sec_data = Ok section ->
  TripSection.gis section = Some g ->
  GisInfo.polyline g = None /\ GisInfo.segments g = [].
Proof.
  unfold parse_section. intros H Hg.
  inv_bind H as raw_type Hraw. inv_bind H as ty Htype.
  inv_bind H as dep0 Hdep0. inv_bind H as arr0 Harr0.
  inv_bind H as s1 Hs1. inv_bind H as s2 Hs2. inv_bind H as msgs Hmsgs.
  injection H as <-. simpl in Hg.
  destruct (parse_call_ahead_frame _ _ Hs1) as (_ & _ & _ & Hg1). simpl in Hg1.
  unfold parse_mode_payload in Hs2.
  inv_bind Hs2 as is_walk Hwalk. destruct is_walk.
  { inv_bind Hs2 as gis_data Hgd. inv_bind Hs2 as g0 Hg0. injection Hs2 as <-.
    simpl in Hg. injection Hg as <-.
    unfold parse_gis in Hg0. destruct gis_data; try discriminate.
    injection Hg0 as <-. split; reflexivity. }
  inv_bind Hs2 as is_teta Hteta. destruct is_teta.
  { inv_bind Hs2 as jny_data Hj. inv_bind Hs2 as j Hjny. injection Hs2 as <-.
    simpl in Hg. rewrite Hg1 in Hg. discriminate. }
  inv_bind Hs2 as is_jny Hisjny. destruct is_jny.
  { inv_bind Hs2 as jny_data Hj. inv_bind Hs2 as j Hjny. injection Hs2 as <-.
    simpl in Hg. rewrite Hg1 in Hg. discriminate. }
  injection Hs2 as <-. rewrite Hg1 in Hg. discriminate.
Qed.

Section WalkingCache.

Variable send : nat -> json -> option json.

(** A cache hit: nothing is fetched, nothing is stored, and only the
    polyline of the section's [GisInfo] changes. *)
Lemma fetch_walking_section_hit (section : TripSection.t) (g : GisInfo.t)
    (p : polyline_ref) (common_data : CommonData.t) (w : world) :
  TripSection.type section = WALK ->
  TripSection.gis section = Some g ->
  py_truthy (GisInfo.ctx g) = true ->
  cache_lookup (GisInfo.ctx g) (CommonData.walking_polylines common_data) = Some p ->
  fetch_walking_section send section common_data w
  = Ok (TripSection.set_gis section (Some (GisInfo.set_polyline g (Some p))),
        common_data, w).
Proof.
  intros Hty Hg Hctx Hhit. unfold fetch_walking_section.
  rewrite Hty, Hg, Hctx. simpl.
  destruct (hashable (GisInfo.ctx g)) eqn:Hhash.
  - rewrite Hhit. reflexivity.
  - rewrite (unhashable_not_cached _ _ Hhash) in Hhit. discriminate.
Qed.

(** A fetch that yields no polyline: the request is sent, and the section
    and the cache stay as they are. *)
Lemma fetch_walking_section_no_geometry (section : TripSection.t) (g : GisInfo.t)
    (common_data : CommonData.t) (w : world)
    (coords : list Coordinate.t) (segs : list WalkingSegment.t) :
  TripSection.type section = WALK ->
  TripSection.gis section = Some g ->
  py_truthy (GisInfo.ctx g) = true ->
  hashable (GisInfo.ctx g) = true ->
  cache_lookup (GisInfo.ctx g) (CommonData.walking_polylines common_data) = None ->
  walking_details_of_response (send (S (request_counter w)) (GisInfo.ctx g))
  = Ok (coords, segs, None) ->
  fetch_walking_section send section common_data w
  = Ok (section, common_data,
        mk_world (S (request_counter w)) (gis_requests w ++ [GisInfo.ctx g]) (heap w)).
Proof.
  intros Hty Hg Hctx Hhash Hmiss Hfetch. unfold fetch_walking_section.
  rewrite Hty, Hg, Hctx, Hhash, Hmiss. simpl.
  unfold get_walking_details. rewrite Hfetch. reflexivity.
Qed.

End WalkingCache.

Section FillSteps.

Variable send : nat -> json -> option json.

(** Every run of the loop body that does not raise is one of the steps. *)
Lemma fetch_walking_section_step (s s' : TripSection.t)
    (common_data common_data' : CommonData.t) (w w' : world) :
  fetch_walking_section send s common_data w = Ok (s', common_data', w') ->
  fill_step send s common_data w s' common_data' w'.
Proof.
  unfold fetch_walking_section. intros H.
  destruct (TransportMode_eqb (TripSection.type s) WALK) eqn:Hty.
  2: { injection H as <- <- <-. apply fill_skip. unfold has_token. rewrite Hty. reflexivity. }
  destruct (TripSection.gis s) as [g |] eqn:Hg.
  2: { injection H as <- <- <-. apply fill_skip. unfold has_token.
       rewrite Hty, Hg. reflexivity. }
  destruct (py_truthy (GisInfo.ctx g)) eqn:Hctx.
  2: { injection H as <- <- <-. apply fill_skip. unfold has_token.
       rewrite Hty, Hg, Hctx. reflexivity. }
  assert (Htoken : has_token s = true)
    by (unfold has_token; rewrite Hty, Hg, Hctx; reflexivity).
  destruct (hashable (GisInfo.ctx g)); [| discriminate].
  destruct (cache_lookup (GisInfo.ctx g) (CommonData.walking_polylines common_data))
    as [p |] eqn:Hlookup.
  { injection H as <- <- <-. apply (fill_hit send s common_data w g p); assumption. }
  inv_bind H as result Hresult.
  unfold get_walking_details in Hresult.
  inv_bind Hresult as details Hdetails.
  destruct details as [[coords segs] [pl |]]; injection Hresult as <-;
    injection H as <- <- <-.
  - apply (fill_fetched send s common_data w g coords segs pl); assumption.
  - apply (fill_failed send s common_data w g coords segs); assumption.
Qed.

Lemma fill_step_same_but_walking (s s' : TripSection.t)
    (common_data common_data' : CommonData.t) (w w' : world) :
  fill_step send s common_data w s' common_data' w' -> same_but_walking s s'.
Proof.
  intros [Hskip | g p Htoken Hg Hhit | g coords segs Htoken Hg Hmiss Hfetch
          | g coords segs pl Htoken Hg Hmiss Hfetch].
  - left. reflexivity.
  - right. exists g, (GisInfo.set_polyline g (Some p)). simpl. auto 10.
  - left. reflexivity.
  - right. eexists g, _. split; [assumption |]. split; [reflexivity |]. simpl. auto.
Qed.

Lemma fetch_walking_sections_same (sections : list TripSection.t) :
  forall common_data w sections' common_data' w',
    fetch_walking_sections send sections common_data w
    = Ok (sections', common_data', w') ->
    Forall2 same_but_walking sections sections'.
Proof.
  induction sections as [|s rest IH]; intros common_data w sections' common_data' w' H;
    simpl in H.
  - injection H as <- <- <-. constructor.
  - inv_bind H as first Hfirst. destruct first as [[s1 c1] w1].
    inv_bind H as others Hothers. destruct others as [[rest1 c2] w2].
    injection H as <- <- <-. constructor.
    + apply fetch_walking_section_step in Hfirst.
      exact (fill_step_same_but_walking _ _ _ _ _ _ Hfirst).
    + exact (IH _ _ _ _ _ Hothers).
Qed.

(** The batch of [plan_trip] returns one trip per connection that
    assembles, in order, each being the assembled trip up to the walking
    geometry of its sections. *)
Lemma plan_trip_connections_filled (fetching : bool) (conns : list json) :
  forall trips common_data w trips' common_data' w',
    plan_trip_connections send fetching conns trips common_data w
    = Ok (trips', common_data', w') ->
    exists new,
      trips' = trips ++ new /\
      Forall2 filled_from (omap (fun conn => _parse_trip conn CommonData.empty) conns) new.
Proof.
  induction conns as [|conn rest IH]; intros trips common_data w trips' common_data' w' H;
    simpl in H.
  - injection H as <- <- <-. exists []. rewrite app_nil_r. split; [reflexivity | constructor].
  - change (_parse_trip conn common_data) with (_parse_trip conn CommonData.empty) in H.
    simpl. destruct (_parse_trip conn CommonData.empty) as [trip |] eqn:Htrip.
    + inv_bind H as filled Hfilled. destruct filled as [[trip1 c1] w1].
      destruct (IH _ _ _ _ _ _ H) as (new & -> & Hnew).
      exists (trip1 :: new). rewrite <- app_assoc. split; [reflexivity |].
      constructor; [| exact Hnew].
      destruct fetching.
      * unfold fetch_walking_trip in Hfilled.
        inv_bind Hfilled as r Hr. destruct r as [[secs c] w0].
        injection Hfilled as <- <- <-. split; [reflexivity |]. simpl.
        exact (fetch_walking_sections_same _ _ _ _ _ _ Hr).
      * injection Hfilled as <- <- <-. split; [destruct trip; reflexivity |].
        clear. induction (Trip.sections trip); constructor; [left; reflexivity | assumption].
    + exact (IH _ _ _ _ _ _ H).
Qed.

End FillSteps.

(** C10. On a cache hit the fill assigns the polyline of the section's
    [GisInfo] and nothing else: the segments stay as the assembler left them
    (empty), nothing is fetched and the cache is not written. *)
Theorem cache_hit_assigns_polyline_only (send : nat -> json -> option json)
    (conn : json) (assembled_with : CommonData.t) (trip : Trip.t)
    (section : TripSection.t) (g : GisInfo.t) (p : polyline_ref)
    (common_data : CommonData.t) (w : world) :
  _parse_trip conn assembled_with = Some trip ->
  In section (Trip.sections trip) ->
  TripSection.type section = WALK ->
  TripSection.gis section = Some g ->
  py_truthy (GisInfo.ctx g) = true ->
  cache_lookup (GisInfo.ctx g) (CommonData.walking_polylines common_data) = Some p ->
  exists g',
    fetch_walking_section send section common_data w
    = Ok (TripSection.set_gis section (Some g'), common_data, w) /\
    GisInfo.polyline g' = Some p /\
    GisInfo.segments g' = GisInfo.segments g /\
    GisInfo.segments g' = [] /\
    GisInfo.distance g' = GisInfo.distance g /\
    GisInfo.duration_seconds g' = GisInfo.duration_seconds g /\
    GisInfo.ctx g' = GisInfo.ctx g /\
    GisInfo.provider g' = GisInfo.provider g.
Proof.
  intros Htrip Hin Hty Hg Hctx Hhit.
  destruct (parse_trip_section_parsed conn assembled_with trip section Htrip Hin)
    as (sec_data & Hparsed).
  destruct (parse_section_gis_fresh sec_data section g Hparsed Hg) as (_ & Hsegs).
  exists (GisInfo.set_polyline g (Some p)).
  split; [exact (fetch_walking_section_hit send section g p common_data w Hty Hg Hctx Hhit) |].
  simpl. auto 10.
Qed.

(** The first section carrying a token fetches and receives the two
    segments of the response; the same section met again with the token
    cached receives the cached address and no segments. *)
Lemma cache_hit_assigns_polyline_only_witness :
  exists trip section g fetched_section g1 common_data w g',
    _parse_trip (sample_connection "C-2" [sample_walk_section "ctx-a"]) CommonData.empty
    = Some trip /\
    Trip.sections trip = [section] /\
    TripSection.gis section = Some g /\
    fetch_walking_section online section CommonData.empty initial_world
    = Ok (fetched_section, common_data, w) /\
    TripSection.gis fetched_section = Some g1 /\
    GisInfo.polyline g1 = Some 0%nat /\
    length (GisInfo.segments g1) = 2%nat /\
    fetch_walking_section online section common_data w
    = Ok (TripSection.set_gis section (Some g'), common_data, w) /\
    GisInfo.polyline g' = Some 0%nat /\
    GisInfo.segments g' = [].
Proof.
  do 3 eexists.
  assert (Htrip : _parse_trip (sample_connection "C-2" [sample_walk_section "ctx-a"])
                    CommonData.empty = Some _) by reflexivity.
  assert (Hfirst : exists out,
            fetch_walking_section online
              (TripSection.set_messages
                 (TripSection.set_gis
                    (TripSection.create WALK (JObj [("locX", JInt 2)])
                       (JObj [("locX", JInt 3)]))
                    (Some (GisInfo.mk (JInt 250) (JStr "000400") (JStr "ctx-a")
                             (JStr "E") [] None))) [])
              CommonData.empty initial_world = Ok out)
    by (eexists; reflexivity).
  destruct Hfirst as ([[fetched_section common_data] w] & Hfirst).
  assert (Hcached : cache_lookup (JStr "ctx-a") (CommonData.walking_polylines common_data)
                    = Some 0%nat)
    by (vm_compute in Hfirst; injection Hfirst as _ <- _; reflexivity).
  destruct (cache_hit_assigns_polyline_only online _ CommonData.empty _ _ _ 0%nat
              common_data w Htrip (or_introl eq_refl) eq_refl eq_refl eq_refl Hcached)
    as (g' & Hstep & Hpoly & _ & Hsegs & _).
  eexists fetched_section, _, common_data, w, g'.
  split; [exact Htrip |]. split; [reflexivity |]. split; [reflexivity |].
  split; [exact Hfirst |].
  vm_compute in Hfirst. injection Hfirst as <- _ _.
  split; [reflexivity |]. split; [reflexivity |]. split; [reflexivity |].
  split; [exact Hstep |]. split; [exact Hpoly | exact Hsegs].
Defined.

Section Degradation.

Variable send : nat -> json -> option json.

(** Every fetch comes back without a polyline. *)
Hypothesis no_geometry :
  forall n k, exists coords segs,
    walking_details_of_response (send n k) = Ok (coords, segs, None).

Lemma fetch_walking_sections_degraded (sections : list TripSection.t)
    (common_data : CommonData.t) :
  CommonData.walking_polylines common_data = [] ->
  Forall (fun s => forall g, TripSection.gis s = Some g -> hashable (GisInfo.ctx g) = true)
    sections ->
  forall w, exists w',
    fetch_walking_sections send sections common_data w = Ok (sections, common_data, w') /\
    heap w' = heap w.
Proof.
  intros Hempty Hall. induction Hall as [|s rest Hs _ IH]; intros w; simpl.
  - exists w. split; reflexivity.
  - assert (Hstep : exists w1,
              fetch_walking_section send s common_data w = Ok (s, common_data, w1) /\
              heap w1 = heap w).
    { unfold fetch_walking_section.
      destruct (TransportMode_eqb (TripSection.type s) WALK); [| eauto].
      destruct (TripSection.gis s) as [g |] eqn:Hg; [| eauto].
      destruct (py_truthy (GisInfo.ctx g)); [| eauto].
      rewrite (Hs g eq_refl), Hempty. simpl. unfold get_walking_details.
      destruct (no_geometry (S (request_counter w)) (GisInfo.ctx g))
        as (coords & segs & ->).
      simpl. eauto. }
    destruct Hstep as (w1 & -> & Hheap1). simpl.
    destruct (IH w1) as (w2 & -> & Hheap2). simpl.
    exists w2. split; [reflexivity | congruence].
Qed.

Lemma plan_trip_connections_degraded (conns : list json) (common_data : CommonData.t) :
  CommonData.walking_polylines common_data = [] ->
  (forall conn trip s g,
     In conn conns -> _parse_trip conn common_data = Some trip ->
     In s (Trip.sections trip) -> TripSection.gis s = Some g ->
     hashable (GisInfo.ctx g) = true) ->
  forall trips w, exists w',
    plan_trip_connections send true conns trips common_data w
    = Ok (trips ++ omap (fun conn => _parse_trip conn common_data) conns,
          common_data, w') /\
    heap w' = heap w.
Proof.
  intros Hempty. induction conns as [|conn rest IH]; intros Hhash trips w; simpl.
  - exists w. rewrite app_nil_r. split; reflexivity.
  - destruct (_parse_trip conn common_data) as [trip |] eqn:Htrip.
    + unfold fetch_walking_trip.
      destruct (fetch_walking_sections_degraded (Trip.sections trip) common_data Hempty)
        with (w := w) as (w1 & -> & Hheap1).
      { apply Forall_forall. intros s Hs g Hg. apply list_elem_of_In in Hs.
        exact (Hhash conn trip s g (or_introl eq_refl) Htrip Hs Hg). }
      simpl.
      replace (Trip.set_sections trip (Trip.sections trip)) with trip
        by (destruct trip; reflexivity).
      destruct (IH (fun c t s g Hc => Hhash c t s g (or_intror Hc)) (trips ++ [trip]) w1)
        as (w2 & -> & Hheap2).
      exists w2. rewrite <- app_assoc. split; [reflexivity | congruence].
    + apply (IH (fun c t s g Hc => Hhash c t s g (or_intror Hc))).
Qed.

End Degradation.

Section FillReturns.

Variable send : nat -> json -> option json.

Hypothesis parses : transport_parses send.

(** The loop body returns when the token can be a dictionary key. *)
Lemma fetch_walking_section_returns (s : TripSection.t) (c : CommonData.t) (w : world) :
  section_hashable s = true ->
  exists out, fetch_walking_section send s c w = Ok out.
Proof.
  unfold section_hashable, fetch_walking_section. intros Hhash.
  destruct (TransportMode_eqb (TripSection.type s) WALK); [| eauto].
  destruct (TripSection.gis s) as [g |]; [| eauto].
  destruct (py_truthy (GisInfo.ctx g)); [| eauto].
  rewrite Hhash.
  destruct (cache_lookup (GisInfo.ctx g) (CommonData.walking_polylines c)); [eauto |].
  unfold get_walking_details.
  destruct (parses (S (request_counter w)) (GisInfo.ctx g)) as ([[coords segs] [p |]] & ->);
    cbn [bind]; eauto.
Qed.

(** The fill leaves the token of a section as it is. *)
Lemma fill_keeps_hashable (s s' : TripSection.t) :
  same_but_walking s s' -> section_hashable s' = section_hashable s.
Proof.
  unfold section_hashable.
  intros [-> | (g & g' & Hg & -> & _ & _ & Hctx & _)]; [reflexivity |].
  rewrite Hg. simpl. rewrite Hctx. reflexivity.
Qed.

Lemma fetch_walking_sections_returns (sections : list TripSection.t) :
  forallb section_hashable sections = true ->
  forall c w, exists out, fetch_walking_sections send sections c w = Ok out.
Proof.
  induction sections as [|s rest IH]; intros Hhash c w; cbn [fetch_walking_sections].
  - eauto.
  - cbn [forallb] in Hhash. apply andb_true_iff in Hhash as (Hs & Hrest).
    destruct (fetch_walking_section_returns s c w Hs) as ([[s1 c1] w1] & ->). cbn [bind].
    destruct (IH Hrest c1 w1) as ([[rest1 c2] w2] & ->). cbn [bind]. eauto.
Qed.

Lemma plan_trip_connections_returns (conns : list json) :
  forallb conn_hashable conns = true ->
  forall trips c w, exists out, plan_trip_connections send true conns trips c w = Ok out.
Proof.
  induction conns as [|conn rest IH]; intros Hhash trips c w;
    cbn [plan_trip_connections].
  - eauto.
  - cbn [forallb] in Hhash. apply andb_true_iff in Hhash as (Hconn & Hrest).
    unfold conn_hashable in Hconn.
    change (_parse_trip conn c) with (_parse_trip conn CommonData.empty).
    destruct (_parse_trip conn CommonData.empty) as [trip |]; [| exact (IH Hrest _ _ _)].
    unfold fetch_walking_trip.
    destruct (fetch_walking_sections_returns (Trip.sections trip) Hconn c w)
      as ([[secs c1] w1] & ->).
    cbn [bind]. exact (IH Hrest _ _ _).
Qed.

End FillReturns.

(** C3 (amended). A connection record in which a field access raises is
    assembled to [None]; this is so in particular when one of its section
    records lacks the key [type].  Without the walking fetch the batch loop
    returns, in order, the trip of every connection that assembles: an
    invalid connection removes nothing else and nothing aborts the batch.
    With the walking fetch on, whenever the loop returns it has likewise
    returned, in order, one trip per connection that assembles, equal to the
    assembled trip up to the walking geometry of its sections; and the loop
    does return when the walking fill cannot raise, that is when every token
    can be a dictionary key and [get_walking_details] parses every answer of
    the transport. *)
Theorem invalid_connection_is_skipped :
  (forall conn common_data e,
     _parse_trip_try conn = Raise e -> _parse_trip conn common_data = None) /\
  (forall conn common_data secs d,
     py_get conn "secL" (JArr []) = Ok (JArr secs) ->
     In (JObj d) secs ->
     dict_lookup "type" d = None ->
     _parse_trip conn common_data = None) /\
  (forall conns common_data,
     parse_connections conns common_data []
     = omap (fun conn => _parse_trip conn common_data) conns) /\
  (forall conns common_data conn trip,
     In conn conns ->
     _parse_trip conn common_data = Some trip ->
     In trip (parse_connections conns common_data [])) /\
  (forall send conns common_data w,
     plan_trip_connections send false conns [] common_data w
     = Ok (parse_connections conns common_data [], common_data, w)) /\
  (forall send conns common_data w trips' common_data' w',
     plan_trip_connections send true conns [] common_data w
     = Ok (trips', common_data', w') ->
     Forall2 filled_from (parse_connections conns common_data []) trips') /\
  (forall send conns common_data w,
     transport_parses send ->
     forallb conn_hashable conns = true ->
     exists trips' common_data' w',
       plan_trip_connections send true conns [] common_data w
       = Ok (trips', common_data', w') /\
       Forall2 filled_from (parse_connections conns common_data []) trips').
Proof.
  split.
  { intros conn common_data e H. unfold _parse_trip. rewrite H. reflexivity. }
  split.
  { intros conn common_data secs d HsecL Hin Htype.
    unfold _parse_trip, _parse_trip_try. rewrite HsecL. simpl.
    destruct (map_result_raises parse_section secs (JObj d) KeyError Hin
                (parse_section_untyped d Htype)) as (e' & ->).
    reflexivity. }
  split.
  { intros conns common_data. apply (parse_connections_omap conns common_data []). }
  split.
  { intros conns common_data conn trip Hin Htrip.
    rewrite (parse_connections_omap conns common_data []). simpl.
    apply list_elem_of_In, list_elem_of_omap.
    exists conn. split; [apply list_elem_of_In; assumption | assumption]. }
  split.
  { intros send conns common_data w. apply plan_trip_connections_no_fetch. }
  assert (Hfilled : forall send conns common_data w trips' common_data' w',
            plan_trip_connections send true conns [] common_data w
            = Ok (trips', common_data', w') ->
            Forall2 filled_from (parse_connections conns common_data []) trips').
  { intros send conns common_data w trips' common_data' w' H.
    destruct (plan_trip_connections_filled send true conns _ _ _ _ _ _ H)
      as (new & -> & Hnew).
    rewrite (parse_connections_omap conns common_data []). exact Hnew. }
  split; [exact Hfilled |].
  intros send conns common_data w Hparses Hhash.
  destruct (plan_trip_connections_returns send Hparses conns Hhash [] common_data w)
    as ([[trips' common_data'] w'] & Hrun).
  exists trips', common_data', w'. split; [exact Hrun |].
  exact (Hfilled _ _ _ _ _ _ _ Hrun).
Qed.

Lemma invalid_connection_is_skipped_witness :
  exists first third first' third' common_data' w',
    _parse_trip (sample_connection "C-1" [sample_jny_section; sample_untyped_section])
      CommonData.empty = None /\
    parse_connections
      [sample_connection "C-0" [sample_teta_section];
       sample_connection "C-1" [sample_jny_section; sample_untyped_section];
       sample_connection "C-2" [sample_walk_section "ctx-a"]]
      CommonData.empty [] = [first; third] /\
    Trip.id first = JStr "C-0" /\ Trip.id third = JStr "C-2" /\
    transport_parses online /\
    plan_trip_connections online true
      [sample_connection "C-0" [sample_teta_section];
       sample_connection "C-1" [sample_jny_section; sample_untyped_section];
       sample_connection "C-2" [sample_walk_section "ctx-a"]]
      [] CommonData.empty initial_world = Ok ([first'; third'], common_data', w') /\
    filled_from first first' /\ filled_from third third'.
Proof.
  destruct invalid_connection_is_skipped as (_ & Hinvalid & Homap & _ & _ & _ & Hreturns).
  assert (Hparses : transport_parses online) by (intros n k; eexists; reflexivity).
  destruct (Hreturns online
              [sample_connection "C-0" [sample_teta_section];
               sample_connection "C-1" [sample_jny_section; sample_untyped_section];
               sample_connection "C-2" [sample_walk_section "ctx-a"]]
              CommonData.empty initial_world Hparses eq_refl)
    as (trips' & common_data' & w' & Hrun & Hfilled).
  rewrite Homap in Hfilled.
  assert (Hparsed : exists first third,
            omap (fun conn => _parse_trip conn CommonData.empty)
              [sample_connection "C-0" [sample_teta_section];
               sample_connection "C-1" [sample_jny_section; sample_untyped_section];
               sample_connection "C-2" [sample_walk_section "ctx-a"]]
            = [first; third] /\
            Trip.id first = JStr "C-0" /\ Trip.id third = JStr "C-2")
    by (do 2 eexists; split; [reflexivity | split; reflexivity]).
  destruct Hparsed as (first & third & Hparsed & Hid1 & Hid3).
  rewrite Hparsed in Hfilled.
  apply Forall2_cons_inv_l in Hfilled as (first' & rest' & Hfirst & Hrest & ->).
  apply Forall2_cons_inv_l in Hrest as (third' & rest'' & Hthird & Hnil & ->).
  apply Forall2_nil_inv_l in Hnil as ->.
  exists first, third, first', third', common_data', w'.
  split.
  { apply (Hinvalid _ _ [sample_jny_section; sample_untyped_section]
             [("dep", JObj [("locX", JInt 0)]); ("arr", JObj [("locX", JInt 1)])]);
      [reflexivity | right; left; reflexivity | reflexivity]. }
  split; [rewrite Homap; exact Hparsed |].
  split; [exact Hid1 |]. split; [exact Hid3 |]. split; [exact Hparses |].
  split; [exact Hrun |]. split; [exact Hfirst | exact Hthird].
Defined.

(** C3, as stated, fails under the walking fetch: the fill has no exception
    handler, so a token that cannot be a dictionary key (here a list) aborts
    the batch with [TypeError], and the dial-a-ride connection of the same
    response, which assembles and which the batch without the fetch returns,
    yields no trip. *)
Lemma walking_fill_aborts_batch :
  (exists teta walk,
     parse_connections sample_batch_with_list_token CommonData.empty [] = [teta; walk] /\
     Trip.id teta = JStr "C-0" /\ Trip.id walk = JStr "C-3") /\
  transport_parses online /\
  plan_trip_connections online true sample_batch_with_list_token [] CommonData.empty
    initial_world = Raise TypeError /\
  plan_trip online true true
    (Some (JObj [("svcResL",
                  JArr [JObj [("meth", JStr "TripSearch");
                              ("res", JObj [("outConL",
                                             JArr sample_batch_with_list_token)])]])]))
    initial_world = Raise TypeError.
Proof.
  split; [do 2 eexists; split; [reflexivity | split; reflexivity] |].
  split; [intros n k; eexists; reflexivity |].
  split; vm_compute; reflexivity.
Qed.

(** C7 (amended). When the walking-details fetch for a WALK section fails
    (the transport returns nothing) or is answered by a response that
    [get_walking_details] parses to no polyline, the fill leaves the section
    as the assembler built it (its distance and duration, no polyline, no
    segments) and leaves the cache and the object store as they were;
    whenever the loop returns, every trip that assembled is returned, and
    the loop does return when every token can be a dictionary key and
    [get_walking_details] parses every answer of the transport; when every
    fetch parses to no polyline it returns exactly the assembled trips. *)
Theorem failed_fetch_keeps_section_and_trip :
  (forall send conn assembled_with trip section g common_data w,
     _parse_trip conn assembled_with = Some trip ->
     In section (Trip.sections trip) ->
     TripSection.type section = WALK ->
     TripSection.gis section = Some g ->
     py_truthy (GisInfo.ctx g) = true ->
     hashable (GisInfo.ctx g) = true ->
     cache_lookup (GisInfo.ctx g) (CommonData.walking_polylines common_data) = None ->
     (send (S (request_counter w)) (GisInfo.ctx g) = None \/
      exists coords segs,
        walking_details_of_response (send (S (request_counter w)) (GisInfo.ctx g))
        = Ok (coords, segs, None)) ->
     exists w',
       fetch_walking_section send section common_data w = Ok (section, common_data, w') /\
       GisInfo.polyline g = None /\
       GisInfo.segments g = [] /\
       heap w' = heap w /\
       gis_requests w' = gis_requests w ++ [GisInfo.ctx g]) /\
  (forall send fetching conns common_data w trips' common_data' w',
     plan_trip_connections send fetching conns [] common_data w
     = Ok (trips', common_data', w') ->
     Forall2 filled_from (omap (fun conn => _parse_trip conn common_data) conns) trips') /\
  (forall send conns common_data w,
     (forall n k, exists coords segs,
        walking_details_of_response (send n k) = Ok (coords, segs, None)) ->
     CommonData.walking_polylines common_data = [] ->
     (forall conn trip s g,
        In conn conns -> _parse_trip conn common_data = Some trip ->
        In s (Trip.sections trip) -> TripSection.gis s = Some g ->
        hashable (GisInfo.ctx g) = true) ->
     exists w',
       plan_trip_connections send true conns [] common_data w
       = Ok (omap (fun conn => _parse_trip conn common_data) conns, common_data, w') /\
       heap w' = heap w) /\
  (forall send conns common_data w,
     transport_parses send ->
     forallb conn_hashable conns = true ->
     exists trips' common_data' w',
       plan_trip_connections send true conns [] common_data w
       = Ok (trips', common_data', w') /\
       Forall2 filled_from (omap (fun conn => _parse_trip conn common_data) conns) trips').
Proof.
  split.
  { intros send conn assembled_with trip section g common_data w
      Htrip Hin Hty Hg Hctx Hhash Hmiss Hfail.
    destruct (parse_trip_section_parsed conn assembled_with trip section Htrip Hin)
      as (sec_data & Hparsed).
    destruct (parse_section_gis_fresh sec_data section g Hparsed Hg) as (Hpoly & Hsegs).
    assert (Hnone : exists coords segs,
              walking_details_of_response (send (S (request_counter w)) (GisInfo.ctx g))
              = Ok (coords, segs, None)).
    { destruct Hfail as [-> | Hnone]; [exists [], []; reflexivity | exact Hnone]. }
    destruct Hnone as (coords & segs & Hnone).
    eexists. split.
    - exact (fetch_walking_section_no_geometry send section g common_data w coords segs
               Hty Hg Hctx Hhash Hmiss Hnone).
    - simpl. auto. }
  split.
  { intros send fetching conns common_data w trips' common_data' w' H.
    destruct (plan_trip_connections_filled send fetching conns _ _ _ _ _ _ H)
      as (new & -> & Hnew).
    exact Hnew. }
  split.
  { intros send conns common_data w Hnone Hempty Hhash.
    exact (plan_trip_connections_degraded send Hnone conns common_data Hempty Hhash [] w). }
  intros send conns common_data w Hparses Hhash.
  destruct (plan_trip_connections_returns send Hparses conns Hhash [] common_data w)
    as ([[trips' common_data'] w'] & Hrun).
  exists trips', common_data', w'. split; [exact Hrun |].
  destruct (plan_trip_connections_filled send true conns _ _ _ _ _ _ Hrun)
    as (new & -> & Hnew).
  exact Hnew.
Qed.

Lemma failed_fetch_keeps_section_and_trip_witness :
  exists trip section g w1 first second w',
    _parse_trip (sample_connection "C-2" [sample_walk_section "ctx-a"]) CommonData.empty
    = Some trip /\
    Trip.sections trip = [section] /\
    TripSection.gis section = Some g /\
    fetch_walking_section offline section CommonData.empty initial_world
    = Ok (section, CommonData.empty, w1) /\
    GisInfo.distance g = JInt 250 /\
    GisInfo.polyline g = None /\
    GisInfo.segments g = [] /\
    parse_connections sample_shared_walks CommonData.empty [] = [first; second] /\
    plan_trip_connections offline true sample_shared_walks [] CommonData.empty initial_world
    = Ok ([first; second], CommonData.empty, w') /\
    heap w' = [] /\
    map attached (Trip.sections first) = [None; None].
Proof.
  destruct failed_fetch_keeps_section_and_trip as (Hstep & _ & Hdegraded & _).
  do 3 eexists.
  assert (Htrip : _parse_trip (sample_connection "C-2" [sample_walk_section "ctx-a"])
                    CommonData.empty = Some _) by reflexivity.
  destruct (Hstep offline _ _ _ _ _ CommonData.empty initial_world
              Htrip (or_introl eq_refl) eq_refl eq_refl eq_refl eq_refl eq_refl
              (or_introl eq_refl))
    as (w1 & Hone & Hpoly & Hsegs & _).
  destruct (Hdegraded offline sample_shared_walks CommonData.empty initial_world)
    as (w' & Hrun & Hheap).
  - intros n k. exists [], []. reflexivity.
  - reflexivity.
  - intros conn trip s g Hconn Htrip' Hs Hg.
    destruct Hconn as [<- | [<- | []]]; injection Htrip' as <-;
      (destruct Hs as [<- | [<- | []]]; [injection Hg as <-; reflexivity | discriminate])
      || (destruct Hs as [<- | [<- | []]]; [discriminate | injection Hg as <-; reflexivity]).
  - exists w1. do 2 eexists. exists w'.
    split; [exact Htrip |]. split; [reflexivity |]. split; [reflexivity |].
    split; [exact Hone |]. split; [reflexivity |].
    split; [exact Hpoly |]. split; [exact Hsegs |].
    split; [reflexivity |]. split; [exact Hrun |]. split; [exact Hheap | reflexivity].
Defined.

(** C7, as stated, fails when the answer without geometry does not parse:
    [get_walking_details] has no exception handler, and neither has the fill
    around it.  An answer whose polyline list holds a [null] carries no
    geometry, yet line 895 raises [TypeError] on it; the exception leaves
    [plan_trip], and the two trips that assembled are not returned. *)
Lemma malformed_fetch_discards_trips :
  (exists first second,
     parse_connections sample_shared_walks CommonData.empty [] = [first; second]) /\
  map_result service_polyline_entries [JObj [
    ("meth", JStr "GisRoute");
    ("res", JObj [("common", JObj [("polyL", JArr [JNull])])])]] = Ok [[JNull]] /\
  has_geometry JNull = false /\
  walking_details_of_response (malformed 2 (JStr "ctx-a")) = Raise TypeError /\
  plan_trip_connections malformed true sample_shared_walks [] CommonData.empty
    initial_world = Raise TypeError /\
  plan_trip malformed true true (Some sample_trip_search_response) initial_world
  = Raise TypeError.
Proof.
  split; [do 2 eexists; reflexivity |].
  repeat split; vm_compute; reflexivity.
Qed.

(** ** Request collapsing *)

Lemma heap_grows_refl (w : world) : heap_grows w w.
Proof. exists []. rewrite app_nil_r. reflexivity. Qed.

Lemma heap_grows_trans (w1 w2 w3 : world) :
  heap_grows w1 w2 -> heap_grows w2 w3 -> heap_grows w1 w3.
Proof.
  intros (e1 & H1) (e2 & H2). exists (e1 ++ e2). rewrite H2, H1, app_assoc. reflexivity.
Qed.

Lemma heap_grows_lookup (w w' : world) (r : polyline_ref) (p : Polyline.t) :
  heap_grows w w' -> heap w !! r = Some p -> heap w' !! r = Some p.
Proof. intros (extra & ->) H. apply lookup_app_l_Some. exact H. Qed.

Section RequestCollapsing.

Variable send : nat -> json -> option json.
Variable tok : string.
Hypothesis tok_nonempty : tok <> "".
Hypothesis served : token_served send tok.

(** Two stretches of the fill, one after the other. *)
Lemma token_outcome_seq (b1 b2 : bool) (A1 A2 : polyline_ref -> Prop)
    (c0 c1 c2 : CommonData.t) (w0 w1 w2 : world) :
  token_outcome send tok b1 A1 c0 w0 c1 w1 ->
  token_outcome send tok b2 A2 c1 w1 c2 w2 ->
  heap_grows w1 w2 ->
  token_outcome send tok (b1 || b2) (fun r => A1 r /\ A2 r) c0 w0 c2 w2.
Proof.
  unfold token_outcome. intros (Hvac1 & H1) (Hvac2 & H2) Hgrow. split.
  { intros Hb r. apply orb_false_iff in Hb as (Hb1 & Hb2). auto. }
  destruct (cache_lookup (JStr tok) (CommonData.walking_polylines c0)) as [r |].
  - destruct H1 as (Hc1 & Hn1 & Ha1). rewrite Hc1 in H2.
    destruct H2 as (Hc2 & Hn2 & Ha2). split; [assumption |]. split; [congruence | auto].
  - destruct b1; simpl.
    + destruct H1 as (r & p & Hc1 & Hn1 & Ha1 & Hheap & Hfetched). rewrite Hc1 in H2.
      destruct H2 as (Hc2 & Hn2 & Ha2). exists r, p.
      split; [assumption |]. split; [congruence |]. split; [auto |].
      split; [exact (heap_grows_lookup w1 w2 r p Hgrow Hheap) | assumption].
    + destruct H1 as (Hc1 & Hn1). rewrite Hc1 in H2.
      destruct b2.
      * destruct H2 as (r & p & Hc2 & Hn2 & Ha2 & Hheap & Hfetched). exists r, p.
        split; [assumption |]. split; [congruence |]. split; [auto |]. auto.
      * destruct H2 as (Hc2 & Hn2). split; [assumption | congruence].
Qed.

Lemma token_outcome_weaken (b : bool) (A A' : polyline_ref -> Prop)
    (c0 c1 : CommonData.t) (w0 w1 : world) :
  (forall r, A r -> A' r) ->
  token_outcome send tok b A c0 w0 c1 w1 ->
  token_outcome send tok b A' c0 w0 c1 w1.
Proof.
  unfold token_outcome. intros HA (Hvac & H). split; [auto |].
  destruct (cache_lookup (JStr tok) (CommonData.walking_polylines c0)) as [r |].
  - destruct H as (? & ? & ?). auto.
  - destruct b; [| exact H].
    destruct H as (r & p & ? & ? & ? & ? & ?). exists r, p. auto 10.
Qed.

Lemma token_outcome_idle (A : polyline_ref -> Prop) (c : CommonData.t) (w : world) :
  (forall r, A r) -> token_outcome send tok false A c w c w.
Proof.
  intros HA. split; [auto |].
  destruct (cache_lookup (JStr tok) (CommonData.walking_polylines c)) eqn:Hc; auto.
Qed.

(** A section that carries [tok] passes the guard of the fill. *)
Lemma walks_has_token (s : TripSection.t) : walks tok s = true -> has_token s = true.
Proof.
  unfold walks, has_token. intros H. apply andb_true_iff in H as (Hty & Hg).
  rewrite Hty. simpl. destruct (TripSection.gis s) as [g |]; [| discriminate].
  apply is_str_eq in Hg. rewrite Hg. simpl.
  destruct (String.eqb_spec tok ""); [contradiction | reflexivity].
Qed.

Lemma walks_ctx (s : TripSection.t) (g : GisInfo.t) :
  has_token s = true -> TripSection.gis s = Some g ->
  walks tok s = is_str tok (GisInfo.ctx g).
Proof.
  unfold walks, has_token. intros H Hg. apply andb_true_iff in H as (Hty & _).
  rewrite Hty, Hg. reflexivity.
Qed.

(** One step of the fill, seen from the token. *)
Lemma fill_step_token (s s' : TripSection.t) (c c' : CommonData.t) (w w' : world) :
  fill_step send s c w s' c' w' ->
  walks tok s' = walks tok s /\
  heap_grows w w' /\
  token_outcome send tok (walks tok s)
    (fun r => walks tok s' = true -> attached s' = Some r) c w c' w'.
Proof.
  intros [Hskip | g p Htoken Hg Hhit | g coords segs Htoken Hg Hmiss Hfetch
          | g coords segs pl Htoken Hg Hmiss Hfetch].
  - (* the guard fails *)
    split; [reflexivity |]. split; [apply heap_grows_refl |].
    assert (Hwalks : walks tok s = false).
    { destruct (walks tok s) eqn:Hw; [| reflexivity].
      apply walks_has_token in Hw. congruence. }
    rewrite Hwalks. apply token_outcome_idle. intros r Hr. discriminate.
  - (* cache hit *)
    assert (Hsame : walks tok (TripSection.set_gis s
                                 (Some (GisInfo.set_polyline g (Some p)))) = walks tok s)
      by (unfold walks; simpl; rewrite Hg; reflexivity).
    split; [exact Hsame |]. split; [apply heap_grows_refl |].
    rewrite Hsame, (walks_ctx s g Htoken Hg).
    unfold token_outcome. split; [intros Hno r Hyes; congruence |].
    destruct (is_str tok (GisInfo.ctx g)) eqn:Hstr.
    + apply is_str_eq in Hstr. rewrite Hstr in Hhit. rewrite Hhit.
      split; [reflexivity |]. split; [reflexivity |]. intros _. reflexivity.
    + destruct (cache_lookup (JStr tok) (CommonData.walking_polylines c)) as [r |];
        [| auto].
      split; [reflexivity |]. split; [reflexivity |]. intros Hyes. discriminate.
  - (* the fetch yields no polyline *)
    split; [reflexivity |].
    split; [exists []; simpl; rewrite app_nil_r; reflexivity |].
    rewrite (walks_ctx s g Htoken Hg).
    assert (Hstr : is_str tok (GisInfo.ctx g) = false).
    { destruct (is_str tok (GisInfo.ctx g)) eqn:Hstr; [| reflexivity].
      apply is_str_eq in Hstr. rewrite Hstr in Hfetch.
      destruct (served (S (request_counter w))) as (c0 & s0 & p0 & Hserved).
      rewrite Hserved in Hfetch. discriminate. }
    rewrite Hstr. unfold token_outcome. simpl.
    rewrite count_fetches_app, Hstr, Nat.add_0_r.
    split; [intros _ r Hyes; discriminate |].
    destruct (cache_lookup (JStr tok) (CommonData.walking_polylines c)) as [r |]; [| auto].
    split; [reflexivity |]. split; [reflexivity |]. intros Hyes. discriminate.
  - (* the fetch yields a polyline *)
    set (s1 := TripSection.set_gis s _).
    assert (Hsame : walks tok s1 = walks tok s)
      by (unfold walks; simpl; rewrite Hg; reflexivity).
    split; [exact Hsame |].
    split; [exists [pl]; reflexivity |].
    rewrite Hsame, (walks_ctx s g Htoken Hg).
    unfold token_outcome. simpl. rewrite count_fetches_app.
    split; [intros Hno r Hyes; congruence |].
    destruct (is_str tok (GisInfo.ctx g)) eqn:Hstr.
    + apply is_str_eq in Hstr. rewrite Hstr in *. rewrite Hmiss.
      exists (length (heap w)), pl.
      split; [apply cache_lookup_store |]. split; [lia |].
      split; [intros _; reflexivity |].
      split; [apply list_lookup_middle; reflexivity |].
      exists (S (request_counter w)), coords, segs. exact Hfetch.
    + rewrite (cache_lookup_store_other tok _ _ _ Hstr), Nat.add_0_r.
      destruct (cache_lookup (JStr tok) (CommonData.walking_polylines c)) as [r |];
        [| auto].
      split; [reflexivity |]. split; [reflexivity |]. intros Hyes. discriminate.
Qed.

Lemma fetch_walking_sections_token (sections : list TripSection.t) :
  forall c w sections' c' w',
    fetch_walking_sections send sections c w = Ok (sections', c', w') ->
    map (walks tok) sections' = map (walks tok) sections /\
    heap_grows w w' /\
    token_outcome send tok (existsb (walks tok) sections)
      (fun r => all_attached tok r sections') c w c' w'.
Proof.
  induction sections as [|s rest IH]; intros c w sections' c' w' H; simpl in H.
  - injection H as <- <- <-. split; [reflexivity |]. split; [apply heap_grows_refl |].
    apply token_outcome_idle. intros r. constructor.
  - inv_bind H as first Hfirst. destruct first as [[s1 c1] w1].
    inv_bind H as others Hothers. destruct others as [[rest1 c2] w2].
    injection H as <- <- <-.
    apply fetch_walking_section_step in Hfirst.
    destruct (fill_step_token _ _ _ _ _ _ Hfirst) as (Hsame & Hgrow1 & Hout1).
    destruct (IH _ _ _ _ _ Hothers) as (Hmap & Hgrow2 & Hout2).
    split; [simpl; congruence |].
    split; [exact (heap_grows_trans _ _ _ Hgrow1 Hgrow2) |].
    simpl. eapply token_outcome_weaken;
      [| exact (token_outcome_seq _ _ _ _ _ _ _ _ _ _ Hout1 Hout2 Hgrow2)].
    intros r (Hfirst_attached & Hrest_attached). constructor; assumption.
Qed.

Lemma plan_trip_connections_token (conns : list json) :
  forall trips c w trips' c' w',
    plan_trip_connections send true conns trips c w = Ok (trips', c', w') ->
    exists new,
      trips' = trips ++ new /\
      heap_grows w w' /\
      token_outcome send tok (existsb (conn_walks tok) conns)
        (fun r => Forall (fun trip => all_attached tok r (Trip.sections trip)) new)
        c w c' w'.
Proof.
  induction conns as [|conn rest IH]; intros trips c w trips' c' w' H; simpl in H.
  - injection H as <- <- <-. exists []. rewrite app_nil_r.
    split; [reflexivity |]. split; [apply heap_grows_refl |].
    apply token_outcome_idle. intros r. constructor.
  - change (_parse_trip conn c) with (_parse_trip conn CommonData.empty) in H.
    simpl. unfold conn_walks at 1.
    destruct (_parse_trip conn CommonData.empty) as [trip |] eqn:Htrip.
    + inv_bind H as filled Hfilled. destruct filled as [[trip1 c1] w1].
      unfold fetch_walking_trip in Hfilled.
      inv_bind Hfilled as r Hr. destruct r as [[secs c0] w0].
      injection Hfilled as <- <- <-.
      destruct (fetch_walking_sections_token _ _ _ _ _ _ Hr) as (_ & Hgrow1 & Hout1).
      destruct (IH _ _ _ _ _ _ H) as (new & -> & Hgrow2 & Hout2).
      exists (Trip.set_sections trip secs :: new). rewrite <- app_assoc.
      split; [reflexivity |].
      split; [exact (heap_grows_trans _ _ _ Hgrow1 Hgrow2) |].
      eapply token_outcome_weaken;
        [| exact (token_outcome_seq _ _ _ _ _ _ _ _ _ _ Hout1 Hout2 Hgrow2)].
      intros r (Hfirst_attached & Hrest_attached). constructor; assumption.
    + simpl. exact (IH _ _ _ _ _ _ H).
Qed.

End RequestCollapsing.

(** C1 (amended). Take a result set in which some assembled trip has a WALK
    section carrying the non-empty token [tok], and let the fill run over all
    its trips without raising.
    - If [tok] is not cached at the start and every walking-details fetch for
      [tok] returns a polyline, exactly one fetch for [tok] is issued; the
      polyline it returned is an object of the store, the cache maps [tok] to
      its address, and every WALK section carrying [tok] is attached to that
      one address.
    - If [tok] is cached at the start, no fetch for [tok] is issued and every
      WALK section carrying [tok] is attached to the cached address. *)
Theorem walking_fetch_collapsed (send : nat -> json -> option json) (tok : string)
    (conns : list json) (common_data common_data' : CommonData.t) (w w' : world)
    (trips' : list Trip.t) :
  tok <> "" ->
  token_served send tok ->
  plan_trip_connections send true conns [] common_data w = Ok (trips', common_data', w') ->
  (exists conn trip s,
     In conn conns /\ _parse_trip conn common_data = Some trip /\
     In s (Trip.sections trip) /\ walks tok s = true) ->
  (cache_lookup (JStr tok) (CommonData.walking_polylines common_data) = None ->
   count_fetches tok (gis_requests w') = S (count_fetches tok (gis_requests w)) /\
   exists r p,
     cache_lookup (JStr tok) (CommonData.walking_polylines common_data') = Some r /\
     heap w' !! r = Some p /\
     fetched send tok p /\
     forall trip s,
       In trip trips' -> In s (Trip.sections trip) -> walks tok s = true ->
       attached s = Some r) /\
  (forall r,
     cache_lookup (JStr tok) (CommonData.walking_polylines common_data) = Some r ->
     count_fetches tok (gis_requests w') = count_fetches tok (gis_requests w) /\
     cache_lookup (JStr tok) (CommonData.walking_polylines common_data') = Some r /\
     forall trip s,
       In trip trips' -> In s (Trip.sections trip) -> walks tok s = true ->
       attached s = Some r).
Proof.
  intros Htok Hserved Hrun (conn & trip & s & Hconn & Htrip & Hs & Hwalks).
  destruct (plan_trip_connections_token send tok Htok Hserved conns _ _ _ _ _ _ Hrun)
    as (new & Hnew & _ & _ & Hout).
  simpl in Hnew. subst new.
  assert (Hwalked : existsb (conn_walks tok) conns = true).
  { apply existsb_exists. exists conn. split; [assumption |].
    unfold conn_walks.
    change (_parse_trip conn CommonData.empty) with (_parse_trip conn common_data).
    rewrite Htrip. apply existsb_exists. exists s. split; assumption. }
  rewrite Hwalked in Hout.
  assert (Hall : forall r,
            Forall (fun trip => all_attached tok r (Trip.sections trip)) trips' ->
            forall trip0 s0,
              In trip0 trips' -> In s0 (Trip.sections trip0) -> walks tok s0 = true ->
              attached s0 = Some r).
  { intros r Hforall trip0 s0 Htrip0 Hs0 Hw0.
    rewrite Forall_forall in Hforall.
    specialize (Hforall trip0 (proj2 (list_elem_of_In _ _) Htrip0)).
    unfold all_attached in Hforall. rewrite Forall_forall in Hforall.
    exact (Hforall s0 (proj2 (list_elem_of_In _ _) Hs0) Hw0). }
  split.
  - intros Hmiss. rewrite Hmiss in Hout.
    destruct Hout as (r & p & Hcached & Hcount & Hattached & Hheap & Hfetched).
    split; [exact Hcount |]. exists r, p.
    split; [exact Hcached |]. split; [exact Hheap |]. split; [exact Hfetched |].
    exact (Hall r Hattached).
  - intros r Hhit. rewrite Hhit in Hout.
    destruct Hout as (Hcached & Hcount & Hattached).
    split; [exact Hcount |]. split; [exact Hcached |]. exact (Hall r Hattached).
Qed.

Lemma walking_fetch_collapsed_witness :
  exists trips' common_data' w' r p,
    plan_trip_connections online true sample_shared_walks [] CommonData.empty initial_world
    = Ok (trips', common_data', w') /\
    length trips' = 2%nat /\
    count_fetches "ctx-a" (gis_requests w') = 1%nat /\
    cache_lookup (JStr "ctx-a") (CommonData.walking_polylines common_data') = Some r /\
    heap w' !! r = Some p /\
    forall trip s,
      In trip trips' -> In s (Trip.sections trip) -> walks "ctx-a" s = true ->
      attached s = Some r.
Proof.
  assert (Hrun : exists out,
            plan_trip_connections online true sample_shared_walks [] CommonData.empty
              initial_world = Ok out) by (eexists; reflexivity).
  destruct Hrun as ([[trips' common_data'] w'] & Hrun).
  assert (Hserved : token_served online "ctx-a").
  { intros n. do 3 eexists. reflexivity. }
  assert (Hwalks : exists conn trip s,
            In conn sample_shared_walks /\
            _parse_trip conn CommonData.empty = Some trip /\
            In s (Trip.sections trip) /\ walks "ctx-a" s = true).
  { do 3 eexists. split; [left; reflexivity |]. split; [reflexivity |].
    split; [left; reflexivity | reflexivity]. }
  destruct (walking_fetch_collapsed online "ctx-a" sample_shared_walks
              CommonData.empty common_data' initial_world w' trips'
              ltac:(discriminate) Hserved Hrun Hwalks) as (Hmiss & _).
  destruct (Hmiss eq_refl) as (Hcount & r & p & Hcached & Hheap & _ & Hattached).
  exists trips', common_data', w', r, p.
  split; [exact Hrun |].
  split; [vm_compute in Hrun; injection Hrun as <- _ _; reflexivity |].
  split; [exact Hcount |]. split; [exact Hcached |]. split; [exact Hheap | exact Hattached].
Defined.

(** C1, as stated, fails when the fetch does not return a polyline: nothing
    is cached, so the second section carrying the token fetches again.  With
    the transport down, two trips sharing one token cost two fetches, and no
    section gets a polyline. *)
Lemma failed_fetch_is_repeated :
  exists first second w',
    plan_trip_connections offline true sample_shared_walks [] CommonData.empty initial_world
    = Ok ([first; second], CommonData.empty, w') /\
    existsb (walks "ctx-a") (Trip.sections first) = true /\
    existsb (walks "ctx-a") (Trip.sections second) = true /\
    gis_requests w' = [JStr "ctx-a"; JStr "ctx-a"] /\
    count_fetches "ctx-a" (gis_requests w') = 2%nat /\
    count_fetches "ctx-a" (gis_requests w') <> 1%nat /\
    cache_lookup (JStr "ctx-a") (CommonData.walking_polylines CommonData.empty) = None /\
    map attached (Trip.sections first) = [None; None] /\
    map attached (Trip.sections second) = [None; None].
Proof.
  do 3 eexists. split; [reflexivity |].
  repeat split; try reflexivity. simpl. discriminate.
Qed.

(** ** [plan_trip] on a response with one TripSearch service *)

Lemma bind_Ok_r {A} (m : result A) : bind m Ok = m.
Proof. destruct m; reflexivity. Qed.

(** The trips and common data [plan_trip] returns for such a response are
    those of the connection loop run on the resolved common block, so the
    statements about [plan_trip_connections] are statements about what the
    caller of [plan_trip] receives. *)
Lemma plan_trip_single_search (send : nat -> json -> option json)
    (auto_fetch_walking get_polylines : bool)
    (res : list (string * json)) (common : json) (conns : list json) (w : world) :
  dict_lookup "common" res = Some common ->
  dict_lookup "outConL" res = Some (JArr conns) ->
  plan_trip send auto_fetch_walking get_polylines
    (Some (JObj [("svcResL",
                  JArr [JObj [("meth", JStr "TripSearch"); ("res", JObj res)]])])) w
  = (do common_data <- _parse_common_data common;
     plan_trip_connections send (auto_fetch_walking && get_polylines) conns []
       common_data w).
Proof.
  intros Hcommon Hconns. unfold plan_trip.
  cbn [py_truthy negb py_contains py_getitem py_iter dict_lookup String.eqb Ascii.eqb
       Bool.eqb bind for_each bool_decide].
  rewrite bool_decide_eq_true_2 by eauto. cbn [negb bind py_getitem dict_lookup
       String.eqb Ascii.eqb Bool.eqb py_iter for_each].
  rewrite bind_Ok_r. unfold plan_trip_service.
  cbn [py_get dict_get dict_lookup String.eqb Ascii.eqb Bool.eqb bind is_str
       py_contains py_getitem].
  rewrite bool_decide_eq_true_2 by eauto. cbn [bind py_contains py_getitem].
  rewrite Hcommon. rewrite bool_decide_eq_true_2 by eauto. cbn [bind].
  destruct (_parse_common_data common) as [common_data | e]; [| reflexivity].
  cbn [bind py_get]. unfold dict_get. rewrite Hconns. reflexivity.
Qed.

(* ===================================================================== *)
(** * Part II, continued. Further properties of the code *)
(* ===================================================================== *)

(** ** The codec *)

Section CodecFurther.

Local Abbreviation varints := (ref_varints code_continuation).

Lemma ref_varints_length (continues : Z -> bool) (input : list Z) :
  (length (ref_varints continues input) <= length input)%nat.
Proof.
  induction input as [|c rest IH]; simpl; [lia |].
  destruct (continues (c - 63)); [| simpl; lia].
  destruct (ref_varints continues rest); simpl in *; lia.
Qed.

Lemma ref_pairs_length (deltas : list Z) :
  (2 * length (ref_pairs deltas) <= length deltas)%nat.
Proof.
  assert (H : (2 * length (ref_pairs deltas) <= length deltas)%nat /\
              forall a, (2 * length (ref_pairs (a :: deltas)) <= S (length deltas))%nat).
  { induction deltas as [|b rest [IH1 IH2]]; [simpl; split; [lia | intros; lia] |].
    split; [apply IH2 |]. intros a. simpl in *. lia. }
  apply H.
Qed.

Lemma ref_accumulate_length (lat lon : Z) (deltas : list (Z * Z)) :
  length (ref_accumulate lat lon deltas) = length deltas.
Proof.
  revert lat lon. induction deltas as [|[a b] rest IH]; intros lat lon; simpl;
    [reflexivity | rewrite IH; reflexivity].
Qed.

Lemma decode_polyline_points_bound (encoded : list Z) (points : list (float * float)) :
  decode_polyline encoded = Some (Ok points) ->
  (2 * length points <= length encoded)%nat.
Proof.
  rewrite decode_polyline_ref. unfold ref_decode. intros H.
  destruct (map_degrees_outcome (ref_path code_continuation encoded))
    as [(points' & Hpoints & Hlen) | Hraise]; [| congruence].
  rewrite Hpoints in H. injection H as <-.
  rewrite Hlen. unfold ref_path. rewrite ref_accumulate_length.
  pose proof (ref_pairs_length (map ref_zigzag (varints encoded))) as Hpairs.
  rewrite length_map in Hpairs.
  pose proof (ref_varints_length code_continuation encoded). lia.
Qed.

(** X1. [decode_polyline] terminates on every input: it returns a list with
    at most one point per two characters, or it raises [OverflowError] and
    nothing else; on an input of at most 204 characters it returns. *)
Theorem decode_polyline_length_bound (encoded : list Z) :
  ((exists points,
      decode_polyline encoded = Some (Ok points) /\
      (2 * length points <= length encoded)%nat) \/
   decode_polyline encoded = Some (Raise OverflowError)) /\
  ((length encoded <= 204)%nat ->
   exists points, decode_polyline encoded = Some (Ok points)).
Proof.
  split; [| apply decode_polyline_short].
  destruct (map_degrees_outcome (ref_path code_continuation encoded))
    as [(points & Hpoints & _) | Hraise].
  - left. exists points.
    assert (Hdecoded : decode_polyline encoded = Some (Ok points)).
    { rewrite decode_polyline_ref. unfold ref_decode. rewrite Hpoints. reflexivity. }
    split; [exact Hdecoded | exact (decode_polyline_points_bound _ _ Hdecoded)].
  - right. rewrite decode_polyline_ref. unfold ref_decode. rewrite Hraise. reflexivity.
Qed.

End CodecFurther.

Lemma decode_polyline_length_bound_witness :
  (length (code_points "kuzrIqyjkA") <= 204)%nat /\
  exists points, decode_polyline (code_points "kuzrIqyjkA") = Some (Ok points).
Proof.
  assert (Hshort : (length (code_points "kuzrIqyjkA") <= 204)%nat)
    by (vm_compute; lia).
  split; [exact Hshort |].
  exact (proj2 (decode_polyline_length_bound (code_points "kuzrIqyjkA")) Hshort).
Defined.

Lemma zigzag_round_trip (d : Z) : zigzag_decode (zigzag_encode d) = d.
Proof.
  rewrite zigzag_decode_ref. unfold ref_zigzag, zigzag_encode.
  pose proof (Zmod_odd (if d <? 0 then - 2 * d - 1 else 2 * d)) as Hodd.
  destruct (Z.ltb_spec d 0);
    destruct (Z.odd _); Z.div_mod_to_equations; lia.
Qed.

Lemma ref_zigzag_injective (m m' : Z) :
  0 <= m -> 0 <= m' -> ref_zigzag m = ref_zigzag m' -> m = m'.
Proof.
  unfold ref_zigzag. intros Hm Hm'.
  pose proof (Zmod_odd m) as Hodd. pose proof (Zmod_odd m') as Hodd'.
  destruct (Z.odd m); destruct (Z.odd m'); intros H; Z.div_mod_to_equations; lia.
Qed.

(** X2. The sign decoding [(~(result >> 1)) if (result & 1) else (result >> 1)]
    is a bijection from the non-negative magnitudes onto the integers: every
    delta, positive or negative, is the decoding of exactly one magnitude. *)
Theorem zigzag_decode_bijective (d : Z) :
  exists m,
    0 <= m /\ zigzag_decode m = d /\
    forall m', 0 <= m' -> zigzag_decode m' = d -> m' = m.
Proof.
  exists (zigzag_encode d).
  split; [unfold zigzag_encode; destruct (Z.ltb_spec d 0); lia |].
  split; [apply zigzag_round_trip |].
  intros m' Hm' Hd. apply ref_zigzag_injective; [assumption | |].
  - unfold zigzag_encode; destruct (Z.ltb_spec d 0); lia.
  - rewrite <- !zigzag_decode_ref, zigzag_round_trip. exact Hd.
Qed.

Section CodecRoundTrip.

Local Abbreviation varints := (ref_varints code_continuation).

Lemma encode_groups_varint (fuel : nat) :
  forall m,
    0 <= m -> (Z.to_nat m <= fuel)%nat ->
    Forall in_alphabet (encode_groups fuel m) /\
    forall rest, varints (encode_groups fuel m ++ rest) = m :: varints rest.
Proof.
  induction fuel as [|fuel IH]; intros m Hm Hfuel.
  - assert (m = 0) as -> by lia. simpl. split; [| reflexivity].
    constructor; [unfold in_alphabet; lia | constructor].
  - cbn [encode_groups]. destruct (Z.ltb_spec m 32) as [Hsmall | Hbig].
    + split; [constructor; [unfold in_alphabet; lia | constructor] |].
      intros rest. simpl. replace (m + 63 - 63) with m by lia.
      unfold code_continuation. destruct (Z.leb_spec 32 m); [lia |].
      rewrite Z.mod_small by lia. reflexivity.
    + assert (Hdiv : 0 <= m / 32 < m) by (Z.div_mod_to_equations; lia).
      assert (Hmod : 0 <= m mod 32 < 32) by (apply Z.mod_pos_bound; lia).
      destruct (IH (m / 32)) as (Halpha & Hrest); [lia | lia |].
      split; [constructor; [unfold in_alphabet; lia | exact Halpha] |].
      intros rest. cbn [app ref_varints].
      replace (m mod 32 + 32 + 63 - 63) with (m mod 32 + 32) by lia.
      unfold code_continuation at 1.
      destruct (Z.leb_spec 32 (m mod 32 + 32)); [| lia].
      rewrite Hrest. f_equal. Z.div_mod_to_equations. lia.
Qed.

Lemma encode_delta_varint (d : Z) :
  Forall in_alphabet (encode_delta d) /\
  forall rest, varints (encode_delta d ++ rest) = zigzag_encode d :: varints rest.
Proof.
  apply encode_groups_varint; [| lia].
  unfold zigzag_encode. destruct (Z.ltb_spec d 0); lia.
Qed.

Lemma encode_from_decoded (points : list (Z * Z)) :
  forall lat lon,
    Forall in_alphabet (encode_from lat lon points) /\
    ref_accumulate lat lon
      (ref_pairs (map ref_zigzag (varints (encode_from lat lon points)))) = points.
Proof.
  induction points as [|[lat' lon'] rest IH]; intros lat lon; simpl.
  - split; [constructor | reflexivity].
  - destruct (encode_delta_varint (lat' - lat)) as (Ha1 & Hv1).
    destruct (encode_delta_varint (lon' - lon)) as (Ha2 & Hv2).
    destruct (IH lat' lon') as (Ha3 & Hv3).
    split; [rewrite !Forall_app; auto |].
    rewrite Hv1, Hv2. cbn [map ref_pairs ref_accumulate].
    rewrite <- !zigzag_decode_ref, !zigzag_round_trip.
    replace (lat + (lat' - lat)) with lat' by lia.
    replace (lon + (lon' - lon)) with lon' by lia.
    rewrite Hv3. reflexivity.
Qed.

(** X3. Round trip: every path of points on the 1e-5 degree grid, encoded
    as the specification describes (deltas, zig-zag, 5-bit groups with a
    continuation bit, offset 63), is a string of the alphabet 63..126, and
    what [decode_polyline] makes of it is that path, point by point, in
    degrees: the doubles [lat / 1e5] and [lon / 1e5], or [OverflowError] when
    a coordinate does not convert to a double.  A path whose coordinates are
    all below 2^1024 - 2^970 in magnitude comes back whole. *)
Theorem decode_polyline_round_trip (points : list (Z * Z)) :
  Forall in_alphabet (encode_polyline points) /\
  decode_polyline (encode_polyline points) = Some (map_result ref_degrees points) /\
  (Forall (within float_limit) points ->
   exists coordinates,
     decode_polyline (encode_polyline points) = Some (Ok coordinates) /\
     length coordinates = length points).
Proof.
  destruct (encode_from_decoded points 0 0) as (Halpha & Hdecoded).
  assert (Hround : decode_polyline (encode_polyline points)
                   = Some (map_result ref_degrees points)).
  { rewrite decode_polyline_ref. unfold ref_decode, ref_path, encode_polyline.
    rewrite Hdecoded. reflexivity. }
  split; [exact Halpha |]. split; [exact Hround |].
  intros Hsmall. rewrite Hround.
  destruct (map_degrees_returns points Hsmall) as (coordinates & -> & Hlen).
  exists coordinates. split; [reflexivity | exact Hlen].
Qed.

Lemma decode_polyline_round_trip_witness :
  Forall (within float_limit) [(5568358, 1251241); (5568429, 1250843)] /\
  exists coordinates,
    decode_polyline (encode_polyline [(5568358, 1251241); (5568429, 1250843)])
    = Some (Ok coordinates) /\
    length coordinates = 2%nat.
Proof.
  assert (Hsmall : Forall (within float_limit) [(5568358, 1251241); (5568429, 1250843)]).
  { repeat constructor; vm_compute; reflexivity. }
  split; [exact Hsmall |].
  exact (proj2 (proj2 (decode_polyline_round_trip _)) Hsmall).
Defined.

Lemma complete_pairs_split (body : list Z) :
  complete_pairs body ->
  exists pairs,
    forall rest,
      ref_pairs (map ref_zigzag (varints (body ++ rest)))
      = pairs ++ ref_pairs (map ref_zigzag (varints rest)).
Proof.
  induction 1 as [|dlat dlon tail Hdlat Hdlon _ (pairs & IH)].
  - exists []. reflexivity.
  - destruct (varints_terminated dlat Hdlat) as (m1 & H1).
    destruct (varints_terminated dlon Hdlon) as (m2 & H2).
    exists ((ref_zigzag m1, ref_zigzag m2) :: pairs). intros rest.
    rewrite <- !app_assoc, H1, H2. cbn [map ref_pairs]. rewrite IH. reflexivity.
Qed.

Lemma ref_accumulate_shift (lat lon : Z) (deltas : list (Z * Z)) :
  ref_accumulate lat lon deltas
  = map (fun p => (fst p + lat, snd p + lon)) (ref_accumulate 0 0 deltas).
Proof.
  revert lat lon. induction deltas as [|[a b] rest IH]; intros lat lon; [reflexivity |].
  cbn [ref_accumulate map fst snd].
  rewrite (IH (lat + a) (lon + b)), (IH (0 + a) (0 + b)), map_map.
  f_equal; [f_equal; lia |].
  apply map_ext. intros [x y]. simpl. f_equal; lia.
Qed.

Lemma last_cons_default {A} (l : list A) (x d : A) :
  List.last (x :: l) d = List.last l x.
Proof.
  revert x d. induction l as [|y l IH]; intros x d; [reflexivity |].
  change (List.last (x :: y :: l) d) with (List.last (y :: l) d).
  rewrite (IH y d), (IH y x). reflexivity.
Qed.

Lemma ref_accumulate_app (lat lon : Z) (ps qs : list (Z * Z)) :
  ref_accumulate lat lon (ps ++ qs)
  = ref_accumulate lat lon ps
    ++ ref_accumulate
         (fst (List.last (ref_accumulate lat lon ps) (lat, lon)))
         (snd (List.last (ref_accumulate lat lon ps) (lat, lon))) qs.
Proof.
  revert lat lon. induction ps as [|[a b] rest IH]; intros lat lon; [reflexivity |].
  cbn [app ref_accumulate]. rewrite IH, last_cons_default. reflexivity.
Qed.

(** The path of an input that starts with complete pairs: the path of
    those pairs, then the path of the rest moved to their last point. *)
Lemma ref_path_app (body rest : list Z) :
  complete_pairs body ->
  ref_path code_continuation (body ++ rest)
  = ref_path code_continuation body
    ++ map (translate (last_point (ref_path code_continuation body)))
         (ref_path code_continuation rest).
Proof.
  intros Hbody. destruct (complete_pairs_split body Hbody) as (pairs & Hsplit).
  unfold ref_path, last_point.
  pose proof (Hsplit []) as Hbody_pairs. rewrite app_nil_r in Hbody_pairs.
  simpl in Hbody_pairs. rewrite app_nil_r in Hbody_pairs.
  rewrite Hsplit, Hbody_pairs, ref_accumulate_app. f_equal.
  rewrite ref_accumulate_shift. apply map_ext. intros [a b]. reflexivity.
Qed.

End CodecRoundTrip.

Lemma map_result_app {A B} (f : A -> result B) (xs ys : list A) :
  map_result f (xs ++ ys)
  = (do a <- map_result f xs; do b <- map_result f ys; Ok (a ++ b)).
Proof.
  induction xs as [|x xs IH]; cbn [app map_result].
  - cbn [bind]. destruct (map_result f ys); reflexivity.
  - destruct (f x) as [y | e]; cbn [bind]; [| reflexivity].
    rewrite IH. destruct (map_result f xs) as [a | e]; cbn [bind]; [| reflexivity].
    destruct (map_result f ys) as [b | e]; reflexivity.
Qed.

Lemma map_result_length {A B} (f : A -> result B) (xs : list A) (ys : list B) :
  map_result f xs = Ok ys -> length ys = length xs.
Proof.
  revert ys. induction xs as [|x xs IH]; intros ys H; cbn [map_result] in H.
  - injection H as <-. reflexivity.
  - destruct (f x) as [y | e]; cbn [bind] in H; [| discriminate].
    destruct (map_result f xs) as [a | e]; cbn [bind] in H; [| discriminate].
    injection H as <-. simpl. rewrite (IH a eq_refl). reflexivity.
Qed.

(** X4. Decoding composes by translation: when the input starts with
    complete (latitude, longitude) pairs, the integers [decode_polyline]
    accumulates are those of the pairs followed by those of the rest moved to
    start at the last point of the pairs, and its outcome is their conversion
    to degrees.  So the points decoded from the complete pairs are a prefix
    of the points decoded from the whole input, which has one more point per
    point of the rest. *)
Theorem decode_polyline_app (body rest : list Z) :
  complete_pairs body ->
  decode_polyline (body ++ rest)
  = Some (map_result ref_degrees
            (ref_path code_continuation body
             ++ map (translate (last_point (ref_path code_continuation body)))
                  (ref_path code_continuation rest))) /\
  forall all,
    decode_polyline (body ++ rest) = Some (Ok all) ->
    exists points tail,
      decode_polyline body = Some (Ok points) /\
      all = points ++ tail /\
      length tail = length (ref_path code_continuation rest).
Proof.
  intros Hbody.
  assert (Happ : decode_polyline (body ++ rest)
                 = Some (map_result ref_degrees
                           (ref_path code_continuation body
                            ++ map (translate
                                      (last_point (ref_path code_continuation body)))
                                 (ref_path code_continuation rest)))).
  { rewrite decode_polyline_ref. unfold ref_decode.
    rewrite (ref_path_app body rest Hbody). reflexivity. }
  split; [exact Happ |].
  intros all Hall. rewrite Happ, map_result_app in Hall.
  rewrite decode_polyline_ref. unfold ref_decode.
  destruct (map_result ref_degrees (ref_path code_continuation body))
    as [points | e]; cbn [bind] in Hall; [| discriminate].
  destruct (map_result ref_degrees (map _ (ref_path code_continuation rest)))
    as [tail | e] eqn:Htail; cbn [bind] in Hall; [| discriminate].
  injection Hall as <-. exists points, tail.
  split; [reflexivity |]. split; [reflexivity |].
  rewrite (map_result_length _ _ _ Htail), length_map. reflexivity.
Qed.

Lemma decode_polyline_app_witness :
  exists points tail,
    complete_pairs (code_points "kuzrIqyjkA") /\
    decode_polyline (code_points "kuzrIqyjkA" ++ code_points "mCzW")
    = Some (map_result ref_degrees [(5568358, 1251241); (5568429, 1250843)]) /\
    decode_polyline (code_points "kuzrIqyjkA") = Some (Ok points) /\
    decode_polyline (code_points "kuzrIqyjkA" ++ code_points "mCzW")
    = Some (Ok (points ++ tail)) /\
    length tail = 1%nat.
Proof.
  assert (Hpairs : complete_pairs (code_points "kuzrIqyjkA")).
  { apply (complete_pair (code_points "kuzrI") (code_points "qyjkA") []).
    - exists (code_points "kuzr"), (ord "I"). unfold continuing.
      split; [reflexivity |]. split; [| unfold ord; simpl; lia].
      unfold code_points, ord; simpl; repeat (constructor; [lia |]); constructor.
    - exists (code_points "qyjk"), (ord "A"). unfold continuing.
      split; [reflexivity |]. split; [| unfold ord; simpl; lia].
      unfold code_points, ord; simpl; repeat (constructor; [lia |]); constructor.
    - apply complete_nil. }
  destruct (decode_polyline_app (code_points "kuzrIqyjkA") (code_points "mCzW") Hpairs)
    as (Happ & Hprefix).
  assert (Hrun : exists all,
            decode_polyline (code_points "kuzrIqyjkA" ++ code_points "mCzW")
            = Some (Ok all)) by (eexists; vm_compute; reflexivity).
  destruct Hrun as (all & Hall).
  destruct (Hprefix all Hall) as (points & tail & Hpoints & -> & Hlen).
  exists points, tail.
  split; [exact Hpairs |].
  split; [rewrite Happ; vm_compute; reflexivity |].
  split; [exact Hpoints |]. split; [exact Hall |].
  rewrite Hlen. vm_compute. reflexivity.
Defined.

(** ** The resolver, further *)

Lemma for_each_raises {A S} (body : S -> A -> result S) (items : list A) (x : A) :
  (forall st, exists e, body st x = Raise e) ->
  In x items ->
  forall st, exists e, for_each body items st = Raise e.
Proof.
  intros Hx. induction items as [|y rest IH]; intros Hin st; [destruct Hin |].
  simpl. destruct Hin as [-> | Hin].
  - destruct (Hx st) as (e & ->). simpl. eauto.
  - destruct (body st y) as [st' | e]; simpl; [apply (IH Hin) | eauto].
Qed.

Lemma enumerate_from_In {A} (items : list A) (x : A) :
  forall k, In x items -> exists i, In (i, x) (enumerate_from k items).
Proof.
  induction items as [|y rest IH]; intros k Hin; [destruct Hin |].
  destruct Hin as [-> | Hin].
  - exists k. left. reflexivity.
  - destruct (IH (S k) Hin) as (i & Hi). exists i. right. exact Hi.
Qed.

Lemma Location_from_api_not_dict (x : json) :
  is_dict x = false -> exists e, Location.from_api x = Raise e.
Proof.
  intros Hx. unfold Location.from_api.
  destruct x; try discriminate; simpl; eauto.
  - destruct (is_substring "crd" s); simpl; eauto.
  - destruct (existsb (is_str "crd") items); simpl; eauto.
Qed.

Lemma Product_from_api_not_dict (x : json) :
  is_dict x = false -> exists e, Product.from_api x = Raise e.
Proof. intros Hx. destruct x; try discriminate; simpl; eauto. Qed.

Lemma parse_locations_raises (common : json) (items : list json) (x : json) (e : exn) :
  py_getitem common "locL" = Ok (JArr items) ->
  In x items ->
  Location.from_api x = Raise e ->
  exists e', parse_locations common = Raise e'.
Proof.
  intros Hfield Hin Hx. unfold parse_locations.
  rewrite (py_getitem_contains _ _ _ Hfield), Hfield. simpl.
  destruct (enumerate_from_In items x 0%nat Hin) as (i & Hi).
  apply (for_each_raises _ _ (i, x)); [| exact Hi].
  intros st. simpl. rewrite Hx. simpl. eauto.
Qed.

Lemma parse_products_raises (common : json) (items : list json) (x : json) (e : exn) :
  py_getitem common "prodL" = Ok (JArr items) ->
  In x items ->
  Product.from_api x = Raise e ->
  exists e', parse_products common = Raise e'.
Proof.
  intros Hfield Hin Hx. unfold parse_products.
  rewrite (py_getitem_contains _ _ _ Hfield), Hfield. simpl.
  destruct (enumerate_from_In items x 0%nat Hin) as (i & Hi).
  apply (for_each_raises _ _ (i, x)); [| exact Hi].
  intros st. simpl. rewrite Hx. simpl. eauto.
Qed.

(** X5. The resolver is all or nothing: unlike the trip assembler it has no
    [try], so one location or product entry whose [from_api] raises (any
    entry that is not a JSON object does) makes [_parse_common_data] raise,
    and no table at all is returned. *)
Theorem resolver_all_or_nothing (common : json) (items : list json) (x : json) :
  (py_getitem common "locL" = Ok (JArr items) /\
   (is_dict x = false \/ exists e, Location.from_api x = Raise e)) \/
  (py_getitem common "prodL" = Ok (JArr items) /\
   (is_dict x = false \/ exists e, Product.from_api x = Raise e)) ->
  In x items ->
  exists e', _parse_common_data common = Raise e'.
Proof.
  intros [(Hfield & Hbad) | (Hfield & Hbad)] Hin; unfold _parse_common_data.
  - assert (Hraise : exists e, Location.from_api x = Raise e).
    { destruct Hbad as [Hx | Hx]; [apply Location_from_api_not_dict |]; assumption. }
    destruct Hraise as (e & Hx).
    destruct (parse_locations_raises common items x e Hfield Hin Hx) as (e' & ->).
    simpl. eauto.
  - assert (Hraise : exists e, Product.from_api x = Raise e).
    { destruct Hbad as [Hx | Hx]; [apply Product_from_api_not_dict |]; assumption. }
    destruct Hraise as (e & Hx).
    destruct (parse_products_raises common items x e Hfield Hin Hx) as (e' & ->).
    destruct (parse_locations common); simpl; eauto.
Qed.

Lemma resolver_all_or_nothing_witness :
  exists e', _parse_common_data sample_broken_common = Raise e'.
Proof.
  apply (resolver_all_or_nothing sample_broken_common
           [JObj [("lid", JStr "A=1@L=8600626@")]; JStr "8600646"] (JStr "8600646")).
  - left. split; [reflexivity | left; reflexivity].
  - right. left. reflexivity.
Defined.

Lemma code_points_length (s : string) : length (code_points s) = String.length s.
Proof.
  unfold code_points. rewrite length_map.
  induction s as [|c s IH]; simpl; [reflexivity | rewrite IH; reflexivity].
Qed.

Lemma of_poly_data_string (d : list (string * json)) (s : string)
    (built : list Coordinate.t * Polyline.t) :
  dict_lookup "crdEncYX" d = Some (JStr s) ->
  Polyline.of_poly_data (JObj d) = Ok built ->
  exists points,
    decode_polyline_str s = Some (Ok points) /\
    Polyline.encoded (snd built) = JStr s /\
    Polyline.coordinates (snd built)
    = map (fun q => Coordinate.of_lat_lon (fst q) (snd q)) points.
Proof.
  intros Hgeo. unfold Polyline.of_poly_data. simpl. rewrite Hgeo. simpl.
  unfold decode_polyline_value. simpl.
  destruct (String.eqb_spec s "") as [-> | Hs]; simpl.
  - intros H. injection H as <-. exists []. repeat split; reflexivity.
  - unfold run_decode, decode_polyline_str.
    destruct (decode_polyline (code_points s)) as [[points | e] |]; simpl;
      try discriminate.
    intros H. injection H as <-. exists points. repeat split; reflexivity.
Qed.

(** X6. Resolver and codec compose: when the resolver returns, a polyline
    entry whose [crdEncYX] is a string has, at its position in the table, a
    [Polyline] that keeps the encoded string and whose coordinates are its
    decoding, at most one point per two characters. *)
Theorem resolved_polyline_is_decoded (common : json) (data : CommonData.t)
    (items : list json) (i : nat) (d : list (string * json)) (s : string) :
  _parse_common_data common = Ok data ->
  py_getitem common "polyL" = Ok (JArr items) ->
  items !! i = Some (JObj d) ->
  dict_lookup "crdEncYX" d = Some (JStr s) ->
  exists p points,
    CommonData.polylines data !! i = Some p /\
    Polyline.encoded p = JStr s /\
    decode_polyline_str s = Some (Ok points) /\
    Polyline.coordinates p = map (fun q => Coordinate.of_lat_lon (fst q) (snd q)) points /\
    (2 * length (Polyline.coordinates p) <= String.length s)%nat.
Proof.
  intros Hdata Hfield Hi Hgeo.
  destruct (parse_common_data_stages common data Hdata) as (_ & _ & Hpoly & _).
  destruct (parse_polylines_positional common items _ Hpoly Hfield) as (Hin & _).
  destruct (Hin i (JObj d) Hi) as [(_ & built & Hbuilt & Hlook) | (Hno & _)].
  - destruct (of_poly_data_string d s built Hgeo Hbuilt) as (points & Hpoints & Henc & Hcoords).
    exists (snd built), points.
    split; [exact Hlook |]. split; [exact Henc |].
    split; [exact Hpoints |]. split; [exact Hcoords |].
    rewrite Hcoords, length_map. unfold decode_polyline_str in Hpoints.
    pose proof (decode_polyline_points_bound _ _ Hpoints) as Hbound.
    rewrite code_points_length in Hbound. exact Hbound.
  - simpl in Hno. rewrite Hgeo in Hno.
    rewrite bool_decide_eq_true_2 in Hno by eauto. discriminate.
Qed.

Lemma resolved_polyline_is_decoded_witness :
  exists data p,
    _parse_common_data sample_common = Ok data /\
    CommonData.polylines data !! 0%nat = Some p /\
    Polyline.encoded p = JStr "kuzrIqyjkA" /\
    length (Polyline.coordinates p) = 1%nat.
Proof.
  assert (Hdata : exists data, _parse_common_data sample_common = Ok data)
    by (eexists; reflexivity).
  destruct Hdata as (data & Hdata).
  destruct (resolved_polyline_is_decoded sample_common data _ 0%nat _ "kuzrIqyjkA"
              Hdata eq_refl eq_refl eq_refl)
    as (p & points & Hlook & Henc & Hpoints & Hcoords & _).
  exists data, p. split; [exact Hdata |]. split; [exact Hlook |]. split; [exact Henc |].
  rewrite Hcoords, length_map.
  vm_compute in Hpoints. injection Hpoints as <-. reflexivity.
Defined.

(** ** The assembler, further *)

Lemma TransportMode_eqb_eq (a b : TransportMode) : TransportMode_eqb a b = true -> a = b.
Proof. destruct a, b; simpl; intros H; try discriminate; reflexivity. Qed.

Lemma guarded_contains (guard : bool) (k : string) (v : json) :
  (if guard then py_contains k v else Ok false) = Ok true ->
  guard = true /\ py_contains k v = Ok true.
Proof. destruct guard; [auto | discriminate]. Qed.

(** The [if / elif / elif] chain attaches exactly one payload, of the kind
    that belongs to the mode, or none. *)
Lemma parse_mode_payload_cases (sec_data : json) (s s' : TripSection.t) :
  parse_mode_payload sec_data s = Ok s' ->
  (exists gis_data g,
     TripSection.type s = WALK /\ py_getitem sec_data "gis" = Ok gis_data /\
     parse_gis gis_data = Ok g /\ s' = TripSection.set_gis s (Some g)) \/
  (exists jny_data j,
     TripSection.type s = TETA /\ py_getitem sec_data "jny" = Ok jny_data /\
     parse_teta_journey jny_data = Ok j /\ s' = TripSection.set_journey s (Some j)) \/
  (exists jny_data j,
     TripSection.type s = JNY /\ py_getitem sec_data "jny" = Ok jny_data /\
     parse_jny_journey jny_data = Ok j /\ s' = TripSection.set_journey s (Some j)) \/
  s' = s.
Proof.
  unfold parse_mode_payload. intros H.
  inv_bind H as is_walk Hwalk. destruct is_walk.
  { apply guarded_contains in Hwalk as (Hty & _). apply TransportMode_eqb_eq in Hty.
    inv_bind H as gis_data Hgd. inv_bind H as g Hg. injection H as <-.
    left. exists gis_data, g. auto. }
  inv_bind H as is_teta Hteta. destruct is_teta.
  { apply guarded_contains in Hteta as (Hty & _). apply TransportMode_eqb_eq in Hty.
    inv_bind H as jny_data Hjd. inv_bind H as j Hj. injection H as <-.
    right. left. exists jny_data, j. auto. }
  inv_bind H as is_jny Hjny. destruct is_jny.
  { apply guarded_contains in Hjny as (Hty & _). apply TransportMode_eqb_eq in Hty.
    inv_bind H as jny_data Hjd. inv_bind H as j Hj. injection H as <-.
    right. right. left. exists jny_data, j. auto. }
  injection H as <-. right. right. right. reflexivity.
Qed.

(** What [parse_section] did, step by step. *)
Lemma parse_section_steps (sec_data : json) (section : TripSection.t) :
  parse_section sec_data = Ok section ->
  exists raw ty dep arr s1 s2 msgs,
    py_getitem sec_data "type" = Ok raw /\
    TransportMode_of_value raw = Ok ty /\
    py_get sec_data "dep" JNull = Ok dep /\
    py_get sec_data "arr" JNull = Ok arr /\
    parse_call_ahead (TripSection.create ty dep arr) = Ok s1 /\
    parse_mode_payload sec_data s1 = Ok s2 /\
    section = TripSection.set_messages s2 msgs.
Proof.
  unfold parse_section. intros H.
  inv_bind H as raw Hraw. inv_bind H as ty Hty.
  inv_bind H as dep Hdep. inv_bind H as arr Harr.
  inv_bind H as s1 Hs1. inv_bind H as s2 Hs2. inv_bind H as msgs Hmsgs.
  injection H as <-. exists raw, ty, dep, arr, s1, s2, msgs. auto 10.
Qed.

(** The call-ahead check leaves a section untouched or sets the three
    booking fields, and it does the latter exactly when the departure record
    is an object with the key [dCaS]. *)
Lemma parse_call_ahead_cases (s s' : TripSection.t) :
  parse_call_ahead s = Ok s' ->
  (exists dep flag,
     TripSection.departure s = JObj dep /\ dict_lookup "dCaS" dep = Some flag /\
     s' = TripSection.set_booking s flag) \/
  ((forall dep, TripSection.departure s = JObj dep -> dict_lookup "dCaS" dep = None) /\
   s' = s).
Proof.
  unfold parse_call_ahead. intros H.
  inv_bind H as has_flag Hhas. destruct has_flag.
  - inv_bind H as flag Hflag. injection H as <-. left.
    destruct (TripSection.departure s) as [| | | | |items|dep]; try discriminate.
    simpl in Hflag. destruct (dict_lookup "dCaS" dep) as [v |] eqn:Hlook; [| discriminate].
    injection Hflag as <-. exists dep, v. auto.
  - injection H as <-. right. split; [| reflexivity].
    intros dep Hdep. rewrite Hdep in Hhas.
    destruct dep as [|kv dep']; [reflexivity |].
    cbn [py_truthy py_contains] in Hhas. injection Hhas as Hhas.
    apply bool_decide_eq_false in Hhas.
    destruct (dict_lookup "dCaS" (kv :: dep')) eqn:Hlook; [| reflexivity].
    exfalso. apply Hhas. eauto.
Qed.

Lemma parse_section_shape (sec_data : json) (section : TripSection.t) :
  parse_section sec_data = Ok section ->
  (forall g, TripSection.gis section = Some g ->
     TripSection.type section = WALK /\ TripSection.journey section = None) /\
  (forall j, TripSection.journey section = Some j ->
     (TripSection.type section = TETA \/ TripSection.type section = JNY) /\
     TripSection.gis section = None).
Proof.
  intros H.
  destruct (parse_section_steps _ _ H)
    as (raw & ty & dep & arr & s1 & s2 & msgs & _ & _ & _ & _ & Hs1 & Hs2 & ->).
  destruct (parse_call_ahead_frame _ _ Hs1) as (_ & _ & Hj1 & Hg1). simpl in Hj1, Hg1.
  simpl.
  destruct (parse_mode_payload_cases _ _ _ Hs2)
    as [(gd & g & Hty & _ & _ & ->) | [(jd & j & Hty & _ & _ & ->)
        | [(jd & j & Hty & _ & _ & ->) | ->]]]; simpl; rewrite ?Hj1, ?Hg1;
    split; intros x Hx; try discriminate; auto.
Qed.

(** X7. The payload of an assembled section matches its mode: a [GisInfo]
    is attached to WALK sections only, a [Journey] to TETA and JNY sections
    only, and no section carries both; the five other modes carry neither. *)
Theorem section_payload_matches_mode (conn : json) (common_data : CommonData.t)
    (trip : Trip.t) (section : TripSection.t) :
  _parse_trip conn common_data = Some trip ->
  In section (Trip.sections trip) ->
  (forall g, TripSection.gis section = Some g ->
     TripSection.type section = WALK /\ TripSection.journey section = None) /\
  (forall j, TripSection.journey section = Some j ->
     (TripSection.type section = TETA \/ TripSection.type section = JNY) /\
     TripSection.gis section = None).
Proof.
  intros Htrip Hin.
  destruct (parse_trip_section_parsed conn common_data trip section Htrip Hin)
    as (sec_data & Hparsed).
  exact (parse_section_shape sec_data section Hparsed).
Qed.

Lemma section_payload_matches_mode_witness :
  exists trip walk jny g j,
    _parse_trip (sample_connection "C-0" [sample_walk_section "ctx-a"; sample_jny_section])
      CommonData.empty = Some trip /\
    Trip.sections trip = [walk; jny] /\
    TripSection.gis walk = Some g /\ TripSection.journey walk = None /\
    TripSection.journey jny = Some j /\ TripSection.gis jny = None.
Proof.
  do 5 eexists.
  assert (Htrip : _parse_trip
                    (sample_connection "C-0" [sample_walk_section "ctx-a"; sample_jny_section])
                    CommonData.empty = Some _) by reflexivity.
  split; [exact Htrip |]. split; [reflexivity |]. split; [reflexivity |].
  split.
  { eapply (proj1 (section_payload_matches_mode _ _ _ _ Htrip (or_introl eq_refl)));
      reflexivity. }
  split; [reflexivity |].
  eapply (proj2 (section_payload_matches_mode _ _ _ _ Htrip
                   (or_intror (or_introl eq_refl)))); reflexivity.
Defined.

Lemma parse_section_booking_iff (sec_data : json) (section : TripSection.t) :
  parse_section sec_data = Ok section ->
  (TripSection.booking_required section = true <->
   exists dep flag,
     TripSection.departure section = JObj dep /\ dict_lookup "dCaS" dep = Some flag) /\
  (TripSection.booking_required section = false ->
   TripSection.booking_deadline_minutes section = None /\
   TripSection.call_ahead_service section = JBool false).
Proof.
  intros H.
  destruct (parse_section_steps _ _ H)
    as (raw & ty & dep & arr & s1 & s2 & msgs & _ & _ & _ & _ & Hs1 & Hs2 & ->).
  destruct (parse_mode_payload_booking _ _ _ Hs2) as (_ & Hdep2 & Hcall2 & Hreq2 & Hdl2).
  simpl. rewrite Hdep2, Hcall2, Hreq2, Hdl2.
  destruct (parse_call_ahead_cases _ _ Hs1)
    as [(d & flag & Hd & Hflag & ->) | (Hnone & ->)]; simpl in *.
  - split; [| discriminate]. split; [intros _; exists d, flag; auto | reflexivity].
  - split; [| auto]. split; [discriminate |].
    intros (d & flag & Hd & Hflag). rewrite (Hnone d Hd) in Hflag. discriminate.
Qed.

(** X8. Booking is required exactly when the departure record is an object
    with the key [dCaS]: every other assembled section, of any mode, has
    [booking_required = false], no deadline and [call_ahead_service = False]. *)
Theorem booking_required_iff_call_ahead_key (conn : json) (common_data : CommonData.t)
    (trip : Trip.t) (section : TripSection.t) :
  _parse_trip conn common_data = Some trip ->
  In section (Trip.sections trip) ->
  (TripSection.booking_required section = true <->
   exists dep flag,
     TripSection.departure section = JObj dep /\ dict_lookup "dCaS" dep = Some flag) /\
  (TripSection.booking_required section = false ->
   TripSection.booking_deadline_minutes section = None /\
   TripSection.call_ahead_service section = JBool false).
Proof.
  intros Htrip Hin.
  destruct (parse_trip_section_parsed conn common_data trip section Htrip Hin)
    as (sec_data & Hparsed).
  exact (parse_section_booking_iff sec_data section Hparsed).
Qed.

Lemma booking_required_iff_call_ahead_key_witness :
  exists trip walk jny,
    _parse_trip (sample_connection "C-0" [sample_walk_section "ctx-a"; sample_jny_section])
      CommonData.empty = Some trip /\
    Trip.sections trip = [walk; jny] /\
    TripSection.booking_required walk = false /\
    TripSection.booking_deadline_minutes walk = None /\
    TripSection.booking_required jny = true.
Proof.
  do 3 eexists.
  assert (Htrip : _parse_trip
                    (sample_connection "C-0" [sample_walk_section "ctx-a"; sample_jny_section])
                    CommonData.empty = Some _) by reflexivity.
  split; [exact Htrip |]. split; [reflexivity |]. split; [reflexivity |].
  split.
  { apply (proj2 (booking_required_iff_call_ahead_key _ _ _ _ Htrip (or_introl eq_refl))).
    reflexivity. }
  apply (proj1 (booking_required_iff_call_ahead_key _ _ _ _ Htrip
                  (or_intror (or_introl eq_refl)))).
  exists [("locX", JInt 1); ("dCaS", JBool false)], (JBool false).
  split; reflexivity.
Defined.

Lemma parse_section_header (sec_data : json) (section : TripSection.t) :
  parse_section sec_data = Ok section ->
  exists raw,
    py_getitem sec_data "type" = Ok raw /\
    TransportMode_of_value raw = Ok (TripSection.type section) /\
    py_get sec_data "dep" JNull = Ok (TripSection.departure section) /\
    py_get sec_data "arr" JNull = Ok (TripSection.arrival section).
Proof.
  intros H.
  destruct (parse_section_steps _ _ H)
    as (raw & ty & dep & arr & s1 & s2 & msgs & Hraw & Hty & Hdep & Harr & Hs1 & Hs2 & ->).
  exists raw. split; [exact Hraw |]. simpl.
  assert (Hs1' : TripSection.type s1 = ty /\ TripSection.departure s1 = dep /\
                 TripSection.arrival s1 = arr).
  { destruct (parse_call_ahead_cases _ _ Hs1)
      as [(d & flag & _ & _ & ->) | (_ & ->)]; simpl; auto. }
  destruct Hs1' as (Hty1 & Hdep1 & Harr1).
  destruct (parse_mode_payload_cases _ _ _ Hs2)
    as [(gd & g & _ & _ & _ & ->) | [(jd & j & _ & _ & _ & ->)
        | [(jd & j & _ & _ & _ & ->) | ->]]]; simpl;
    rewrite Hty1, Hdep1, Harr1; auto.
Qed.

(** X9. An assembled trip has one section per section record, in the order
    of the response, each with the mode named by the record's [type] and with
    the record's [dep] and [arr] bundles copied as they are; a connection
    without [secL] assembles to a trip without sections. *)
Theorem sections_follow_records (conn : json) (common_data : CommonData.t)
    (trip : Trip.t) (secs : list json) :
  _parse_trip conn common_data = Some trip ->
  py_get conn "secL" (JArr []) = Ok (JArr secs) ->
  length (Trip.sections trip) = length secs /\
  forall (i : nat) sec_data,
    secs !! i = Some sec_data ->
    exists section raw,
      Trip.sections trip !! i = Some section /\
      py_getitem sec_data "type" = Ok raw /\
      TransportMode_of_value raw = Ok (TripSection.type section) /\
      py_get sec_data "dep" JNull = Ok (TripSection.departure section) /\
      py_get sec_data "arr" JNull = Ok (TripSection.arrival section).
Proof.
  intros Htrip HsecL.
  destruct (parse_trip_sections conn common_data trip Htrip)
    as (secL & items & HsecL' & Hitems & Hall).
  rewrite HsecL in HsecL'. injection HsecL' as <-.
  simpl in Hitems. injection Hitems as <-.
  split; [symmetry; exact (Forall2_length _ _ _ Hall) |].
  intros i sec_data Hi.
  destruct (Forall2_lookup_l _ _ _ _ _ Hall Hi) as (section & Hsection & Hparsed).
  destruct (parse_section_header sec_data section Hparsed) as (raw & Hraw & Hty & Hdep & Harr).
  exists section, raw. auto.
Qed.

Lemma sections_follow_records_witness :
  exists trip,
    _parse_trip (sample_connection "C-0" [sample_teta_section; sample_jny_section])
      CommonData.empty = Some trip /\
    length (Trip.sections trip) = 2%nat /\
    map TripSection.type (Trip.sections trip) = [TETA; JNY].
Proof.
  eexists.
  assert (Htrip : _parse_trip
                    (sample_connection "C-0" [sample_teta_section; sample_jny_section])
                    CommonData.empty = Some _) by reflexivity.
  split; [exact Htrip |].
  split; [| reflexivity].
  exact (proj1 (sections_follow_records _ _ _ [sample_teta_section; sample_jny_section]
                  Htrip eq_refl)).
Defined.

(** X10. A section whose [type] is none of the eight known mode names makes
    the whole connection assemble to [None]: its other sections are not
    returned either. *)
Theorem unknown_mode_discards_connection (conn : json) (common_data : CommonData.t)
    (secs : list json) (d : list (string * json)) (raw : json) :
  py_get conn "secL" (JArr []) = Ok (JArr secs) ->
  In (JObj d) secs ->
  dict_lookup "type" d = Some raw ->
  (forall mode, TransportMode_of_value raw <> Ok mode) ->
  _parse_trip conn common_data = None.
Proof.
  intros HsecL Hin Htype Hunknown.
  unfold _parse_trip, _parse_trip_try. rewrite HsecL. simpl.
  assert (Hraise : exists e, parse_section (JObj d) = Raise e).
  { unfold parse_section. simpl. rewrite Htype. simpl.
    destruct (TransportMode_of_value raw) as [mode | e] eqn:Hmode.
    - exfalso. exact (Hunknown mode eq_refl).
    - simpl. eauto. }
  destruct Hraise as (e & Hraise).
  destruct (map_result_raises parse_section secs (JObj d) e Hin Hraise) as (e' & ->).
  reflexivity.
Qed.

Lemma unknown_mode_discards_connection_witness :
  _parse_trip sample_unknown_mode_connection CommonData.empty = None.
Proof.
  apply (unknown_mode_discards_connection sample_unknown_mode_connection CommonData.empty
           [sample_jny_section;
            JObj [("type", JStr "FERRY"); ("dep", JObj [("locX", JInt 2)]);
                  ("arr", JObj [("locX", JInt 3)])]]
           [("type", JStr "FERRY"); ("dep", JObj [("locX", JInt 2)]);
            ("arr", JObj [("locX", JInt 3)])]
           (JStr "FERRY"));
    [reflexivity | right; left; reflexivity | reflexivity | intros mode; discriminate].
Defined.

Lemma parse_list_items {A} (parse : json -> result A) (container : json)
    (field : string) (items : list json) (parsed : list A) :
  parse_list parse container field = Ok parsed ->
  py_getitem container field = Ok (JArr items) ->
  Forall2 (fun raw x => parse raw = Ok x) items parsed.
Proof.
  unfold parse_list. intros H Hfield.
  rewrite (py_getitem_contains _ _ _ Hfield), Hfield in H. simpl in H.
  exact (map_result_Forall2 _ _ _ H).
Qed.

Lemma parse_jny_journey_stops (jny_data : json) (j : Journey.t) (stops_raw : list json) :
  parse_jny_journey jny_data = Ok j ->
  py_getitem jny_data "stopL" = Ok (JArr stops_raw) ->
  Forall2 (fun raw stop => Stop.from_api raw = Ok stop) stops_raw (Journey.stops j).
Proof.
  unfold parse_jny_journey. intros H Hfield.
  inv_bind H as j0 Hj0. inv_bind H as stops Hstops.
  inv_bind H as j1 Hj1. inv_bind H as msgs Hmsgs. injection H as <-. simpl.
  rewrite (parse_polyline_indices_stops _ _ _ Hj1). simpl.
  exact (parse_list_items _ _ _ _ _ Hstops Hfield).
Qed.

(** X11. The journey of an assembled JNY section holds one [Stop] per entry
    of the raw [stopL], in order, each the [Stop.from_api] of its entry (so a
    stop without times or without [locX] is kept, with [None] times and
    location index -1). *)
Theorem jny_journey_keeps_stops (conn : json) (common_data : CommonData.t)
    (trip : Trip.t) (secs : list json) (i : nat) (sec_data jny_data : json)
    (stops_raw : list json) :
  _parse_trip conn common_data = Some trip ->
  py_get conn "secL" (JArr []) = Ok (JArr secs) ->
  secs !! i = Some sec_data ->
  py_getitem sec_data "type" = Ok (JStr "JNY") ->
  py_getitem sec_data "jny" = Ok jny_data ->
  py_getitem jny_data "stopL" = Ok (JArr stops_raw) ->
  exists section j,
    Trip.sections trip !! i = Some section /\
    TripSection.journey section = Some j /\
    length (Journey.stops j) = length stops_raw /\
    Forall2 (fun raw stop => Stop.from_api raw = Ok stop) stops_raw (Journey.stops j).
Proof.
  intros Htrip HsecL Hi Htype Hjny Hstops.
  destruct (parse_trip_sections conn common_data trip Htrip)
    as (secL & items & HsecL' & Hitems & Hall).
  rewrite HsecL in HsecL'. injection HsecL' as <-.
  simpl in Hitems. injection Hitems as <-.
  destruct (Forall2_lookup_l _ _ _ _ _ Hall Hi) as (section & Hsection & Hparsed).
  destruct (parse_section_steps _ _ Hparsed)
    as (raw & ty & dep & arr & s1 & s2 & msgs & Hraw & Hty & _ & _ & Hs1 & Hs2 & ->).
  rewrite Htype in Hraw. injection Hraw as <-. simpl in Hty. injection Hty as <-.
  destruct (parse_call_ahead_frame _ _ Hs1) as (Hty1 & _). simpl in Hty1.
  unfold parse_mode_payload in Hs2. rewrite Hty1 in Hs2. simpl in Hs2.
  rewrite (py_getitem_contains _ _ _ Hjny), Hjny in Hs2. simpl in Hs2.
  inv_bind Hs2 as j Hj. injection Hs2 as <-.
  pose proof (parse_jny_journey_stops jny_data j stops_raw Hj Hstops) as Hforall.
  exists (TripSection.set_messages (TripSection.set_journey s1 (Some j)) msgs), j.
  split; [exact Hsection |]. split; [reflexivity |].
  split; [symmetry; exact (Forall2_length _ _ _ Hforall) | exact Hforall].
Qed.

Lemma jny_journey_keeps_stops_witness :
  exists trip section j,
    _parse_trip (sample_connection "C-0" [sample_teta_section; sample_jny_section])
      CommonData.empty = Some trip /\
    Trip.sections trip !! 1%nat = Some section /\
    TripSection.journey section = Some j /\
    map Stop.location_index (Journey.stops j) = [JInt 1; JInt 2].
Proof.
  assert (Htrip : exists trip,
            _parse_trip (sample_connection "C-0" [sample_teta_section; sample_jny_section])
              CommonData.empty = Some trip) by (eexists; reflexivity).
  destruct Htrip as (trip & Htrip).
  destruct (jny_journey_keeps_stops _ _ trip
              [sample_teta_section; sample_jny_section] 1%nat sample_jny_section _
              [JObj [("locX", JInt 1)]; JObj [("locX", JInt 2)]]
              Htrip eq_refl eq_refl eq_refl eq_refl eq_refl)
    as (section & j & Hsection & Hj & _ & Hstops).
  exists trip, section, j.
  split; [exact Htrip |]. split; [exact Hsection |]. split; [exact Hj |].
  destruct (Forall2_lookup_l _ _ _ 0%nat _ Hstops eq_refl) as (st0 & Hst0 & Hparse0).
  destruct (Forall2_lookup_l _ _ _ 1%nat _ Hstops eq_refl) as (st1 & Hst1 & Hparse1).
  pose proof (Forall2_length _ _ _ Hstops) as Hlen.
  destruct (Journey.stops j) as [|a [|b [|c rest]]]; try discriminate.
  injection Hst0 as ->. injection Hst1 as ->.
  injection Hparse0 as <-. injection Hparse1 as <-. reflexivity.
Defined.

(** ** Walking-route details, further *)

Lemma for_each_invariant {A S} (body : S -> A -> result S) (P : S -> Prop)
    (items : list A) :
  (forall st x st', body st x = Ok st' -> P st -> P st') ->
  forall st st', for_each body items st = Ok st' -> P st -> P st'.
Proof.
  intros Hbody. induction items as [|x rest IH]; intros st st' H HP; simpl in H.
  - injection H as <-. exact HP.
  - inv_bind H as st1 Hst1. exact (IH _ _ H (Hbody _ _ _ Hst1 HP)).
Qed.

Lemma of_poly_data_coordinates (poly_data : json) (built : list Coordinate.t * Polyline.t) :
  Polyline.of_poly_data poly_data = Ok built ->
  fst built = Polyline.coordinates (snd built).
Proof.
  unfold Polyline.of_poly_data. intros H.
  inv_bind H as enc Henc. inv_bind H as coords Hcoords.
  inv_bind H as refs Hrefs. inv_bind H as style Hstyle. inv_bind H as delta Hdelta.
  inv_bind H as dim Hdim. inv_bind H as start Hstart. inv_bind H as format Hformat.
  injection H as <-. reflexivity.
Qed.

(** One entry of the polyline list: an entry with geometry appends its
    polyline to the trace, another leaves the state as it is. *)
Lemma walking_polyline_entry_trace (st st' : walking_details) (poly_data : json)
    (built : list Polyline.t) :
  walking_polyline_entry st poly_data = Ok st' ->
  walking_trace st built ->
  exists new,
    Forall2 built_from (List.filter has_geometry [poly_data]) new /\
    walking_trace st' (built ++ new).
Proof.
  destruct st as [[coords segs] poly]. unfold walking_polyline_entry, walking_trace.
  intros H (Hcoords & Hpoly). cbn [fst snd] in *.
  inv_bind H as present Hpresent. cbn [List.filter]. unfold has_geometry.
  rewrite Hpresent. destruct present.
  - inv_bind H as b Hb. injection H as <-. exists [snd b]. split.
    + constructor; [| constructor]. exists (fst b). rewrite Hb. destruct b; reflexivity.
    + cbn [fst snd]. rewrite map_app, concat_app, <- Hcoords. simpl.
      rewrite app_nil_r, (of_poly_data_coordinates _ _ Hb), last_snoc.
      split; reflexivity.
  - injection H as <-. exists []. rewrite app_nil_r. split; [constructor |].
    split; assumption.
Qed.

Lemma walking_polyline_entries_trace (items : list json) :
  forall (st st' : walking_details) (built : list Polyline.t),
    for_each walking_polyline_entry items st = Ok st' ->
    walking_trace st built ->
    exists new,
      Forall2 built_from (List.filter has_geometry items) new /\
      walking_trace st' (built ++ new).
Proof.
  induction items as [|x rest IH]; intros st st' built H Htrace; cbn [for_each] in H.
  - injection H as <-. exists []. rewrite app_nil_r. split; [constructor | exact Htrace].
  - inv_bind H as st1 Hst1.
    destruct (walking_polyline_entry_trace _ _ _ _ Hst1 Htrace) as (new1 & Hnew1 & Htrace1).
    destruct (IH _ _ _ H Htrace1) as (new2 & Hnew2 & Htrace2).
    exists (new1 ++ new2). rewrite app_assoc. split; [| exact Htrace2].
    change (x :: rest) with ([x] ++ rest). rewrite List.filter_app.
    apply Forall2_app; assumption.
Qed.

(** The loops over connections and sections touch the segments only. *)
Lemma walking_connections_keep_trace (connections : list json) :
  forall (st st' : walking_details),
    for_each walking_connection connections st = Ok st' ->
    fst (fst st') = fst (fst st) /\ snd st' = snd st.
Proof.
  intros st st' H.
  refine (for_each_invariant _
            (fun x => fst (fst x) = fst (fst st) /\ snd x = snd st)
            connections _ _ _ H (conj eq_refl eq_refl)).
  clear. intros st1 con st2 Hbody Hinv. unfold walking_connection in Hbody.
  inv_bind Hbody as secL HsecL. inv_bind Hbody as secs Hsecs.
  refine (for_each_invariant _
            (fun x => fst (fst x) = fst (fst st) /\ snd x = snd st)
            secs _ _ _ Hbody Hinv).
  clear. intros [[coords segs] poly] sec st2 Hbody Hinv.
  unfold walking_section_segments in Hbody.
  inv_bind Hbody as has_gis Hgis. inv_bind Hbody as has_segments Hsegs.
  destruct has_segments; [| injection Hbody as <-; exact Hinv].
  inv_bind Hbody as gis Hg. inv_bind Hbody as segL HsegL.
  inv_bind Hbody as items Hitems. inv_bind Hbody as parsed Hparsed.
  injection Hbody as <-. exact Hinv.
Qed.

Lemma walking_service_trace (st st' : walking_details) (svc : json)
    (built : list Polyline.t) :
  walking_service st svc = Ok st' ->
  walking_trace st built ->
  exists items new,
    service_polyline_entries svc = Ok items /\
    Forall2 built_from (List.filter has_geometry items) new /\
    walking_trace st' (built ++ new).
Proof.
  unfold walking_service, service_polyline_entries. intros H Htrace.
  inv_bind H as meth Hmeth. rewrite Hmeth. cbn [bind].
  inv_bind H as selected Hsel. rewrite Hsel. cbn [bind].
  destruct selected.
  2: { injection H as <-. exists [], []. rewrite app_nil_r.
       split; [reflexivity |]. split; [constructor | exact Htrace]. }
  inv_bind H as res Hres. rewrite Hres. cbn [bind].
  inv_bind H as has_common Hcommon. rewrite Hcommon. cbn [bind].
  inv_bind H as has_polyL HpolyL. rewrite HpolyL. cbn [bind].
  inv_bind H as st1 Hst1.
  assert (Hone : exists items new,
            (if has_polyL
             then do common <- py_getitem res "common";
                  do polyL <- py_getitem common "polyL"; py_iter polyL
             else Ok []) = Ok items /\
            Forall2 built_from (List.filter has_geometry items) new /\
            walking_trace st1 (built ++ new)).
  { destruct has_polyL.
    - inv_bind Hst1 as common Hc. inv_bind Hst1 as polyL Hp.
      inv_bind Hst1 as items Hitems. rewrite Hc. cbn [bind]. rewrite Hp. cbn [bind].
      destruct (walking_polyline_entries_trace items _ _ _ Hst1 Htrace)
        as (new & Hnew & Htrace1).
      exists items, new. auto.
    - injection Hst1 as <-. exists [], []. rewrite app_nil_r.
      split; [reflexivity |]. split; [constructor | exact Htrace]. }
  destruct Hone as (items & new & Hitems & Hnew & Htrace1).
  exists items, new. split; [exact Hitems |]. split; [exact Hnew |].
  inv_bind H as has_conL HconL.
  destruct has_conL; [| injection H as <-; exact Htrace1].
  inv_bind H as conL Hc. inv_bind H as connections Hconns.
  destruct (walking_connections_keep_trace connections _ _ H) as (Hcoords & Hpoly).
  unfold walking_trace in *. rewrite Hcoords, Hpoly. exact Htrace1.
Qed.

Lemma walking_services_trace (svcs : list json) :
  forall (st st' : walking_details) (built : list Polyline.t),
    for_each walking_service svcs st = Ok st' ->
    walking_trace st built ->
    exists entries new,
      map_result service_polyline_entries svcs = Ok entries /\
      Forall2 built_from (List.filter has_geometry (concat entries)) new /\
      walking_trace st' (built ++ new).
Proof.
  induction svcs as [|svc rest IH]; intros st st' built H Htrace;
    cbn [for_each map_result] in *.
  - injection H as <-. exists [], []. rewrite app_nil_r.
    split; [reflexivity |]. split; [constructor | exact Htrace].
  - inv_bind H as st1 Hst1.
    destruct (walking_service_trace _ _ _ _ Hst1 Htrace)
      as (items & new1 & -> & Hnew1 & Htrace1).
    destruct (IH _ _ _ H Htrace1) as (entries & new2 & -> & Hnew2 & Htrace2).
    cbn [bind]. exists (items :: entries), (new1 ++ new2).
    split; [reflexivity |]. rewrite app_assoc. split; [| exact Htrace2].
    cbn [concat]. rewrite List.filter_app. apply Forall2_app; assumption.
Qed.

(** X12. What [get_walking_details] returns is determined by the polyline
    entries with geometry of the GisRoute services of the response, taken in
    the order of the response: one [Polyline] is built from each, the
    coordinates returned are the coordinates of all of them, concatenated in
    that order, and the polyline returned is the last one built (none when
    there is no such entry, and then there are no coordinates either). *)
Theorem walking_details_coherent (response : option json)
    (coordinates : list Coordinate.t) (segments : list WalkingSegment.t)
    (polyline : option Polyline.t) :
  walking_details_of_response response = Ok (coordinates, segments, polyline) ->
  exists svcs entries built,
    response_services response = Ok svcs /\
    map_result service_polyline_entries svcs = Ok entries /\
    Forall2 built_from (List.filter has_geometry (concat entries)) built /\
    coordinates = concat (map Polyline.coordinates built) /\
    polyline = last built.
Proof.
  unfold walking_details_of_response, response_services. intros H.
  assert (Hnone : exists svcs entries built,
            Ok [] = Ok svcs /\
            map_result service_polyline_entries svcs = Ok entries /\
            Forall2 built_from (List.filter has_geometry (concat entries)) built /\
            @nil Coordinate.t = concat (map Polyline.coordinates built) /\
            @None Polyline.t = last built).
  { exists [], [], []. repeat split; constructor. }
  destruct response as [r |]; [| injection H as <- <- <-; exact Hnone].
  destruct (negb (py_truthy r)); [injection H as <- <- <-; exact Hnone |].
  inv_bind H as has_services Hhas. rewrite Hhas. cbn [bind].
  destruct (negb has_services); [injection H as <- <- <-; exact Hnone |].
  inv_bind H as svcResL Hsvc. rewrite Hsvc. cbn [bind].
  inv_bind H as svcs Hsvcs.
  destruct (walking_services_trace svcs _ _ [] H (conj eq_refl eq_refl))
    as (entries & built & Hentries & Hbuilt & Hcoords & Hpoly).
  exists svcs, entries, built. cbn [fst snd app] in *. auto.
Qed.

Lemma walking_details_coherent_witness :
  exists coordinates segments first second,
    walking_details_of_response (Some sample_two_polylines_response)
    = Ok (coordinates, segments, Some second) /\
    built_from (JObj [("crdEncYX", JStr "kuzrIqyjkA")]) first /\
    built_from (JObj [("crdEncYX", JStr "mCzWoD`Y")]) second /\
    coordinates = Polyline.coordinates first ++ Polyline.coordinates second /\
    length (Polyline.coordinates first) = 1%nat /\
    length (Polyline.coordinates second) = 2%nat.
Proof.
  assert (Hrun : exists coordinates segments polyline,
            walking_details_of_response (Some sample_two_polylines_response)
            = Ok (coordinates, segments, polyline)) by (do 3 eexists; reflexivity).
  destruct Hrun as (coordinates & segments & polyline & Hrun).
  destruct (walking_details_coherent _ _ _ _ Hrun)
    as (svcs & entries & built & Hsvcs & Hentries & Hbuilt & Hcoords & Hpoly).
  vm_compute in Hsvcs. injection Hsvcs as <-.
  vm_compute in Hentries. injection Hentries as <-.
  cbn [concat app List.filter has_geometry py_contains dict_lookup String.eqb Ascii.eqb
       Bool.eqb bool_decide] in Hbuilt.
  rewrite !bool_decide_eq_true_2 in Hbuilt by eauto.
  apply Forall2_cons_inv_l in Hbuilt as (first & rest & Hfirst & Hrest & ->).
  apply Forall2_cons_inv_l in Hrest as (second & rest' & Hsecond & Hnil & ->).
  apply Forall2_nil_inv_l in Hnil as ->.
  cbn [last] in Hpoly. subst polyline.
  exists coordinates, segments, first, second.
  split; [exact Hrun |]. split; [exact Hfirst |]. split; [exact Hsecond |].
  split; [rewrite Hcoords; simpl; rewrite app_nil_r; reflexivity |].
  destruct Hfirst as (c1 & Hfirst). destruct Hsecond as (c2 & Hsecond).
  vm_compute in Hfirst. injection Hfirst as _ <-.
  vm_compute in Hsecond. injection Hsecond as _ <-.
  split; reflexivity.
Defined.

(** ** The walking-route cache, further *)

Lemma py_key_eq_refl (k : json) : hashable k = true -> py_key_eq k k = true.
Proof.
  destruct k; try discriminate; intros _; cbn.
  - reflexivity.
  - apply Qeq_bool_iff. reflexivity.
  - apply Qeq_bool_iff. reflexivity.
  - apply Qeq_bool_iff. reflexivity.
  - apply String.eqb_refl.
Qed.

(** Storing under a key that is not in the cache appends an entry. *)
Lemma cache_store_miss (k : json) (p : polyline_ref) (cache : list (json * polyline_ref)) :
  cache_lookup k cache = None -> cache_store k p cache = cache ++ [(k, p)].
Proof.
  induction cache as [|[k0 p0] rest IH]; intros H; simpl in *; [reflexivity |].
  destruct (py_key_eq k k0); [discriminate |]. rewrite (IH H). reflexivity.
Qed.

Lemma cache_lookup_app (k : json) (cache extra : list (json * polyline_ref)) (r : polyline_ref) :
  cache_lookup k cache = Some r -> cache_lookup k (cache ++ extra) = Some r.
Proof.
  induction cache as [|[k0 p0] rest IH]; intros H; simpl in *; [discriminate |].
  destruct (py_key_eq k k0); [exact H | exact (IH H)].
Qed.

Lemma cache_lookup_app_miss (k : json) (cache extra : list (json * polyline_ref)) :
  cache_lookup k cache = None -> cache_lookup k (cache ++ extra) = cache_lookup k extra.
Proof.
  induction cache as [|[k0 p0] rest IH]; intros H; simpl in *; [reflexivity |].
  destruct (py_key_eq k k0); [discriminate | exact (IH H)].
Qed.

Lemma cache_lookup_In (k : json) (cache : list (json * polyline_ref)) (r : polyline_ref) :
  cache_lookup k cache = Some r -> exists k0, In (k0, r) cache.
Proof.
  induction cache as [|[k0 p0] rest IH]; intros H; simpl in *; [discriminate |].
  destruct (py_key_eq k k0).
  - injection H as <-. exists k0. left. reflexivity.
  - destruct (IH H) as (k1 & Hk1). exists k1. right. exact Hk1.
Qed.

Section FillInvariants.

Variable send : nat -> json -> option json.

(** A fetch is only issued for a hashable token. *)
Lemma fetch_walking_section_hashable (s s' : TripSection.t) (c c' : CommonData.t)
    (w w' : world) (g : GisInfo.t) :
  fetch_walking_section send s c w = Ok (s', c', w') ->
  has_token s = true ->
  TripSection.gis s = Some g ->
  hashable (GisInfo.ctx g) = true.
Proof.
  unfold fetch_walking_section, has_token. intros H Htoken Hg.
  rewrite Hg in H, Htoken. apply andb_true_iff in Htoken as (Hty & Hctx).
  rewrite Hty, Hctx in H.
  destruct (hashable (GisInfo.ctx g)); [reflexivity | discriminate].
Qed.

(** A state property [P] and a section property [Q] that the loop body
    keeps are kept by the whole batch. *)
Variable P : CommonData.t -> world -> Prop.
Variable Q : CommonData.t -> world -> TripSection.t -> Prop.

Hypothesis P_step :
  forall s c w s' c' w',
    fetch_walking_section send s c w = Ok (s', c', w') -> P c w -> P c' w'.
Hypothesis Q_step :
  forall s c w s' c' w',
    fetch_walking_section send s c w = Ok (s', c', w') ->
    P c w -> attached s = None -> Q c' w' s'.
Hypothesis Q_mono :
  forall s c w s' c' w' x,
    fetch_walking_section send s c w = Ok (s', c', w') ->
    P c w -> Q c w x -> Q c' w' x.
Hypothesis Q_fresh : forall c w x, attached x = None -> Q c w x.

Lemma fetch_walking_sections_keep (sections : list TripSection.t) :
  forall c w sections' c' w',
    fetch_walking_sections send sections c w = Ok (sections', c', w') ->
    P c w ->
    Forall (fun s => attached s = None) sections ->
    P c' w' /\ Forall (Q c' w') sections' /\ (forall x, Q c w x -> Q c' w' x).
Proof.
  induction sections as [|s rest IH]; intros c w sections' c' w' H HP Hfresh; simpl in H.
  - injection H as <- <- <-. split; [exact HP |]. split; [constructor | auto].
  - inv_bind H as first Hfirst. destruct first as [[s1 c1] w1].
    inv_bind H as others Hothers. destruct others as [[rest1 c2] w2].
    injection H as <- <- <-.
    apply Forall_cons in Hfresh as (Hs & Hrest).
    destruct (IH _ _ _ _ _ Hothers (P_step _ _ _ _ _ _ Hfirst HP) Hrest)
      as (HP2 & HQ2 & Hmono2).
    split; [exact HP2 |]. split.
    + constructor; [| exact HQ2].
      apply Hmono2. exact (Q_step _ _ _ _ _ _ Hfirst HP Hs).
    + intros x Hx. apply Hmono2. exact (Q_mono _ _ _ _ _ _ x Hfirst HP Hx).
Qed.

Lemma parsed_sections_fresh (conn : json) (common_data : CommonData.t) (trip : Trip.t) :
  _parse_trip conn common_data = Some trip ->
  Forall (fun s => attached s = None) (Trip.sections trip).
Proof.
  intros Htrip. apply Forall_forall. intros s Hs. apply list_elem_of_In in Hs.
  destruct (parse_trip_section_parsed conn common_data trip s Htrip Hs) as (sec & Hsec).
  unfold attached. destruct (TripSection.gis s) as [g |] eqn:Hg; [| reflexivity].
  exact (proj1 (parse_section_gis_fresh sec s g Hsec Hg)).
Qed.

Lemma plan_trip_connections_keep (fetching : bool) (conns : list json) :
  forall trips c w trips' c' w',
    plan_trip_connections send fetching conns trips c w = Ok (trips', c', w') ->
    P c w ->
    exists new,
      trips' = trips ++ new /\
      P c' w' /\
      Forall (fun trip => Forall (Q c' w') (Trip.sections trip)) new /\
      (forall x, Q c w x -> Q c' w' x).
Proof.
  induction conns as [|conn rest IH]; intros trips c w trips' c' w' H HP; simpl in H.
  - injection H as <- <- <-. exists []. rewrite app_nil_r.
    split; [reflexivity |]. split; [exact HP |]. split; [constructor | auto].
  - destruct (_parse_trip conn c) as [trip |] eqn:Htrip; [| exact (IH _ _ _ _ _ _ H HP)].
    inv_bind H as filled Hfilled. destruct filled as [[trip1 c1] w1].
    pose proof (parsed_sections_fresh conn c trip Htrip) as Hfresh.
    assert (Hone : P c1 w1 /\ Forall (Q c1 w1) (Trip.sections trip1) /\
                   (forall x, Q c w x -> Q c1 w1 x)).
    { destruct fetching.
      - unfold fetch_walking_trip in Hfilled.
        inv_bind Hfilled as r Hr. destruct r as [[secs c0] w0].
        injection Hfilled as <- <- <-. simpl.
        exact (fetch_walking_sections_keep _ _ _ _ _ _ Hr HP Hfresh).
      - injection Hfilled as <- <- <-. split; [exact HP |]. split; [| auto].
        eapply Forall_impl; [exact Hfresh |]. intros x Hx. apply Q_fresh. exact Hx. }
    destruct Hone as (HP1 & HQ1 & Hmono1).
    destruct (IH _ _ _ _ _ _ H HP1) as (new & -> & HP2 & HQ2 & Hmono2).
    exists (trip1 :: new). rewrite <- app_assoc.
    split; [reflexivity |]. split; [exact HP2 |]. split.
    + constructor; [| exact HQ2].
      eapply Forall_impl; [exact HQ1 |]. intros x Hx. apply Hmono2. exact Hx.
    + intros x Hx. apply Hmono2, Hmono1. exact Hx.
Qed.

End FillInvariants.

Section CacheInvariants.

Variable send : nat -> json -> option json.

(** What one run of the loop body does to the cache and to the store:
    nothing, or one new entry at the end of the cache, under a key that was
    not in it, for one new object at the end of the store. *)
Lemma fill_step_cache (s s' : TripSection.t) (c c' : CommonData.t) (w w' : world) :
  fill_step send s c w s' c' w' ->
  (c' = c /\ heap w' = heap w) \/
  (exists g pl,
     TripSection.gis s = Some g /\
     cache_lookup (GisInfo.ctx g) (CommonData.walking_polylines c) = None /\
     c' = CommonData.set_walking_polylines c
            (CommonData.walking_polylines c ++ [(GisInfo.ctx g, length (heap w))]) /\
     heap w' = heap w ++ [pl]).
Proof.
  intros [Hskip | g p Htoken Hg Hhit | g coords segs Htoken Hg Hmiss Hfetch
          | g coords segs pl Htoken Hg Hmiss Hfetch].
  - left. split; reflexivity.
  - left. split; reflexivity.
  - left. split; reflexivity.
  - right. exists g, pl. rewrite (cache_store_miss _ _ _ Hmiss). auto.
Qed.

Lemma fetch_walking_section_cache_persists (s s' : TripSection.t) (c c' : CommonData.t)
    (w w' : world) (k : json) (r : polyline_ref) :
  fetch_walking_section send s c w = Ok (s', c', w') ->
  cache_lookup k (CommonData.walking_polylines c) = Some r ->
  cache_lookup k (CommonData.walking_polylines c') = Some r.
Proof.
  intros H Hk. apply fetch_walking_section_step, fill_step_cache in H.
  destruct H as [(-> & _) | (g & pl & _ & _ & -> & _)]; [exact Hk |].
  simpl. apply cache_lookup_app. exact Hk.
Qed.

Lemma fetch_walking_section_heap (s s' : TripSection.t) (c c' : CommonData.t) (w w' : world) :
  fetch_walking_section send s c w = Ok (s', c', w') -> heap_grows w w'.
Proof.
  intros H. apply fetch_walking_section_step, fill_step_cache in H.
  destruct H as [(_ & Hheap) | (g & pl & _ & _ & _ & Hheap)].
  - exists []. rewrite app_nil_r. exact Hheap.
  - exists [pl]. exact Hheap.
Qed.

(** The section the loop body returns holds the cache's object for its
    token, when it holds one. *)
Lemma fetch_walking_section_attached (s s' : TripSection.t) (c c' : CommonData.t)
    (w w' : world) :
  fetch_walking_section send s c w = Ok (s', c', w') ->
  attached s = None ->
  attached_from_cache c' s'.
Proof.
  intros H Hfresh. pose proof (fetch_walking_section_step send _ _ _ _ _ _ H) as Hstep.
  unfold attached in Hfresh.
  destruct Hstep as [Hskip | g p Htoken Hg Hhit | g coords segs Htoken Hg Hmiss Hfetch
                     | g coords segs pl Htoken Hg Hmiss Hfetch].
  - intros g r Hg Hr. rewrite Hg in Hfresh. congruence.
  - intros g' r Hg' Hr. simpl in Hg'. injection Hg' as <-. simpl in Hr.
    injection Hr as <-. exact Hhit.
  - intros g' r Hg' Hr. rewrite Hg' in Hfresh. congruence.
  - intros g' r Hg' Hr. simpl in Hg'. injection Hg' as <-. simpl in Hr.
    injection Hr as <-. simpl.
    rewrite (cache_store_miss _ _ _ Hmiss), (cache_lookup_app_miss _ _ _ Hmiss).
    simpl. rewrite py_key_eq_refl; [reflexivity |].
    exact (fetch_walking_section_hashable send _ _ _ _ _ _ g H Htoken Hg).
Qed.

(** X13. Whatever the transport answers, a connection loop that returns
    leaves every section of the trips it appended consistent with the
    walking-route cache it returns: a section that holds a polyline holds the
    object the cache has under the section's token.  So two such sections
    with the same token hold the same object, and every entry the cache had
    at the start is still there, with the same object. *)
Theorem attached_polyline_is_cached (fetching : bool) (conns : list json)
    (trips trips' : list Trip.t) (c c' : CommonData.t) (w w' : world) :
  plan_trip_connections send fetching conns trips c w = Ok (trips', c', w') ->
  exists new,
    trips' = trips ++ new /\
    (forall k r, cache_lookup k (CommonData.walking_polylines c) = Some r ->
                 cache_lookup k (CommonData.walking_polylines c') = Some r) /\
    Forall (attached_from_cache c') (all_sections new) /\
    (forall s1 s2 g1 g2 r1 r2,
       In s1 (all_sections new) -> In s2 (all_sections new) ->
       TripSection.gis s1 = Some g1 -> TripSection.gis s2 = Some g2 ->
       GisInfo.ctx g1 = GisInfo.ctx g2 ->
       GisInfo.polyline g1 = Some r1 -> GisInfo.polyline g2 = Some r2 ->
       r1 = r2).
Proof.
  intros H.
  set (P := fun (c1 : CommonData.t) (_ : world) =>
              forall k r,
                cache_lookup k (CommonData.walking_polylines c) = Some r ->
                cache_lookup k (CommonData.walking_polylines c1) = Some r).
  set (Q := fun (c1 : CommonData.t) (_ : world) s => attached_from_cache c1 s).
  assert (P_step : forall s0 c0 w0 s1 c1 w1,
            fetch_walking_section send s0 c0 w0 = Ok (s1, c1, w1) -> P c0 w0 -> P c1 w1).
  { intros s0 c0 w0 s1 c1 w1 Hstep HP k r Hk.
    exact (fetch_walking_section_cache_persists _ _ _ _ _ _ k r Hstep (HP k r Hk)). }
  assert (Q_step : forall s0 c0 w0 s1 c1 w1,
            fetch_walking_section send s0 c0 w0 = Ok (s1, c1, w1) ->
            P c0 w0 -> attached s0 = None -> Q c1 w1 s1).
  { intros s0 c0 w0 s1 c1 w1 Hstep _ Hfresh.
    exact (fetch_walking_section_attached _ _ _ _ _ _ Hstep Hfresh). }
  assert (Q_mono : forall s0 c0 w0 s1 c1 w1 x,
            fetch_walking_section send s0 c0 w0 = Ok (s1, c1, w1) ->
            P c0 w0 -> Q c0 w0 x -> Q c1 w1 x).
  { intros s0 c0 w0 s1 c1 w1 x Hstep _ Hx g r Hg Hr.
    exact (fetch_walking_section_cache_persists _ _ _ _ _ _ _ r Hstep (Hx g r Hg Hr)). }
  assert (Q_fresh : forall c0 w0 x, attached x = None -> Q c0 w0 x).
  { intros c0 w0 x Hfresh g r Hg Hr. unfold attached in Hfresh. rewrite Hg in Hfresh.
    congruence. }
  destruct (plan_trip_connections_keep send P Q P_step Q_step Q_mono Q_fresh
              fetching conns trips c w trips' c' w' H (fun k r Hk => Hk))
    as (new & Hnew & Hcache & Hall & _).
  assert (Hsections : Forall (attached_from_cache c') (all_sections new)).
  { unfold all_sections. apply Forall_concat, Forall_map. exact Hall. }
  exists new. split; [exact Hnew |]. split; [exact Hcache |].
    split; [exact Hsections |].
  intros s1 s2 g1 g2 r1 r2 Hs1 Hs2 Hg1 Hg2 Hctx Hr1 Hr2.
  rewrite Forall_forall in Hsections.
  pose proof (Hsections s1 (proj2 (list_elem_of_In _ _) Hs1) g1 r1 Hg1 Hr1) as H1.
  pose proof (Hsections s2 (proj2 (list_elem_of_In _ _) Hs2) g2 r2 Hg2 Hr2) as H2.
  rewrite Hctx in H1. congruence.
Qed.

End CacheInvariants.

Lemma attached_polyline_is_cached_witness :
  exists trips' c' w' new,
    plan_trip_connections online true sample_shared_walks [] CommonData.empty initial_world
    = Ok (trips', c', w') /\
    trips' = [] ++ new /\
    Forall (attached_from_cache c') (all_sections new).
Proof.
  assert (Hrun : exists out,
            plan_trip_connections online true sample_shared_walks [] CommonData.empty
              initial_world = Ok out) by (eexists; reflexivity).
  destruct Hrun as ([[trips' c'] w'] & Hrun).
  destruct (attached_polyline_is_cached online true sample_shared_walks [] trips'
              CommonData.empty c' initial_world w' Hrun) as (new & Hnew & _ & Hall & _).
  exists trips', c', w', new. auto.
Defined.

(** ** [plan_trip] over all the services of a response *)

Lemma parse_common_data_no_cache (common : json) (c : CommonData.t) :
  _parse_common_data common = Ok c -> CommonData.walking_polylines c = [].
Proof.
  unfold _parse_common_data. intros H.
  inv_bind H as locations Hlocations. inv_bind H as products Hproducts.
  inv_bind H as polylines Hpolylines. inv_bind H as operators Hoperators.
  inv_bind H as remarks Hremarks. inv_bind H as icons Hicons.
  inv_bind H as has_dirs Hdirs. inv_bind H as directions Hdirections.
  inv_bind H as draw_styles Hstyles. inv_bind H as layers Hlayers.
  inv_bind H as systems Hsystems. injection H as <-. reflexivity.
Qed.

Section PlanTripInvariants.

Variable send : nat -> json -> option json.

(** A property of the loop state (trips, common data, world) that the
    connection loop keeps, and that holds again when the common data is
    replaced by a freshly resolved block, holds of what [plan_trip]
    returns. *)
Variable I : list Trip.t * CommonData.t * world -> Prop.

Hypothesis I_connections :
  forall fetching conns trips c w st',
    plan_trip_connections send fetching conns trips c w = Ok st' ->
    I (trips, c, w) -> I st'.
Hypothesis I_common :
  forall trips c w c1,
    CommonData.walking_polylines c1 = [] -> I (trips, c, w) -> I (trips, c1, w).

Lemma plan_trip_service_keep (fetching : bool)
    (st st' : list Trip.t * CommonData.t * world) (svc : json) :
  plan_trip_service send fetching st svc = Ok st' -> I st -> I st'.
Proof.
  destruct st as [[trips c] w]. unfold plan_trip_service. intros H HI.
  inv_bind H as meth Hmeth. inv_bind H as selected Hselected.
  destruct selected; [| injection H as <-; exact HI].
  inv_bind H as res Hres. inv_bind H as has_common Hhas.
  inv_bind H as c1 Hc1. inv_bind H as outConL Hout. inv_bind H as conns Hconns.
  apply (I_connections _ _ _ _ _ _ H).
  destruct has_common.
  - inv_bind Hc1 as common Hcommon.
    apply (I_common trips c w c1); [exact (parse_common_data_no_cache _ _ Hc1) | exact HI].
  - injection Hc1 as <-. exact HI.
Qed.

Lemma plan_trip_keep (auto_fetch_walking get_polylines : bool) (response : option json)
    (w : world) (st' : list Trip.t * CommonData.t * world) :
  plan_trip send auto_fetch_walking get_polylines response w = Ok st' ->
  I ([], CommonData.empty, w) -> I st'.
Proof.
  unfold plan_trip. intros H HI.
  destruct response as [r |]; [| injection H as <-; exact HI].
  destruct (negb (py_truthy r)); [injection H as <-; exact HI |].
  inv_bind H as has_services Hhas.
  destruct (negb has_services); [injection H as <-; exact HI |].
  inv_bind H as svcResL Hsvc. inv_bind H as svcs Hsvcs.
  refine (for_each_invariant _ I svcs _ _ _ H HI).
  intros st x st1 Hbody Hst. exact (plan_trip_service_keep _ _ _ _ Hbody Hst).
Qed.

End PlanTripInvariants.

Lemma all_sections_app (trips new : list Trip.t) :
  all_sections (trips ++ new) = all_sections trips ++ all_sections new.
Proof. unfold all_sections. rewrite map_app, concat_app. reflexivity. Qed.

Section StoreInvariant.

Variable send : nat -> json -> option json.

Lemma fetch_walking_section_valid (s s' : TripSection.t) (c c' : CommonData.t)
    (w w' : world) :
  fetch_walking_section send s c w = Ok (s', c', w') ->
  cache_valid c w -> cache_valid c' w'.
Proof.
  intros H (Hbound & Hnodup). apply fetch_walking_section_step, fill_step_cache in H.
  unfold cache_valid.
  destruct H as [(-> & Hheap) | (g & pl & _ & _ & -> & Hheap)]; rewrite Hheap.
  - split; assumption.
  - simpl. rewrite length_app. simpl. split.
    + apply Forall_app. split.
      * eapply Forall_impl; [exact Hbound |]. intros [k r] Hr. simpl in *. lia.
      * constructor; [simpl; lia | constructor].
    + rewrite map_app. simpl. apply NoDup_app. split; [exact Hnodup |]. split.
      * intros r Hr Hlast. apply list_elem_of_singleton in Hlast. subst r.
        apply list_elem_of_fmap in Hr as ([k r] & Hr & Hin). simpl in Hr.
        rewrite Forall_forall in Hbound. specialize (Hbound _ Hin). simpl in Hbound. lia.
      * apply NoDup_singleton.
Qed.

Lemma fetch_walking_section_in_store (s s' : TripSection.t) (c c' : CommonData.t)
    (w w' : world) (r : polyline_ref) :
  fetch_walking_section send s c w = Ok (s', c', w') ->
  cache_valid c w ->
  attached s = None ->
  attached s' = Some r ->
  (r < length (heap w'))%nat.
Proof.
  intros H (Hbound & _) Hfresh Hr. apply fetch_walking_section_step in H.
  destruct H as [Hskip | g p Htoken Hg Hhit | g coords segs Htoken Hg Hmiss Hfetch
                 | g coords segs pl Htoken Hg Hmiss Hfetch].
  - congruence.
  - unfold attached in Hr. simpl in Hr. injection Hr as <-.
    destruct (cache_lookup_In _ _ _ Hhit) as (k0 & Hin).
    rewrite Forall_forall in Hbound.
    exact (Hbound _ (proj2 (list_elem_of_In _ _) Hin)).
  - congruence.
  - unfold attached in Hr. simpl in Hr. injection Hr as <-.
    simpl. rewrite length_app. simpl. lia.
Qed.

(** X14. Whatever the response and the transport, the trips [plan_trip]
    returns hold no dangling polyline: every polyline attached to a section
    is an object of the store.  The objects that were in the store before the
    call are still there, every object of the returned cache is in the
    store, and no two cache entries share an object. *)
Theorem attached_polyline_in_store (auto_fetch_walking get_polylines : bool)
    (response : option json) (w w' : world) (trips : list Trip.t) (c : CommonData.t) :
  plan_trip send auto_fetch_walking get_polylines response w = Ok (trips, c, w') ->
  heap_grows w w' /\
  cache_valid c w' /\
  forall s r, In s (all_sections trips) -> attached s = Some r ->
              exists p, heap w' !! r = Some p.
Proof.
  intros H.
  set (P := fun (c1 : CommonData.t) (w1 : world) => heap_grows w w1 /\ cache_valid c1 w1).
  set (Q := fun (_ : CommonData.t) (w1 : world) (s : TripSection.t) =>
              forall r, attached s = Some r -> (r < length (heap w1))%nat).
  set (I := fun st : list Trip.t * CommonData.t * world =>
              P (snd (fst st)) (snd st) /\
              Forall (Q (snd (fst st)) (snd st)) (all_sections (fst (fst st)))).
  assert (P_step : forall s0 c0 w0 s1 c1 w1,
            fetch_walking_section send s0 c0 w0 = Ok (s1, c1, w1) -> P c0 w0 -> P c1 w1).
  { intros s0 c0 w0 s1 c1 w1 Hstep (Hgrows & Hvalid). split.
    - exact (heap_grows_trans _ _ _ Hgrows (fetch_walking_section_heap send _ _ _ _ _ _ Hstep)).
    - exact (fetch_walking_section_valid _ _ _ _ _ _ Hstep Hvalid). }
  assert (Q_step : forall s0 c0 w0 s1 c1 w1,
            fetch_walking_section send s0 c0 w0 = Ok (s1, c1, w1) ->
            P c0 w0 -> attached s0 = None -> Q c1 w1 s1).
  { intros s0 c0 w0 s1 c1 w1 Hstep (_ & Hvalid) Hfresh r Hr.
    exact (fetch_walking_section_in_store _ _ _ _ _ _ r Hstep Hvalid Hfresh Hr). }
  assert (Q_mono : forall s0 c0 w0 s1 c1 w1 x,
            fetch_walking_section send s0 c0 w0 = Ok (s1, c1, w1) ->
            P c0 w0 -> Q c0 w0 x -> Q c1 w1 x).
  { intros s0 c0 w0 s1 c1 w1 x Hstep _ Hx r Hr.
    destruct (fetch_walking_section_heap send _ _ _ _ _ _ Hstep) as (extra & ->).
    rewrite length_app. specialize (Hx r Hr). lia. }
  assert (Q_fresh : forall c0 w0 x, attached x = None -> Q c0 w0 x).
  { intros c0 w0 x Hfresh r Hr. congruence. }
  assert (Hinv : I (trips, c, w')).
  { refine (plan_trip_keep send I _ _ _ _ _ _ _ H _).
    - intros fetching conns trips0 c0 w0 [[trips1 c1] w1] Hrun (HP & HQ).
      destruct (plan_trip_connections_keep send P Q P_step Q_step Q_mono Q_fresh
                  fetching conns trips0 c0 w0 trips1 c1 w1 Hrun HP)
        as (new & -> & HP1 & Hnew & Hmono).
      split; [exact HP1 |]. simpl. rewrite all_sections_app. apply Forall_app. split.
      + eapply Forall_impl; [exact HQ |]. intros x Hx. exact (Hmono x Hx).
      + unfold all_sections. apply Forall_concat, Forall_map. exact Hnew.
    - intros trips0 c0 w0 c1 Hempty ((Hgrows & _) & HQ). split; [| exact HQ].
      split; [exact Hgrows |]. unfold cache_valid. simpl. rewrite Hempty. simpl.
      split; constructor.
    - split; [| constructor]. split; [apply heap_grows_refl |].
      unfold cache_valid. simpl. split; constructor. }
  destruct Hinv as ((Hgrows & Hvalid) & Hall). simpl in *.
  split; [exact Hgrows |]. split; [exact Hvalid |].
  intros s r Hs Hr. apply lookup_lt_is_Some_2.
  rewrite Forall_forall in Hall.
  exact (Hall s (proj2 (list_elem_of_In _ _) Hs) r Hr).
Qed.

End StoreInvariant.

Lemma attached_polyline_in_store_witness :
  exists trips c w',
    plan_trip online true true (Some sample_trip_search_response) initial_world
    = Ok (trips, c, w') /\
    cache_valid c w' /\
    forall s r, In s (all_sections trips) -> attached s = Some r ->
                exists p, heap w' !! r = Some p.
Proof.
  assert (Hrun : exists out,
            plan_trip online true true (Some sample_trip_search_response) initial_world
            = Ok out) by (eexists; reflexivity).
  destruct Hrun as ([[trips c] w'] & Hrun).
  destruct (attached_polyline_in_store online true true (Some sample_trip_search_response)
              initial_world w' trips c Hrun) as (_ & Hvalid & Hall).
  exists trips, c, w'. auto.
Defined.

(** ** The requests of the walking fill *)

Lemma requests_for_idle (sections : list TripSection.t) (w : world) :
  requests_for sections w w.
Proof.
  exists []. rewrite app_nil_r. simpl.
  split; [reflexivity |]. split; [lia |]. split; [lia | constructor].
Qed.

Lemma requests_for_trans (a b : list TripSection.t) (w w1 w2 : world) :
  requests_for a w w1 -> requests_for b w1 w2 -> requests_for (a ++ b) w w2.
Proof.
  intros (sent1 & Hlog1 & Hcount1 & Hlen1 & Hall1) (sent2 & Hlog2 & Hcount2 & Hlen2 & Hall2).
  exists (sent1 ++ sent2). rewrite Hlog2, Hlog1, Hcount2, Hcount1, app_assoc.
  rewrite List.filter_app, !length_app.
  split; [reflexivity |]. split; [lia |]. split; [lia |].
  apply Forall_app. split.
  - eapply Forall_impl; [exact Hall1 |]. intros k (s & g & Hin & Hrest).
    exists s, g. split; [apply in_or_app; left; exact Hin | exact Hrest].
  - eapply Forall_impl; [exact Hall2 |]. intros k (s & g & Hin & Hrest).
    exists s, g. split; [apply in_or_app; right; exact Hin | exact Hrest].
Qed.

Section Requests.

Variable send : nat -> json -> option json.

Lemma fetch_walking_section_requests (s s' : TripSection.t) (c c' : CommonData.t)
    (w w' : world) :
  fetch_walking_section send s c w = Ok (s', c', w') -> requests_for [s'] w w'.
Proof.
  intros H. apply fetch_walking_section_step in H.
  destruct H as [Hskip | g p Htoken Hg Hhit | g coords segs Htoken Hg Hmiss Hfetch
                 | g coords segs pl Htoken Hg Hmiss Hfetch].
  - apply requests_for_idle.
  - apply requests_for_idle.
  - exists [GisInfo.ctx g]. simpl. rewrite Htoken. simpl.
    split; [reflexivity |]. split; [lia |]. split; [lia |].
    constructor; [| constructor]. exists s, g. auto.
  - set (s' := TripSection.set_gis s _).
    assert (Htoken' : has_token s' = true).
    { unfold has_token in *. simpl. rewrite Hg in Htoken. exact Htoken. }
    exists [GisInfo.ctx g]. simpl. rewrite Htoken'. simpl.
    split; [reflexivity |]. split; [lia |]. split; [lia |].
    constructor; [| constructor]. eexists s', _. split; [left; reflexivity |].
    split; [exact Htoken' |]. split; reflexivity.
Qed.

Lemma fetch_walking_sections_requests (sections : list TripSection.t) :
  forall c w sections' c' w',
    fetch_walking_sections send sections c w = Ok (sections', c', w') ->
    requests_for sections' w w'.
Proof.
  induction sections as [|s rest IH]; intros c w sections' c' w' H; simpl in H.
  - injection H as <- <- <-. apply requests_for_idle.
  - inv_bind H as first Hfirst. destruct first as [[s1 c1] w1].
    inv_bind H as others Hothers. destruct others as [[rest1 c2] w2].
    injection H as <- <- <-.
    exact (requests_for_trans [s1] rest1 _ _ _
             (fetch_walking_section_requests _ _ _ _ _ _ Hfirst)
             (IH _ _ _ _ _ Hothers)).
Qed.

Lemma plan_trip_connections_requests (fetching : bool) (conns : list json) :
  forall trips c w trips' c' w',
    plan_trip_connections send fetching conns trips c w = Ok (trips', c', w') ->
    exists new, trips' = trips ++ new /\ requests_for (all_sections new) w w'.
Proof.
  induction conns as [|conn rest IH]; intros trips c w trips' c' w' H; simpl in H.
  - injection H as <- <- <-. exists []. rewrite app_nil_r.
    split; [reflexivity | apply requests_for_idle].
  - destruct (_parse_trip conn c) as [trip |] eqn:Htrip; [| exact (IH _ _ _ _ _ _ H)].
    inv_bind H as filled Hfilled. destruct filled as [[trip1 c1] w1].
    assert (Hone : requests_for (Trip.sections trip1) w w1).
    { destruct fetching.
      - unfold fetch_walking_trip in Hfilled.
        inv_bind Hfilled as r Hr. destruct r as [[secs c0] w0].
        injection Hfilled as <- <- <-. simpl.
        exact (fetch_walking_sections_requests _ _ _ _ _ _ Hr).
      - injection Hfilled as <- <- <-. apply requests_for_idle. }
    destruct (IH _ _ _ _ _ _ H) as (new & -> & Hnew).
    exists (trip1 :: new). rewrite <- app_assoc. split; [reflexivity |].
    exact (requests_for_trans _ _ _ _ _ Hone Hnew).
Qed.

(** X15. The walking-details requests of one [plan_trip] call are accounted
    for by the trips it returns: the request log grows by the requests sent,
    the request counter advances by exactly their number, there are at most
    as many requests as returned sections that pass the guard of the fill (a
    WALK section with a [GisInfo] and a truthy token), and every request
    carries the token of such a section. *)
Theorem walking_requests_accounted (auto_fetch_walking get_polylines : bool)
    (response : option json) (w w' : world) (trips : list Trip.t) (c : CommonData.t) :
  plan_trip send auto_fetch_walking get_polylines response w = Ok (trips, c, w') ->
  exists sent,
    gis_requests w' = gis_requests w ++ sent /\
    request_counter w' = (request_counter w + length sent)%nat /\
    (length sent <= token_sections trips)%nat /\
    Forall (fun k => exists s g,
              In s (all_sections trips) /\ has_token s = true /\
              TripSection.gis s = Some g /\ GisInfo.ctx g = k) sent.
Proof.
  intros H.
  set (I := fun st : list Trip.t * CommonData.t * world =>
              requests_for (all_sections (fst (fst st))) w (snd st)).
  assert (Hinv : I (trips, c, w')).
  { refine (plan_trip_keep send I _ _ _ _ _ _ _ H _).
    - intros fetching conns trips0 c0 w0 [[trips1 c1] w1] Hrun HI.
      destruct (plan_trip_connections_requests _ _ _ _ _ _ _ _ Hrun) as (new & -> & Hnew).
      unfold I. simpl. rewrite all_sections_app.
      exact (requests_for_trans _ _ _ _ _ HI Hnew).
    - intros trips0 c0 w0 c1 _ HI. exact HI.
    - apply requests_for_idle. }
  exact Hinv.
Qed.

End Requests.

Lemma walking_requests_accounted_witness :
  exists trips c w' sent,
    plan_trip online true true (Some sample_trip_search_response) initial_world
    = Ok (trips, c, w') /\
    gis_requests w' = gis_requests initial_world ++ sent /\
    request_counter w' = (request_counter initial_world + length sent)%nat /\
    (length sent <= token_sections trips)%nat.
Proof.
  assert (Hrun : exists out,
            plan_trip online true true (Some sample_trip_search_response) initial_world
            = Ok out) by (eexists; reflexivity).
  destruct Hrun as ([[trips c] w'] & Hrun).
  destruct (walking_requests_accounted online true true (Some sample_trip_search_response)
              initial_world w' trips c Hrun) as (sent & Hlog & Hcount & Hlen & _).
  exists trips, c, w', sent. auto.
Defined.

(** ** [scroll_trips] and [plan_trip] *)

Lemma same_tables_refl (c : CommonData.t) : same_tables c c.
Proof. destruct c. reflexivity. Qed.

Lemma same_tables_trans (a b c : CommonData.t) :
  same_tables a b -> same_tables b c -> same_tables a c.
Proof. unfold same_tables. intros Hab Hbc. rewrite Hbc at 1. rewrite Hab. reflexivity. Qed.

Lemma parsed_trips_fresh (conns : list json) (c : CommonData.t) (trips : list Trip.t) :
  Forall (fun s => attached s = None) (all_sections trips) ->
  Forall (fun s => attached s = None) (all_sections (parse_connections conns c trips)).
Proof.
  intros Htrips. rewrite parse_connections_omap, all_sections_app.
  apply Forall_app. split; [exact Htrips |].
  unfold all_sections. apply Forall_concat, Forall_map, Forall_forall.
  intros trip Htrip. apply list_elem_of_omap in Htrip as (conn & _ & Hconn).
  exact (parsed_sections_fresh conn c trip Hconn).
Qed.

Section ScrollTrips.

Variable send : nat -> json -> option json.

Lemma plan_trip_service_no_fetch (trips : list Trip.t) (c : CommonData.t) (w : world)
    (svc : json) :
  plan_trip_service send false (trips, c, w) svc
  = (do r <- scroll_trips_service (trips, c) svc; Ok (fst r, snd r, w)).
Proof.
  unfold plan_trip_service, scroll_trips_service.
  destruct (py_get svc "meth" JNull) as [meth | e]; [| reflexivity]. cbn [bind].
  destruct (if is_str "TripSearch" meth then py_contains "res" svc else Ok false)
    as [selected | e]; [| reflexivity]. cbn [bind].
  destruct selected; [| reflexivity].
  destruct (py_getitem svc "res") as [res | e]; [| reflexivity]. cbn [bind].
  destruct (py_contains "common" res) as [has_common | e]; [| reflexivity]. cbn [bind].
  destruct (if has_common
            then do common <- py_getitem res "common"; _parse_common_data common
            else Ok c) as [c1 | e]; [| reflexivity]. cbn [bind].
  destruct (py_get res "outConL" (JArr [])) as [outConL | e]; [| reflexivity]. cbn [bind].
  destruct (py_iter outConL) as [conns | e]; [| reflexivity]. cbn [bind].
  apply plan_trip_connections_no_fetch.
Qed.

Lemma plan_trip_services_no_fetch (svcs : list json) (w : world) :
  forall trips c,
    for_each (plan_trip_service send false) svcs (trips, c, w)
    = (do r <- for_each scroll_trips_service svcs (trips, c); Ok (fst r, snd r, w)).
Proof.
  induction svcs as [|svc rest IH]; intros trips c; [reflexivity |].
  cbn [for_each]. rewrite plan_trip_service_no_fetch.
  destruct (scroll_trips_service (trips, c) svc) as [[trips1 c1] | e]; [| reflexivity].
  cbn [bind fst snd]. apply IH.
Qed.

Lemma scroll_trips_service_fresh (st st' : list Trip.t * CommonData.t) (svc : json) :
  scroll_trips_service st svc = Ok st' ->
  Forall (fun s => attached s = None) (all_sections (fst st)) ->
  Forall (fun s => attached s = None) (all_sections (fst st')).
Proof.
  destruct st as [trips c]. unfold scroll_trips_service. intros H Hfresh.
  inv_bind H as meth Hmeth. inv_bind H as selected Hselected.
  destruct selected; [| injection H as <-; exact Hfresh].
  inv_bind H as res Hres. inv_bind H as has_common Hhas.
  inv_bind H as c1 Hc1. inv_bind H as outConL Hout. inv_bind H as conns Hconns.
  injection H as <-. simpl. apply parsed_trips_fresh. exact Hfresh.
Qed.

(** X16. With the walking fetch switched off (by the client's
    [auto_fetch_walking] or by the call's [get_polylines]), [plan_trip]
    treats a response exactly as [scroll_trips] does: same trips, same common
    data, same exception when one is raised; it sends no request, whatever
    the transport.  The sections returned hold no polyline object. *)
Theorem plan_trip_without_fetch_is_scroll_trips (auto_fetch_walking get_polylines : bool)
    (response : option json) (w : world) :
  auto_fetch_walking && get_polylines = false ->
  plan_trip send auto_fetch_walking get_polylines response w
  = (do r <- scroll_trips response; Ok (fst r, snd r, w)) /\
  forall trips c,
    scroll_trips response = Ok (trips, c) ->
    Forall (fun s => attached s = None) (all_sections trips).
Proof.
  intros Hoff. split.
  - unfold plan_trip, scroll_trips. rewrite Hoff.
    destruct response as [r |]; [| reflexivity].
    destruct (negb (py_truthy r)); [reflexivity |].
    destruct (py_contains "svcResL" r) as [has_services | e]; [| reflexivity]. cbn [bind].
    destruct (negb has_services); [reflexivity |].
    destruct (py_getitem r "svcResL") as [svcResL | e]; [| reflexivity]. cbn [bind].
    destruct (py_iter svcResL) as [svcs | e]; [| reflexivity]. cbn [bind].
    apply plan_trip_services_no_fetch.
  - intros trips c H. unfold scroll_trips in H.
    assert (Hnone : Forall (fun s => attached s = None)
                      (all_sections (fst (@nil Trip.t, CommonData.empty))))
      by constructor.
    destruct response as [r |]; [| injection H as <- <-; constructor].
    destruct (negb (py_truthy r)); [injection H as <- <-; constructor |].
    inv_bind H as has_services Hhas.
    destruct (negb has_services); [injection H as <- <-; constructor |].
    inv_bind H as svcResL Hsvc. inv_bind H as svcs Hsvcs.
    exact (for_each_invariant _
             (fun st => Forall (fun s => attached s = None) (all_sections (fst st)))
             svcs (fun st x st' => scroll_trips_service_fresh st st' x) _ _ H Hnone).
Qed.

Lemma fetch_walking_section_tables (s s' : TripSection.t) (c c' : CommonData.t)
    (w w' : world) :
  fetch_walking_section send s c w = Ok (s', c', w') -> same_tables c c'.
Proof.
  intros H. apply fetch_walking_section_step, fill_step_cache in H.
  destruct H as [(-> & _) | (g & pl & _ & _ & -> & _)]; [apply same_tables_refl |].
  reflexivity.
Qed.

Lemma plan_trip_connections_tables (fetching : bool) (conns : list json)
    (trips trips' : list Trip.t) (c c' : CommonData.t) (w w' : world) :
  plan_trip_connections send fetching conns trips c w = Ok (trips', c', w') ->
  same_tables c c'.
Proof.
  intros H.
  destruct (plan_trip_connections_keep send
              (fun c1 _ => same_tables c c1) (fun _ _ _ => True)
              (fun s0 c0 w0 s1 c1 w1 Hstep HP =>
                 same_tables_trans _ _ _ HP
                   (fetch_walking_section_tables _ _ _ _ _ _ Hstep))
              (fun _ _ _ _ _ _ _ _ _ => Logic.I)
              (fun _ _ _ _ _ _ _ _ _ HQ => HQ)
              (fun _ _ _ _ => Logic.I)
              fetching conns trips c w trips' c' w' H (same_tables_refl c))
    as (_ & _ & Hsame & _).
  exact Hsame.
Qed.

(** The two loop states agree up to the walking geometry. *)
Lemma plan_trip_service_scroll (fetching : bool) (svc : json)
    (trips plain trips' : list Trip.t) (c c0 c' : CommonData.t) (w w' : world) :
  plan_trip_service send fetching (trips, c, w) svc = Ok (trips', c', w') ->
  Forall2 filled_from plain trips -> same_tables c0 c ->
  exists plain' c0',
    scroll_trips_service (plain, c0) svc = Ok (plain', c0') /\
    Forall2 filled_from plain' trips' /\ same_tables c0' c'.
Proof.
  unfold plan_trip_service, scroll_trips_service. intros H Htrips Hc.
  inv_bind H as meth Hmeth. rewrite Hmeth. cbn [bind].
  inv_bind H as selected Hselected. rewrite Hselected. cbn [bind].
  destruct selected; [| injection H as <- <- <-; eauto].
  inv_bind H as res Hres. rewrite Hres. cbn [bind].
  inv_bind H as has_common Hhas. rewrite Hhas. cbn [bind].
  inv_bind H as c1 Hc1. inv_bind H as outConL Hout.
  inv_bind H as conns Hconns.
  assert (Hstart : exists c2,
            (if has_common
             then do common <- py_getitem res "common"; _parse_common_data common
             else Ok c0) = Ok c2 /\ same_tables c2 c1).
  { destruct has_common.
    - exists c1. split; [exact Hc1 | apply same_tables_refl].
    - injection Hc1 as <-. exists c0. split; [reflexivity | exact Hc]. }
  destruct Hstart as (c2 & -> & Hc2). cbn [bind].
  rewrite Hout. cbn [bind]. rewrite Hconns. cbn [bind].
  destruct (plan_trip_connections_filled send _ _ _ _ _ _ _ _ H) as (new & -> & Hnew).
  do 2 eexists. split; [reflexivity |]. split.
  - rewrite parse_connections_omap. apply Forall2_app; [exact Htrips | exact Hnew].
  - exact (same_tables_trans _ _ _ Hc2 (plan_trip_connections_tables _ _ _ _ _ _ _ _ H)).
Qed.

Lemma plan_trip_services_scroll (fetching : bool) (svcs : list json) :
  forall trips plain trips' c c0 c' w w',
    for_each (plan_trip_service send fetching) svcs (trips, c, w) = Ok (trips', c', w') ->
    Forall2 filled_from plain trips -> same_tables c0 c ->
    exists plain' c0',
      for_each scroll_trips_service svcs (plain, c0) = Ok (plain', c0') /\
      Forall2 filled_from plain' trips' /\ same_tables c0' c'.
Proof.
  induction svcs as [|svc rest IH]; intros trips plain trips' c c0 c' w w' H Htrips Hc;
    cbn [for_each] in *.
  - injection H as <- <- <-. eauto.
  - inv_bind H as st1 Hst1. destruct st1 as [[trips1 c1] w1].
    destruct (plan_trip_service_scroll _ _ _ _ _ _ _ _ _ _ Hst1 Htrips Hc)
      as (plain1 & c01 & -> & Htrips1 & Hc1).
    cbn [bind]. exact (IH _ _ _ _ _ _ _ _ H Htrips1 Hc1).
Qed.

(** X17. The walking fetch changes nothing but walking geometry: when
    [plan_trip] returns, [scroll_trips] returns on the same response, with
    as many trips, in the same order, each equal to the trip of [plan_trip]
    up to the polyline and the segments of the [GisInfo] of its sections,
    and with the same common data up to the walking-route cache. *)
Theorem walking_fetch_changes_only_geometry (auto_fetch_walking get_polylines : bool)
    (response : option json) (w w' : world) (trips : list Trip.t) (c : CommonData.t) :
  plan_trip send auto_fetch_walking get_polylines response w = Ok (trips, c, w') ->
  exists plain c0,
    scroll_trips response = Ok (plain, c0) /\
    Forall2 filled_from plain trips /\
    same_tables c0 c.
Proof.
  unfold plan_trip, scroll_trips. intros H.
  destruct response as [r |];
    [| injection H as <- <- <-; do 2 eexists; split; [reflexivity |];
       split; [constructor | apply same_tables_refl]].
  destruct (negb (py_truthy r));
    [injection H as <- <- <-; do 2 eexists; split; [reflexivity |];
     split; [constructor | apply same_tables_refl] |].
  inv_bind H as has_services Hhas. rewrite Hhas. cbn [bind].
  destruct (negb has_services);
    [injection H as <- <- <-; do 2 eexists; split; [reflexivity |];
     split; [constructor | apply same_tables_refl] |].
  inv_bind H as svcResL Hsvc. rewrite Hsvc. cbn [bind].
  inv_bind H as svcs Hsvcs. rewrite Hsvcs. cbn [bind].
  exact (plan_trip_services_scroll _ _ _ _ _ _ _ _ _ _ H
           (List.Forall2_nil _) (same_tables_refl _)).
Qed.

End ScrollTrips.

Lemma plan_trip_without_fetch_is_scroll_trips_witness :
  true && false = false /\
  plan_trip online true false (Some sample_trip_search_response) initial_world
  = (do r <- scroll_trips (Some sample_trip_search_response);
     Ok (fst r, snd r, initial_world)).
Proof.
  split; [reflexivity |].
  exact (proj1 (plan_trip_without_fetch_is_scroll_trips online true false
                  (Some sample_trip_search_response) initial_world eq_refl)).
Defined.

Lemma walking_fetch_changes_only_geometry_witness :
  exists trips c w' plain c0,
    plan_trip online true true (Some sample_trip_search_response) initial_world
    = Ok (trips, c, w') /\
    scroll_trips (Some sample_trip_search_response) = Ok (plain, c0) /\
    Forall2 filled_from plain trips /\
    same_tables c0 c.
Proof.
  assert (Hrun : exists out,
            plan_trip online true true (Some sample_trip_search_response) initial_world
            = Ok out) by (eexists; reflexivity).
  destruct Hrun as ([[trips c] w'] & Hrun).
  destruct (walking_fetch_changes_only_geometry online true true
              (Some sample_trip_search_response) initial_world w' trips c Hrun)
    as (plain & c0 & Hscroll & Htrips & Hsame).
  exists trips, c, w', plain, c0. auto.
Defined.
